(** * MUP1 web frontend: framing codec, CoAP client, event bus, reassembler

    A shallow embedding of the protocol core of the repository: the
    frame codec (js/velocitydrive-protocol.js), the CoAP client
    (js/coap-client.js), the event bus of the controller
    (js/lan966x-controller.js) and the sender and reassembler of class
    [WebSerialConnection] (js/webserial.js, bundled in js/pages.js),
    followed by the properties of the specification stated over it.

    Conventions.  A JavaScript number that holds an integer is a [Z]; a
    [Uint8Array] or an array of numbers is a [list Z]; a JavaScript string
    is the list of its UTF-16 code units, again a [list Z]; [undefined]
    read from an array is [None].  Exceptions are the [Throw] case of
    [result].  Numbers stay below 2^53, where they are exact. *)

From Stdlib Require Import ZArith List Lia Bool String Ascii Sorted.
From stdpp Require Import gmap strings list pretty.

Local Open Scope Z_scope.

(** ** JavaScript primitives used by the sources *)

Module JS.

Inductive result (A : Type) : Type :=
| Ok (a : A)
| Throw (message : string).
Arguments Ok {A} a.
Arguments Throw {A} message.

(** ToInt32 of an integer-valued number. *)
Definition to_int32 (x : Z) : Z := (x + 2 ^ 31) mod 2 ^ 32 - 2 ^ 31.

(** [a << n], [a >> n], [a & b], [a | b], [~a] on 32-bit integers. *)
Definition shl (a n : Z) : Z := to_int32 (Z.shiftl (to_int32 a) (n mod 32)).
Definition sar (a n : Z) : Z := Z.shiftr (to_int32 a) (n mod 32).
Definition band (a b : Z) : Z := Z.land (to_int32 a) (to_int32 b).
Definition bor (a b : Z) : Z := Z.lor (to_int32 a) (to_int32 b).
Definition bnot (a : Z) : Z := Z.lnot (to_int32 a).

(** Storing a number into a [Uint8Array]. *)
Definition to_uint8 (x : Z) : Z := x mod 256.

Definition len (l : list Z) : Z := Z.of_nat (length l).

(** [arr[i]]: [None] is [undefined]. *)
Definition get (l : list Z) (i : Z) : option Z :=
  if i <? 0 then None else nth_error l (Z.to_nat i).

(** [arr[i] === v] *)
Definition get_is (l : list Z) (i v : Z) : bool :=
  match get l i with
  | Some x => x =? v
  | None => false
  end.

(** [String.fromCharCode(arr[i])]: [undefined] converts to code 0. *)
Definition get_char (l : list Z) (i : Z) : Z :=
  match get l i with
  | Some x => x mod 65536
  | None => 0
  end.

(** [arr.indexOf(x, from)] for [from >= 0]; -1 when absent. *)
Fixpoint indexOf_from (x : Z) (l : list Z) (i : Z) : Z :=
  match l with
  | [] => -1
  | y :: t => if y =? x then i else indexOf_from x t (i + 1)
  end.

Definition indexOf (l : list Z) (x from : Z) : Z :=
  indexOf_from x (skipn (Z.to_nat from) l) (Z.max from 0).

(** [arr.slice(a, b)], with the relative-index rule for negatives. *)
Definition rel_index (n i : Z) : Z :=
  if i <? 0 then Z.max (n + i) 0 else Z.min i n.

Definition slice (l : list Z) (a b : Z) : list Z :=
  let s := rel_index (len l) a in
  let e := rel_index (len l) b in
  firstn (Z.to_nat (e - s)) (skipn (Z.to_nat s) l).

Definition slice_from (l : list Z) (a : Z) : list Z := slice l a (len l).

(** [n.toString(16).toUpperCase()] for an integer [n >= 0]. *)
Definition hexDigit (d : Z) : Z := if d <? 10 then 48 + d else 55 + d.

Fixpoint hexDigits (fuel : nat) (n : Z) (acc : list Z) : list Z :=
  let acc' := hexDigit (n mod 16) :: acc in
  match fuel with
  | O => acc'
  | S f => if n / 16 =? 0 then acc' else hexDigits f (n / 16) acc'
  end.

Definition toUpperHex (n : Z) : list Z :=
  hexDigits (Z.to_nat (Z.log2 n)) n [].

(** [s.padStart(w, c)] with a one-character filler. *)
Definition padStart (w : nat) (c : Z) (s : list Z) : list Z :=
  repeat c (w - length s)%nat ++ s.

(** Code units of a string literal. *)
Fixpoint codes (s : string) : list Z :=
  match s with
  | EmptyString => []
  | String a r => Z.of_N (N_of_ascii a) :: codes r
  end.

End JS.

(** ** MUP1 frame codec (js/velocitydrive-protocol.js) *)

Module MUP1.
Import JS.

Definition SOF : Z := 0x3E.
Definition EOF : Z := 0x3C.
Definition ESCAPE : Z := 0x5C.

Definition COMMANDS_ANNOUNCEMENT : Z := 0x41.
Definition COMMANDS_COAP : Z := 0x43.
Definition COMMANDS_PING : Z := 0x50.
Definition COMMANDS_TRACE : Z := 0x54.
Definition COMMANDS_SYSTEM : Z := 0x53.

Definition ESCAPE_MAP : list (Z * Z) :=
  [(0x00, 0x30); (0xFF, 0x46); (0x3E, 0x3E); (0x3C, 0x3C); (0x5C, 0x5C)].

Fixpoint table_get (t : list (Z * Z)) (k : Z) : option Z :=
  match t with
  | [] => None
  | (k', v) :: r => if k' =? k then Some v else table_get r k
  end.

Definition needsEscape (byte : Z) : bool :=
  (byte =? 0x00) || (byte =? 0xFF) ||
  (byte =? 0x3E) || (byte =? 0x3C) || (byte =? 0x5C).

(** The body of the [for (const byte of data)] loop of [encodeFrame]:
    the bytes pushed for one payload byte.  [ESCAPE_MAP[byte]] is only
    read under [needsEscape], where the table has an entry. *)
Definition escapeByte (byte : Z) : list Z :=
  if needsEscape byte
  then [ESCAPE; default 0 (table_get ESCAPE_MAP byte)]
  else [byte].

Definition escapeData (data : list Z) : list Z := flat_map escapeByte data.

(** [calculateChecksum]: the word-summing loop. *)
Fixpoint sumWords (sum : Z) (data : list Z) : Z :=
  match data with
  | a :: b :: rest => sumWords (sum + bor (shl a 8) b) rest
  | [a] => sum + shl a 8
  | [] => sum
  end.

(** [while (sum >> 16) sum = (sum & 0xFFFF) + (sum >> 16)], unrolled
    [fuel] times; [foldCarry_exits] shows two rounds always suffice. *)
Fixpoint foldCarry (fuel : nat) (sum : Z) : Z :=
  match fuel with
  | O => sum
  | S f => if sar sum 16 =? 0 then sum
           else foldCarry f (band sum 0xFFFF + sar sum 16)
  end.

Definition calculateChecksum (data : list Z) : Z :=
  band (bnot (foldCarry 2 (sumWords 0 data))) 0xFFFF.

Definition checksumStr (checksum : Z) : list Z :=
  padStart 4 48 (toUpperHex checksum).

Definition encodeFrame (type : Z) (data : list Z) : list Z :=
  let frame := [SOF; type] ++ escapeData data ++ [EOF] in
  let frame := if len frame mod 2 =? 0 then frame ++ [EOF] else frame in
  let checksum := calculateChecksum frame in
  map to_uint8 (frame ++ checksumStr checksum).

(** [unescapeByte]: [reverseMap[escapedByte] || escapedByte]; a table
    entry that is the number 0 is falsy, so [||] yields the right-hand
    operand. *)
Definition reverseMap : list (Z * Z) :=
  [(0x30, 0x00); (0x46, 0xFF); (0x3E, 0x3E); (0x3C, 0x3C); (0x5C, 0x5C)].

Definition unescapeByte (escapedByte : Z) : Z :=
  match table_get reverseMap escapedByte with
  | Some v => if v =? 0 then escapedByte else v
  | None => escapedByte
  end.

(** The [while (i < buffer.length - 4)] loop of [decodeFrame], run over
    the bytes at positions [2 .. buffer.length - 5]. *)
Fixpoint decodeLoop (bytes : list Z) (escaping : bool) (data : list Z)
  : list Z :=
  match bytes with
  | [] => data
  | byte :: rest =>
      if byte =? EOF then data
      else if escaping then decodeLoop rest false (data ++ [unescapeByte byte])
      else if byte =? ESCAPE then decodeLoop rest true data
      else decodeLoop rest false (data ++ [byte])
  end.

(** The object returned by [decodeFrame], together with whether
    [console.warn('Checksum mismatch:', ...)] was issued. *)
Record decoded := {
  type : Z;             (* the one code unit of [String.fromCharCode(type)] *)
  data : list Z;
  checksum : list Z;    (* [providedChecksum], four code units *)
  warned : bool
}.

Definition decodeFrame (buffer : list Z) : result decoded :=
  if len buffer <? 8 then Throw "Frame too short"
  else if negb (get_is buffer 0 SOF) then Throw "Invalid start of frame"
  else
    let type := get_char buffer 1 in
    let data := decodeLoop (slice buffer 2 (len buffer - 4)) false [] in
    let frameEnd := indexOf buffer EOF 2 in
    let checksumStart :=
      if get_is buffer (frameEnd + 1) EOF then frameEnd + 2 else frameEnd + 1 in
    let providedChecksum :=
      [get_char buffer checksumStart; get_char buffer (checksumStart + 1);
       get_char buffer (checksumStart + 2); get_char buffer (checksumStart + 3)] in
    let frameForChecksum := slice buffer 0 (frameEnd + 1) in
    let calculatedChecksum := checksumStr (calculateChecksum frameForChecksum) in
    Ok {| type := type; data := data; checksum := providedChecksum;
          warned := negb (bool_decide (providedChecksum = calculatedChecksum)) |}.

(** The specification's [checksum_ok]: no mismatch was reported. *)
Definition checksum_ok (d : decoded) : bool := negb (warned d).

(** Strings: [trim], [split(/\s+/)], [split(sep)], [startsWith],
    [replace(/^v/, '')] on lists of code units. *)
Definition isSpace (c : Z) : bool :=
  ((9 <=? c) && (c <=? 13)) || (c =? 32) || (c =? 0xA0) || (c =? 0x1680) ||
  ((0x2000 <=? c) && (c <=? 0x200A)) || (c =? 0x2028) || (c =? 0x2029) ||
  (c =? 0x202F) || (c =? 0x205F) || (c =? 0x3000) || (c =? 0xFEFF).

Fixpoint trimStart (s : list Z) : list Z :=
  match s with
  | c :: r => if isSpace c then trimStart r else s
  | [] => []
  end.

Definition trim (s : list Z) : list Z := rev (trimStart (rev (trimStart s))).

Fixpoint splitWs (s cur : list Z) (prevSpace : bool) : list (list Z) :=
  match s with
  | [] => [cur]
  | c :: r =>
      if isSpace c
      then (if prevSpace then splitWs r [] true else cur :: splitWs r [] true)
      else splitWs r (cur ++ [c]) false
  end.

Fixpoint splitOn (sep : Z) (s cur : list Z) : list (list Z) :=
  match s with
  | [] => [cur]
  | c :: r => if c =? sep then cur :: splitOn sep r [] else splitOn sep r (cur ++ [c])
  end.

Definition split (s : list Z) (sep : Z) : list (list Z) := splitOn sep s [].

Fixpoint startsWith (s prefix : list Z) : bool :=
  match prefix, s with
  | [], _ => true
  | p :: prefix', c :: s' => (c =? p) && startsWith s' prefix'
  | _ :: _, [] => false
  end.

Definition stripLeadingV (s : list Z) : list Z :=
  match s with
  | c :: r => if c =? 0x76 then r else s
  | [] => []
  end.

Record info := {
  deviceType : list Z;
  firmwareVersion : list Z;
  serialNumber : list Z
}.

Definition Unknown : list Z := codes "Unknown".
Definition dash : Z := 0x2D.

(** [parseAnnouncement], from the text produced by
    [decoder.decode(data)] on.  [front] is the first element of the
    whitespace split, which always has one. *)
Definition parseAnnouncement (decodedText : list Z) : info :=
  let text := trim decodedText in
  if startsWith text (codes "VelocitySP-v") then
    let front := hd [] (splitWs text [] false) in
    let parts := split front dash in
    if (4 <=? length parts)%nat then
      {| deviceType := nth 2 parts [];
         firmwareVersion := stripLeadingV (nth 1 parts []);
         serialNumber := nth 3 parts [] |}
    else
      {| deviceType := front; firmwareVersion := Unknown; serialNumber := Unknown |}
  else
    {| deviceType := text; firmwareVersion := Unknown; serialNumber := Unknown |}.

Definition createPing : list Z := encodeFrame COMMANDS_PING [].
Definition createCoapFrame (coapMessage : list Z) : list Z :=
  encodeFrame COMMANDS_COAP coapMessage.

End MUP1.

(** ** Serial connection (class [WebSerialConnection]) *)

Module WebSerial.
Import JS.

(** The transport used by [request] is [connection.sendBytes].
    [writer_write] is [None] when the write succeeds and the error
    message when the returned promise rejects. *)
Record connection := {
  writable : bool;                         (* [this.port && this.port.writable] *)
  writer_write : list Z -> option string;
  buffer : list Z
}.

Definition sendBytes (conn : connection) (bytes : list Z) : result unit :=
  if negb (writable conn) then Throw "Not connected"
  else match writer_write conn bytes with
       | Some e => Throw e
       | None => Ok tt
       end.

(** The [while (true)] loop of [handleIncomingData]: [frames] collects
    the slices handed to [onDataCallback], in order.  Every round that
    does not [break] shortens the buffer, so [fuel] above its length is
    never used up ([extractFrames_fuel]). *)
Fixpoint extractFrames (fuel : nat) (buffer : list Z) (frames : list (list Z))
  : list Z * list (list Z) :=
  match fuel with
  | O => (buffer, frames)
  | S fuel' =>
      let startIndex := indexOf buffer 0x3E 0 in
      if startIndex =? -1 then (buffer, frames)
      else
        let endIndex := indexOf buffer 0x3C startIndex in
        if endIndex =? -1 then (buffer, frames)
        else
          let checksumEnd :=
            if get_is buffer (endIndex + 1) 0x3C then endIndex + 6 else endIndex + 5 in
          if len buffer <? checksumEnd then (buffer, frames)
          else
            let frame := slice buffer startIndex checksumEnd in
            extractFrames fuel' (slice_from buffer checksumEnd) (frames ++ [frame])
  end.

(** [handleIncomingData], with a data callback installed: the new
    connection state and the frames passed to the callback. *)
Definition handleIncomingData (conn : connection) (bytes : list Z)
  : connection * list (list Z) :=
  let newBuffer := buffer conn ++ bytes in
  let '(rest, frames) := extractFrames (S (length newBuffer)) newBuffer [] in
  ({| writable := writable conn; writer_write := writer_write conn;
      buffer := rest |}, frames).

End WebSerial.

(** ** CoAP client (js/coap-client.js) *)

Module CoAP.
Import JS MUP1 WebSerial.

(** JavaScript values that travel as payloads.  [JBytes] is a
    [Uint8Array]. *)
#[warnings="-register-all"]
Inductive jsval :=
| JNull
| JUndefined
| JBool (b : bool)
| JNum (n : Z)
| JStr (s : list Z)
| JBytes (b : list Z)
| JArr (items : list jsval)
| JObj (fields : list (list Z * jsval)).

(** ToBoolean, as in [if (payload)]. *)
Definition truthy (v : jsval) : bool :=
  match v with
  | JNull | JUndefined => false
  | JBool b => b
  | JNum n => negb (n =? 0)
  | JStr s => negb (bool_decide (s = []))
  | JBytes _ | JArr _ | JObj _ => true
  end.

Definition METHODS_GET : Z := 1.
Definition METHODS_POST : Z := 2.
Definition METHODS_PUT : Z := 3.
Definition METHODS_DELETE : Z := 4.
Definition METHODS_FETCH : Z := 5.

Definition RESPONSE_CODES : list (Z * string) :=
  [(201, "Created"); (202, "Deleted"); (203, "Valid"); (204, "Changed");
   (205, "Content"); (400, "Bad Request"); (401, "Unauthorized");
   (404, "Not Found"); (405, "Method Not Allowed");
   (500, "Internal Server Error")]%string.

Fixpoint codes_get (t : list (Z * string)) (k : Z) : option string :=
  match t with
  | [] => None
  | (k', v) :: r => if k' =? k then Some v else codes_get r k
  end.

(** *** [encodeOptions] *)

(** [if (firstByte) options.push(firstByte | n)] *)
Definition pushFirst (firstByte n : Z) : list Z :=
  if firstByte =? 0 then [] else [bor firstByte n].

(** One round of [segments.forEach]: the bytes pushed for [segment]
    when the previous option number is [prevOption]. *)
Definition pathOption (prevOption : Z) (segment : list Z) : list Z :=
  let delta := 11 - prevOption in
  let length := len segment in
  (if (delta <? 13) && (length <? 13) then [bor (shl delta 4) length]
   else
     let '(pushed, firstByte) :=
       if delta <? 13 then ([], bor 0 (shl delta 4))
       else if delta <? 269 then ([bor 0 (shl 13 4); delta - 13], 0)
       else ([bor 0 (shl 14 4); sar (delta - 269) 8; band (delta - 269) 0xFF], 0) in
     pushed ++
     (if length <? 13 then pushFirst firstByte length
      else if length <? 269 then pushFirst firstByte 13 ++ [length - 13]
      else pushFirst firstByte 14 ++
           [sar (length - 269) 8; band (length - 269) 0xFF]))
  ++ segment.

(** One round of [for (const q of queries)]. *)
Definition queryOption (prevOption : Z) (q : list Z) : list Z :=
  let qBytes := q in
  let delta := 15 - prevOption in
  (if (delta <? 13) && (len qBytes <? 13) then [bor (shl delta 4) (len qBytes)]
   else
     let first := bor (shl (if delta <? 13 then delta else 13) 4) 13 in
     [first; len qBytes - 13])
  ++ qBytes.

(** The loops thread [(options, prevOption)]. *)
Definition pathStep (st : list Z * Z) (segment : list Z) : list Z * Z :=
  (fst st ++ pathOption (snd st) segment, 11).

Definition queryStep (st : list Z * Z) (q : list Z) : list Z * Z :=
  (fst st ++ queryOption (snd st) q, 15).

Definition nonEmpty (s : list Z) : bool := negb (bool_decide (s = [])).

(** [const [pathPart, queryPart] = uri.split('?')]: [queryPart] is
    [None] when the split has a single piece. *)
Definition pathPart (uri : list Z) : list Z := hd [] (split uri 0x3F).
Definition queryPart (uri : list Z) : option (list Z) :=
  nth_error (split uri 0x3F) 1.

Definition segments (uri : list Z) : list (list Z) :=
  List.filter nonEmpty (split (pathPart uri) 0x2F).

Definition queries (uri : list Z) : list (list Z) :=
  match queryPart uri with
  | Some q => if nonEmpty q then List.filter nonEmpty (split q 0x26) else []
  | None => []
  end.

Definition contentFormat (st : list Z * Z) : list Z * Z :=
  let delta := 12 - snd st in
  (fst st ++ [bor (shl delta 4) 1; 60], 12).

Definition encodeOptions (uri : list Z) : list Z :=
  let st := fold_left pathStep (segments uri) ([], 0) in
  let st := contentFormat st in
  let st := fold_left queryStep (queries uri) st in
  fst st.

(** An entry of [pendingRequests]: its [resolve]/[reject] pair settles
    the promise created for the same message id; [meta] is kept. *)
Record pending := {
  meta_method : Z;
  meta_uri : list Z;
  meta_payload : jsval
}.

Record client := {
  messageId : Z;
  token : Z;
  pendingRequests : gmap Z pending
}.

(** [constructor] *)
Definition new_client : client :=
  {| messageId := 1; token := 1; pendingRequests := ∅ |}.

(** An [Error] object with the fields the client sets. *)
Record error := {
  message : string;
  code : option Z;
  payload : option jsval
}.

(** What a step of the client does to the world, in program order. *)
Inductive effect :=
| Registered (mid : Z)                 (* [pendingRequests.set(mid, ...)] *)
| TimerArmed (mid : Z) (ms : Z)        (* [setTimeout(..., 10000)] *)
| Sent (frame : list Z)                (* [connection.sendBytes(frame)] called *)
| Resolved (mid : Z) (value : jsval)   (* [pending.resolve(...)] *)
| Rejected (mid : Z) (e : error).      (* [pending.reject(...)] / [reject(...)] *)

Record response := {
  r_version : Z;
  r_type : Z;
  r_code : Z;
  r_messageId : Z;
  r_token : Z;
  r_payload : jsval
}.

Section Cbor.
(** js/cbor.js is not part of the sources at hand: its two exports
    are parameters.  [cborDecode] is [None] when decoding throws. *)
Variable cborEncode : jsval -> list Z.
Variable cborDecode : list Z -> option jsval.

Definition buildMessage (method : Z) (uri : list Z) (payload : jsval)
    (messageId : Z) : list Z :=
  let ver := 1 in
  let type := 0 in
  let tkl := 0 in
  let header :=
    [bor (bor (shl ver 6) (shl type 4)) tkl; method;
     band (sar messageId 8) 0xFF; band messageId 0xFF] in
  let header := header ++ encodeOptions uri in
  let header :=
    if truthy payload then header ++ [0xFF] ++ cborEncode payload else header in
  map to_uint8 header.

(** [for (i < tokenLength) token = (token << 8) | data[offset++]] *)
Fixpoint readToken (n : nat) (data : list Z) (offset token : Z) : Z :=
  match n with
  | O => token
  | S n' => readToken n' data (offset + 1)
              (bor (shl token 8) (default 0 (get data offset)))
  end.

Definition parseResponse (data : list Z) : result response :=
  if len data <? 4 then Throw "Invalid CoAP message"
  else
    let b0 := default 0 (get data 0) in
    let version := band (sar b0 6) 0x03 in
    let type := band (sar b0 4) 0x03 in
    let tokenLength := band b0 0x0F in
    let code := default 0 (get data 1) in
    let messageId := bor (shl (default 0 (get data 2)) 8) (default 0 (get data 3)) in
    let token := readToken (Z.to_nat tokenLength) data 4 0 in
    let offset := 4 + tokenLength in
    let found := indexOf data 0xFF offset in
    let payloadStart := if found =? -1 then len data else found + 1 in
    let payload :=
      if payloadStart <? len data then
        let payloadData := slice_from data payloadStart in
        match cborDecode payloadData with
        | Some v => v
        | None => JBytes payloadData
        end
      else JNull in
    Ok {| r_version := version; r_type := type; r_code := code;
          r_messageId := messageId; r_token := token; r_payload := payload |}.

(** [request]: the state after the call, the effects in program
    order, and what the caller's [await] observes: the promise of the
    allocated message id, or the error thrown by the transport. *)
Definition request (conn : connection) (c : client)
    (method : Z) (uri : list Z) (payload : jsval)
    : client * list effect * result Z :=
  let mid := messageId c in
  let c := {| messageId := messageId c + 1; token := token c;
              pendingRequests := pendingRequests c |} in
  let message := buildMessage method uri payload mid in
  let frame := createCoapFrame message in
  let c := {| messageId := messageId c; token := token c;
              pendingRequests :=
                <[mid := {| meta_method := method; meta_uri := uri;
                            meta_payload := payload |}]> (pendingRequests c) |} in
  let effects := [Registered mid; TimerArmed mid 10000; Sent frame] in
  match sendBytes conn frame with
  | Throw e => (c, effects, Throw e)
  | Ok _ => (c, effects, Ok mid)
  end.

(** The [setTimeout] callback armed by [request]. *)
Definition timeout (c : client) (mid : Z) : client * list effect :=
  match pendingRequests c !! mid with
  | Some _ =>
      ({| messageId := messageId c; token := token c;
          pendingRequests := delete mid (pendingRequests c) |},
       [Rejected mid {| message := "Request timeout"; code := None;
                        payload := None |}])
  | None => (c, [])
  end.

(** [handleResponse]; the [window.__logRaw] and [window.__pushHistory]
    hooks are debugging aids of the pages and are taken as absent.  A
    throw of [parseResponse] is caught and only logged. *)
Definition handleResponse (c : client) (data : list Z)
    : client * list effect :=
  match parseResponse data with
  | Throw _ => (c, [])
  | Ok response =>
      match pendingRequests c !! r_messageId response with
      | None => (c, [])
      | Some pending =>
          let c := {| messageId := messageId c; token := token c;
                      pendingRequests :=
                        delete (r_messageId response) (pendingRequests c) |} in
          let responseClass := r_code response / 32 in
          if responseClass =? 2 then
            (c, [Resolved (r_messageId response) (r_payload response)])
          else
            let text :=
              match codes_get RESPONSE_CODES (r_code response) with
              | Some reason => reason
              | None => ("Error " ++ pretty (r_code response))%string
              end in
            (c, [Rejected (r_messageId response)
                   {| message := text; code := Some (r_code response);
                      payload := Some (r_payload response) |}])
      end
  end.

End Cbor.

End CoAP.

(** ** Event bus of the controller (js/lan966x-controller.js) *)

Module Controller.

(** Function objects, compared by identity as [indexOf] does.  [User id]
    is a callback of the caller; [Wrapper wid event callback] is the
    closure allocated by the [wid]-th call of [once]. *)
Inductive fn :=
| User (id : nat)
| Wrapper (wid : nat) (event : string) (callback : nat).

#[global] Instance fn_eq_dec : EqDecision fn.
Proof. solve_decision. Defined.

Record controller := {
  callbacks : gmap string (list fn);
  closures : nat                   (* closures allocated by [once] so far *)
}.

Definition new_controller : controller :=
  {| callbacks := ∅; closures := 0 |}.

(** [callbacks.indexOf(callback)] followed by [splice(index, 1)] *)
Fixpoint spliceFirst (f : fn) (l : list fn) : list fn :=
  match l with
  | [] => []
  | g :: r => if decide (g = f) then r else g :: spliceFirst f r
  end.

Definition on (c : controller) (event : string) (callback : fn) : controller :=
  {| callbacks := <[event := default [] (callbacks c !! event) ++ [callback]]> (callbacks c);
     closures := closures c |}.

Definition off (c : controller) (event : string) (callback : fn) : controller :=
  match callbacks c !! event with
  | Some cbs =>
      {| callbacks := <[event := spliceFirst callback cbs]> (callbacks c);
         closures := closures c |}
  | None => c
  end.

Definition once (c : controller) (event : string) (callback : nat) : controller :=
  let wrapper := Wrapper (closures c) event callback in
  on {| callbacks := callbacks c; closures := S (closures c) |} event wrapper.

Section Callbacks.
(** Callbacks of the caller are opaque: [throws id] tells whether
    callback [id] raises when it is invoked. *)
Variable throws : nat -> bool.

(** Calling a function object: the state after the call and whether
    it threw.  A wrapper runs [callback(...args)] and then
    [this.off(event, wrapper)]; a throw of the callback leaves the
    wrapper before [off]. *)
Definition call (c : controller) (f : fn) : controller * bool :=
  match f with
  | User id => (c, throws id)
  | Wrapper _ event callback =>
      if throws callback then (c, true) else (off c event f, false)
  end.

(** [callbacks.forEach(cb => cb(...args))]: indices [k .. k + n - 1]
    of the live array, skipping an index the array no longer has;
    [log] lists the function objects called. *)
Fixpoint forEach (n k : nat) (c : controller) (event : string) (log : list fn)
  : controller * list fn * bool :=
  match n with
  | O => (c, log, false)
  | S n' =>
      match default [] (callbacks c !! event) !! k with
      | None => forEach n' (S k) c event log
      | Some f =>
          let '(c', threw) := call c f in
          if threw then (c', log ++ [f], true)
          else forEach n' (S k) c' event (log ++ [f])
      end
  end.

(** [emit]: the state afterwards, the function objects called in
    order, and whether an exception left [emit]. *)
Definition emit (c : controller) (event : string)
  : controller * list fn * bool :=
  match callbacks c !! event with
  | Some cbs => forEach (length cbs) 0 c event []
  | None => (c, [], false)
  end.

End Callbacks.

End Controller.

Import JS MUP1 WebSerial CoAP Controller.

(** * Notions used in the statements *)

(** Bytes, the characters of a checksum, and the two parts of a frame
    that precede its checksum. *)

Definition isHexChar (c : Z) : bool :=
  ((48 <=? c) && (c <=? 57)) || ((65 <=? c) && (c <=? 70)).

Definition hex4 (n : Z) : list Z :=
  [hexDigit (n / 4096); hexDigit (n / 256 mod 16);
   hexDigit (n / 16 mod 16); hexDigit (n mod 16)].

Definition isByte (b : Z) : Prop := 0 <= b < 256.

Definition framed (type : Z) (data : list Z) : list Z :=
  [SOF; type] ++ escapeData data ++ [EOF].

Definition padding (frame : list Z) : list Z :=
  if len frame mod 2 =? 0 then [EOF] else [].

(** The option format as the specification words it (4-bit delta and
    length nibbles; 13 and 14 escape to one or two extended bytes holding
    value - 13 or value - 269), used to read options back from built
    bytes: the list of (option number, value), up to the payload marker
    or the end; [None] on malformed bytes. *)
Definition readExtended (nibble : Z) (bytes : list Z) : option (Z * list Z) :=
  if nibble <? 13 then Some (nibble, bytes)
  else if nibble =? 13 then
    match bytes with
    | x :: r => Some (x + 13, r)
    | [] => None
    end
  else if nibble =? 14 then
    match bytes with
    | x :: y :: r => Some (x * 256 + y + 269, r)
    | _ => None
    end
  else None.

Fixpoint readOptions (fuel : nat) (bytes : list Z) (prev : Z)
  : option (list (Z * list Z)) :=
  match fuel with
  | O => None
  | S fuel' =>
      match bytes with
      | [] => Some []
      | b :: rest =>
          if b =? 0xFF then Some []
          else
            match readExtended (b / 16) rest with
            | None => None
            | Some (d, rest1) =>
                match readExtended (b mod 16) rest1 with
                | None => None
                | Some (l, rest2) =>
                    if len rest2 <? l then None
                    else
                      match readOptions fuel' (skipn (Z.to_nat l) rest2) (prev + d) with
                      | None => None
                      | Some more => Some ((prev + d, firstn (Z.to_nat l) rest2) :: more)
                      end
                end
            end
      end
  end.

Definition specOptions (bytes : list Z) : option (list (Z * list Z)) :=
  readOptions (S (length bytes)) bytes 0.





(** The options a message for [uri] is built from: Uri-Path 11 for each
    path segment, Content-Format 12 with the value 60, Uri-Query 15 for
    each query segment. *)
Definition uriOptions (uri : list Z) : list (Z * list Z) :=
  map (fun s => (11, s)) (segments uri) ++
  (12, [60]) :: map (fun q => (15, q)) (queries uri).

(** A connected link whose writes succeed, and one whose writes fail. *)
Definition link_up : connection :=
  {| writable := true; writer_write := fun _ => None; buffer := [] |}.

Definition link_failing (reason : string) : connection :=
  {| writable := true; writer_write := fun _ => Some reason; buffer := [] |}.

(** Stand-ins for js/cbor.js where a concrete run is evaluated. *)
Definition cbor_none_encode (v : jsval) : list Z := [].
Definition cbor_none_decode (bytes : list Z) : option jsval := None.

(** The client after its first request, a GET of [/a] on a working link. *)
Definition after_first_get : client :=
  fst (fst (request cbor_none_encode link_up new_client
              METHODS_GET (codes "/a") JNull)).

(** Runs of the client: calls of [request], responses handed to
    [handleResponse], and timers firing, in any order. *)
Inductive op :=
| OpRequest (method : Z) (uri : list Z) (payload : jsval)
| OpResponse (data : list Z)
| OpTimeout (mid : Z).

Section Runs.
Variable cborEncode : jsval -> list Z.
Variable cborDecode : list Z -> option jsval.
Variable conn : connection.

Definition step (c : client) (o : op) : client :=
  match o with
  | OpRequest method uri payload =>
      fst (fst (request cborEncode conn c method uri payload))
  | OpResponse data => fst (handleResponse cborDecode c data)
  | OpTimeout mid => fst (timeout c mid)
  end.

Definition runFrom (c : client) (ops : list op) : client :=
  fold_left step ops c.

Definition run (ops : list op) : client := runFrom new_client ops.

(** The message ids allocated by the requests of a run, in order. *)
Fixpoint allocated (c : client) (ops : list op) : list Z :=
  match ops with
  | [] => []
  | o :: r =>
      match o with
      | OpRequest _ _ _ => messageId c :: allocated (step c o) r
      | _ => allocated (step c o) r
      end
  end.
End Runs.

Definition isRequest (o : op) : bool :=
  match o with
  | OpRequest _ _ _ => true
  | _ => false
  end.

Definition requestCount (ops : list op) : nat := length (List.filter isRequest ops).

Fixpoint countFrom (start : Z) (n : nat) : list Z :=
  match n with
  | O => []
  | S k => start :: countFrom (start + 1) k
  end.

(** Pending ids lie below the counter; the counter only grows. *)
Definition below_counter (c : client) : Prop :=
  1 <= messageId c /\
  forall mid, is_Some (pendingRequests c !! mid) -> 1 <= mid < messageId c.




(** The subscribers of an event. *)
Definition table (c : controller) (event : string) : list fn :=
  default [] (callbacks c !! event).

Definition fnThrows (throws : nat -> bool) (f : fn) : bool :=
  match f with
  | User id => throws id
  | Wrapper _ _ callback => throws callback
  end.

Definition isWrapper (f : fn) : bool :=
  match f with
  | Wrapper _ _ _ => true
  | User _ => false
  end.


(** The extraction loop of [handleIncomingData] on a buffer, with the fuel
    [handleIncomingData] gives it: what is left and the frames handed on. *)
Definition reassemble (buffer : list Z) : list Z * list (list Z) :=
  extractFrames (S (length buffer)) buffer [].

(** Runs of the client with their effects kept, in order. *)
Definition stepE (cborEncode : jsval -> list Z) (cborDecode : list Z -> option jsval)
    (conn : connection) (st : client * list effect) (o : op) : client * list effect :=
  match o with
  | OpRequest method uri payload =>
      (fst (fst (request cborEncode conn (fst st) method uri payload)),
       snd st ++ snd (fst (request cborEncode conn (fst st) method uri payload)))
  | OpResponse data =>
      (fst (handleResponse cborDecode (fst st) data),
       snd st ++ snd (handleResponse cborDecode (fst st) data))
  | OpTimeout mid =>
      (fst (timeout (fst st) mid), snd st ++ snd (timeout (fst st) mid))
  end.

Definition runE (cborEncode : jsval -> list Z) (cborDecode : list Z -> option jsval)
    (conn : connection) (ops : list op) : client * list effect :=
  fold_left (stepE cborEncode cborDecode conn) ops (new_client, []).

(** Effects that settle the promise of [mid], and the one that registers it. *)
Definition settles (mid : Z) (e : effect) : bool :=
  match e with
  | Resolved m _ => m =? mid
  | Rejected m _ => m =? mid
  | _ => false
  end.

Definition registers (mid : Z) (e : effect) : bool :=
  match e with
  | Registered m => m =? mid
  | _ => false
  end.

Definition countIf {A : Type} (f : A -> bool) (l : list A) : nat :=
  length (List.filter f l).

Definition pendingCount (c : client) (mid : Z) : nat :=
  match pendingRequests c !! mid with
  | Some _ => 1
  | None => 0
  end.

(** In every run: a registered id is either pending or settled once, and
    the registered ids are those from 1 up to the counter. *)
Definition tracker_inv (c : client) (log : list effect) : Prop :=
  1 <= messageId c /\
  forall mid,
    (countIf (settles mid) log + pendingCount c mid)%nat = countIf (registers mid) log /\
    countIf (registers mid) log =
      if (1 <=? mid) && (mid <? messageId c) then 1%nat else 0%nat.

(** The payload [parseResponse] finds in the bytes after the marker. *)
Definition bodyPayload (cborDecode : list Z -> option jsval) (body : list Z) : jsval :=
  match body with
  | [] => JNull
  | _ :: _ =>
      match cborDecode body with
      | Some v => v
      | None => JBytes body
      end
  end.

(** What [handleResponse] settles a pending [mid] with. *)
Definition settlement (mid code : Z) (payload : jsval) : effect :=
  if code / 32 =? 2 then Resolved mid payload
  else Rejected mid
         {| message := match codes_get RESPONSE_CODES code with
                       | Some reason => reason
                       | None => ("Error " ++ pretty code)%string
                       end;
            code := Some code; payload := Some payload |}.

(** The bytes the two loops of [encodeOptions] push, in closed form. *)
Fixpoint pathBytes (prevOption : Z) (segs : list (list Z)) : list Z :=
  match segs with
  | [] => []
  | s :: r => pathOption prevOption s ++ pathBytes 11 r
  end.

Fixpoint queryBytes (prevOption : Z) (qs : list (list Z)) : list Z :=
  match qs with
  | [] => []
  | q :: r => queryOption prevOption q ++ queryBytes 15 r
  end.

(** URIs whose first path segment and whose query segments are shorter
    than 269 code units and whose later path segments are shorter than
    13. *)
Definition sizedForOptions (uri : list Z) : Prop :=
  match segments uri with
  | [] => True
  | s :: r => len s < 269 /\ Forall (fun s' => len s' < 13) r
  end /\
  Forall (fun q => len q < 269) (queries uri).

(** The calls a delivery makes over subscribers that stay in place: up to
    and including the first one that throws. *)
Fixpoint uptoThrow (throws : nat -> bool) (l : list fn) : list fn :=
  match l with
  | [] => []
  | f :: r => if fnThrows throws f then [f] else f :: uptoThrow throws r
  end.

(** ** Frame dispatch ([handleFrame] of js/lan966x-controller.js, called
    by the data callback that [connect] of js/pages.js installs) *)

(** The controller: its event bus and its CoAP client. *)
Record device := {
  bus : controller;
  coap : client
}.

(** What one call of [handleFrame] did.  An exception of [decodeFrame]
    or of a subscriber is caught by its [try] and logged. *)
Inductive handled :=
| FrameError (message : string)
| Emitted (event : string) (called : list fn) (threw : bool)
| CoapHandled (effects : list effect)
| NoCase.

Section Dispatch.
Variable throws : nat -> bool.
Variable cborDecode : list Z -> option jsval.

Definition emitOn (d : device) (event : string) : device * handled :=
  let '(b, called, threw) := emit throws (bus d) event in
  ({| bus := b; coap := coap d |}, Emitted event called threw).

(** [handleFrame]: the [switch] on [decoded.type], a one-character
    string, in the order of its cases. *)
Definition handleFrame (d : device) (frame : list Z) : device * handled :=
  match decodeFrame frame with
  | Throw m => (d, FrameError m)
  | Ok decoded =>
      if type decoded =? 0x50 then emitOn d "pong"
      else if type decoded =? 0x41 then emitOn d "announcement"
      else if type decoded =? 0x43 then
        let '(c, effects) := handleResponse cborDecode (coap d) (data decoded) in
        ({| bus := bus d; coap := c |}, CoapHandled effects)
      else if type decoded =? 0x53 then emitOn d "system-response"
      else if type decoded =? 0x54 then emitOn d "trace"
      else (d, NoCase)
  end.

(** The data callback on one frame, and [handleIncomingData] with that
    callback installed: every frame it cuts goes to [handleFrame], in
    order. *)
Definition deliver (st : device * list handled) (frame : list Z)
  : device * list handled :=
  (fst (handleFrame (fst st) frame),
   snd st ++ [snd (handleFrame (fst st) frame)]).

Definition receive (d : device) (conn : connection) (bytes : list Z)
  : device * connection * list handled :=
  let '(conn', frames) := handleIncomingData conn bytes in
  let '(d', log) := fold_left deliver frames (d, []) in
  (d', conn', log).

End Dispatch.

(** A frame as the reassembler cuts it: the SOF, bytes [M] without a
    0x3C, the 0x3C it stopped at, a second 0x3C or none, and the four
    bytes it takes for the checksum. *)
Definition cutFrame (f M pad cs : list Z) : Prop :=
  f = SOF :: M ++ EOF :: pad ++ cs /\
  Forall (fun y => y <> EOF) M /\
  length cs = 4%nat /\
  ((pad = [] /\ hd 0 cs <> EOF) \/ pad = [EOF]).

(** What [decodeFrame] gives back for a payload byte that [encodeFrame]
    wrote. *)
Definition decodedByte (b : Z) : Z := if b =? 0x00 then 0x30 else b.

(** The event [handleFrame] emits for a frame type, if any. *)
Definition eventOf (t : Z) : option string :=
  if t =? COMMANDS_PING then Some "pong"%string
  else if t =? COMMANDS_ANNOUNCEMENT then Some "announcement"%string
  else if t =? COMMANDS_SYSTEM then Some "system-response"%string
  else if t =? COMMANDS_TRACE then Some "trace"%string
  else None.

(** * Properties *)

(** ** Arithmetic of the 32-bit operators *)

Lemma to_int32_small x : - 2 ^ 31 <= x < 2 ^ 31 -> to_int32 x = x.
Proof.
  intros H. unfold to_int32.
  rewrite Z.mod_small by lia. lia.
Qed.

Lemma to_int32_range x : - 2 ^ 31 <= to_int32 x < 2 ^ 31.
Proof.
  unfold to_int32.
  pose proof (Z.mod_pos_bound (x + 2 ^ 31) (2 ^ 32) ltac:(lia)). lia.
Qed.

Lemma sar_16 x : sar x 16 = to_int32 x / 65536.
Proof. unfold sar. change (16 mod 32) with 16. now rewrite Z.shiftr_div_pow2. Qed.

Lemma band_FFFF x : band x 0xFFFF = to_int32 x mod 65536.
Proof.
  unfold band. rewrite (to_int32_small 0xFFFF) by lia.
  change 0xFFFF with (Z.ones 16). now rewrite Z.land_ones.
Qed.

Lemma band_FF x : band x 0xFF = to_int32 x mod 256.
Proof.
  unfold band. rewrite (to_int32_small 0xFF) by lia.
  change 0xFF with (Z.ones 8). now rewrite Z.land_ones.
Qed.

(** The carry loop of [calculateChecksum] has left through its test after
    at most two rounds, whatever the sum. *)
Lemma foldCarry_exits sum : sar (foldCarry 2 sum) 16 = 0.
Proof.
  cbn [foldCarry].
  destruct (sar sum 16 =? 0) eqn:E1; [now apply Z.eqb_eq|].
  destruct (sar (band sum 0xFFFF + sar sum 16) 16 =? 0) eqn:E2;
    [now apply Z.eqb_eq|].
  apply Z.eqb_neq in E2.
  rewrite !sar_16, !band_FFFF in *.
  pose proof (to_int32_range sum) as R.
  set (t := to_int32 sum) in *.
  assert (Hs : - 32768 <= t mod 65536 + t / 65536 < 98303).
  { pose proof (Z.mod_pos_bound t 65536 ltac:(lia)).
    assert (- 32768 <= t / 65536 < 32768)
      by (split; [apply Z.div_le_lower_bound | apply Z.div_lt_upper_bound]; lia).
    lia. }
  rewrite (to_int32_small (t mod 65536 + t / 65536)) in * by lia.
  set (s := t mod 65536 + t / 65536) in *.
  assert (Hq : s / 65536 = -1 \/ s / 65536 = 0 \/ s / 65536 = 1).
  { assert (- 1 <= s / 65536 < 2)
      by (split; [apply Z.div_le_lower_bound | apply Z.div_lt_upper_bound]; lia).
    lia. }
  pose proof (Z.div_mod s 65536 ltac:(lia)) as Hdm.
  pose proof (Z.mod_pos_bound s 65536 ltac:(lia)) as Hm.
  rewrite to_int32_small by lia.
  apply Z.div_small. lia.
Qed.

Lemma calculateChecksum_range data : 0 <= calculateChecksum data < 65536.
Proof.
  unfold calculateChecksum. rewrite band_FFFF.
  apply Z.mod_pos_bound. lia.
Qed.

Lemma lor_low (h l k : Z) :
  0 <= k -> 0 <= l < 2 ^ k -> Z.lor (h * 2 ^ k) l = h * 2 ^ k + l.
Proof.
  intros Hk Hl.
  assert (Hland : Z.land (h * 2 ^ k) l = 0).
  { apply Z.bits_inj'. intros n Hn.
    rewrite Z.land_spec, Z.bits_0, <- Z.shiftl_mul_pow2 by lia.
    destruct (Z_lt_dec n k) as [Hlt|Hge].
    - now rewrite Z.shiftl_spec_low.
    - rewrite <- (Z.mod_small l (2 ^ k)) by lia.
      rewrite Z.mod_pow2_bits_high by lia. apply andb_false_r. }
  now rewrite <- Z.lxor_lor, <- Z.add_nocarry_lxor.
Qed.

Lemma bor_shl (h l k : Z) :
  0 <= k < 24 -> 0 <= h < 256 -> 0 <= l < 2 ^ k ->
  bor (shl h k) l = h * 2 ^ k + l.
Proof.
  intros Hk Hh Hl. unfold bor, shl.
  rewrite (Z.mod_small k 32) by lia.
  rewrite (to_int32_small h) by lia.
  rewrite Z.shiftl_mul_pow2 by lia.
  assert (Hp : 0 < 2 ^ k <= 2 ^ 23)
    by (split; [apply Z.pow_pos_nonneg; lia | apply Z.pow_le_mono_r; lia]).
  assert (0 <= h * 2 ^ k < 2 ^ 31) by nia.
  rewrite !(to_int32_small (h * 2 ^ k)) by lia.
  rewrite (to_int32_small l) by lia.
  apply lor_low; lia.
Qed.

(** ** The four checksum characters *)

Lemma hexDigits_last fuel n acc :
  0 <= n < 16 -> hexDigits fuel n acc = hexDigit (n mod 16) :: acc.
Proof.
  intros H. destruct fuel; cbn [hexDigits]; [reflexivity|].
  now rewrite (Z.div_small n 16) by lia.
Qed.

Lemma hexDigits_more fuel n acc :
  16 <= n ->
  hexDigits (S fuel) n acc = hexDigits fuel (n / 16) (hexDigit (n mod 16) :: acc).
Proof.
  intros H. cbn [hexDigits].
  assert (1 <= n / 16) by (apply Z.div_le_lower_bound; lia).
  destruct (n / 16 =? 0) eqn:E; [apply Z.eqb_eq in E; lia | reflexivity].
Qed.

Lemma hexDigit_0 : hexDigit 0 = 48.
Proof. reflexivity. Qed.

Lemma checksumStr_hex4 n : 0 <= n < 65536 -> checksumStr n = hex4 n.
Proof.
  intros H. unfold checksumStr, toUpperHex, hex4.
  assert (D2 : n / 16 / 16 = n / 256) by (rewrite Z.div_div by lia; reflexivity).
  assert (D3 : n / 256 / 16 = n / 4096) by (rewrite Z.div_div by lia; reflexivity).
  destruct (Z_lt_dec n 16) as [L1|L1].
  { rewrite hexDigits_last by lia.
    rewrite (Z.div_small n 4096), (Z.div_small n 256), (Z.div_small n 16) by lia.
    reflexivity. }
  assert (4 <= Z.log2 n)
    by (change 4 with (Z.log2 16); apply Z.log2_le_mono; lia).
  destruct (Z.to_nat (Z.log2 n)) as [|[|[|[|f]]]] eqn:E; try lia.
  rewrite hexDigits_more by lia.
  assert (n / 16 < 4096) by (apply Z.div_lt_upper_bound; lia).
  assert (n / 256 < 256) by (apply Z.div_lt_upper_bound; lia).
  assert (0 <= n / 4096 < 16)
    by (split; [apply Z.div_pos | apply Z.div_lt_upper_bound]; lia).
  destruct (Z_lt_dec n 256) as [L2|L2].
  { assert (0 <= n / 16 < 16)
      by (split; [apply Z.div_pos | apply Z.div_lt_upper_bound]; lia).
    rewrite hexDigits_last by lia.
    rewrite (Z.div_small n 4096), (Z.div_small n 256) by lia.
    reflexivity. }
  assert (16 <= n / 16) by (apply Z.div_le_lower_bound; lia).
  rewrite hexDigits_more, D2 by lia.
  destruct (Z_lt_dec n 4096) as [L3|L3].
  { assert (0 <= n / 256 < 16)
      by (split; [apply Z.div_pos | apply Z.div_lt_upper_bound]; lia).
    rewrite hexDigits_last by lia.
    rewrite (Z.div_small n 4096) by lia.
    reflexivity. }
  assert (16 <= n / 256) by (apply Z.div_le_lower_bound; lia).
  rewrite hexDigits_more, D3 by lia.
  rewrite hexDigits_last by lia.
  rewrite (Z.mod_small (n / 4096) 16) by lia.
  reflexivity.
Qed.

Lemma hexDigit_hex d : 0 <= d < 16 -> isHexChar (hexDigit d) = true.
Proof.
  intros H. unfold isHexChar, hexDigit.
  destruct (d <? 10) eqn:E; [apply Z.ltb_lt in E | apply Z.ltb_ge in E];
    apply orb_true_iff; [left | right]; apply andb_true_iff; split;
    apply Z.leb_le; lia.
Qed.

Lemma checksumStr_chars n :
  0 <= n < 65536 ->
  exists a b c d, checksumStr n = [a; b; c; d] /\
    isHexChar a = true /\ isHexChar b = true /\
    isHexChar c = true /\ isHexChar d = true.
Proof.
  intros H. rewrite checksumStr_hex4 by assumption.
  exists (hexDigit (n / 4096)), (hexDigit (n / 256 mod 16)),
         (hexDigit (n / 16 mod 16)), (hexDigit (n mod 16)).
  split; [reflexivity|].
  repeat split; apply hexDigit_hex;
    try (apply Z.mod_pos_bound; lia).
  split; [apply Z.div_pos | apply Z.div_lt_upper_bound]; lia.
Qed.

(** ** Arrays: indices, [indexOf], [slice] *)

Lemma len_app (a b : list Z) : len (a ++ b) = len a + len b.
Proof. unfold len. rewrite length_app. lia. Qed.

Lemma len_cons (x : Z) (a : list Z) : len (x :: a) = 1 + len a.
Proof. unfold len. cbn [length]. lia. Qed.

Lemma len_nonneg (a : list Z) : 0 <= len a.
Proof. unfold len. lia. Qed.

Lemma get_middle (l1 l2 : list Z) (x : Z) :
  get (l1 ++ x :: l2) (len l1) = Some x.
Proof.
  unfold get, len.
  destruct (Z.of_nat (length l1) <? 0) eqn:E; [apply Z.ltb_lt in E; lia|].
  rewrite Nat2Z.id, nth_error_app2 by lia.
  now rewrite Nat.sub_diag.
Qed.

Lemma indexOf_from_first (x : Z) (l1 l2 : list Z) (i : Z) :
  Forall (fun y => y <> x) l1 ->
  indexOf_from x (l1 ++ x :: l2) i = i + len l1.
Proof.
  intros H. revert i. induction H as [|y l1 Hy _ IH]; intros i; cbn.
  - rewrite Z.eqb_refl. unfold len. cbn. lia.
  - destruct (y =? x) eqn:E; [apply Z.eqb_eq in E; contradiction|].
    rewrite IH, len_cons. lia.
Qed.

Lemma indexOf_first (pre mid post : list Z) (x : Z) :
  Forall (fun y => y <> x) mid ->
  indexOf (pre ++ mid ++ x :: post) x (len pre) = len pre + len mid.
Proof.
  intros H. unfold indexOf, len.
  rewrite Nat2Z.id, skipn_app, skipn_all, Nat.sub_diag.
  change (drop 0 (mid ++ x :: post)) with (mid ++ x :: post). cbn [app].
  rewrite indexOf_from_first by assumption.
  unfold len. lia.
Qed.

Lemma slice_middle (pre mid post : list Z) :
  slice (pre ++ mid ++ post) (len pre) (len pre + len mid) = mid.
Proof.
  unfold slice, rel_index.
  rewrite !len_app.
  pose proof (len_nonneg pre). pose proof (len_nonneg mid).
  pose proof (len_nonneg post).
  destruct (len pre <? 0) eqn:E1; [apply Z.ltb_lt in E1; lia|].
  destruct (len pre + len mid <? 0) eqn:E2; [apply Z.ltb_lt in E2; lia|].
  rewrite !Z.min_l by lia.
  replace (len pre + len mid - len pre) with (len mid) by lia.
  unfold len. rewrite !Nat2Z.id.
  rewrite skipn_app, skipn_all, Nat.sub_diag.
  change (drop 0 (mid ++ post)) with (mid ++ post). cbn [app].
  rewrite firstn_app, firstn_all, Nat.sub_diag.
  change (take 0 post) with (@nil Z).
  apply app_nil_r.
Qed.

Lemma slice_prefix (l post : list Z) : slice (l ++ post) 0 (len l) = l.
Proof. apply (slice_middle [] l post). Qed.

(** ** Byte-level shape of an encoded frame *)

Lemma map_to_uint8_bytes (l : list Z) : Forall isByte l -> map to_uint8 l = l.
Proof.
  induction 1 as [|b l Hb _ IH]; cbn; [reflexivity|].
  unfold to_uint8 at 1. rewrite Z.mod_small by exact Hb. now rewrite IH.
Qed.

Lemma isHexChar_byte c : isHexChar c = true -> isByte c /\ c <> EOF.
Proof.
  unfold isHexChar, isByte, EOF. intros H.
  apply orb_true_iff in H as [H|H]; apply andb_true_iff in H as [H1 H2];
    apply Z.leb_le in H1, H2; lia.
Qed.

Lemma escapeByte_cases b :
  escapeByte b = [b] /\ needsEscape b = false \/
  (exists e, escapeByte b = [ESCAPE; e] /\ needsEscape b = true /\
             table_get ESCAPE_MAP b = Some e).
Proof.
  unfold escapeByte, needsEscape.
  destruct (b =? 0x00) eqn:E0; [apply Z.eqb_eq in E0; subst; right; eexists; now cbn|].
  destruct (b =? 0xFF) eqn:E1; [apply Z.eqb_eq in E1; subst; right; eexists; now cbn|].
  destruct (b =? 0x3E) eqn:E2; [apply Z.eqb_eq in E2; subst; right; eexists; now cbn|].
  destruct (b =? 0x3C) eqn:E3; [apply Z.eqb_eq in E3; subst; right; eexists; now cbn|].
  destruct (b =? 0x5C) eqn:E4; [apply Z.eqb_eq in E4; subst; right; eexists; now cbn|].
  left. now cbn.
Qed.

Lemma needsEscape_false b :
  needsEscape b = false ->
  b <> 0x00 /\ b <> 0xFF /\ b <> 0x3E /\ b <> 0x3C /\ b <> 0x5C.
Proof.
  unfold needsEscape. intros H.
  repeat (apply orb_false_iff in H as [H ?]).
  repeat split; apply Z.eqb_neq; assumption.
Qed.

Lemma escapeByte_bytes b : isByte b -> Forall isByte (escapeByte b).
Proof.
  intros Hb. unfold escapeByte.
  destruct (needsEscape b) eqn:E; [|constructor; [exact Hb | constructor]].
  unfold needsEscape in E.
  repeat (apply orb_true_iff in E as [E|E]); apply Z.eqb_eq in E; subst;
    cbn; (constructor; [|constructor; [|constructor]]);
    unfold isByte, ESCAPE; lia.
Qed.

Lemma escapeData_bytes data : Forall isByte data -> Forall isByte (escapeData data).
Proof.
  induction 1 as [|b l Hb _ IH]; cbn; [constructor|].
  apply Forall_app. split; [now apply escapeByte_bytes | exact IH].
Qed.

Lemma checksumStr_bytes n : 0 <= n < 65536 -> Forall isByte (checksumStr n).
Proof.
  intros H. destruct (checksumStr_chars n H) as (a & b & c & d & -> & Ha & Hb & Hc & Hd).
  apply isHexChar_byte in Ha, Hb, Hc, Hd.
  constructor; [tauto|]. constructor; [tauto|].
  constructor; [tauto|]. constructor; [tauto|]. constructor.
Qed.

Lemma encodeFrame_shape type data :
  isByte type -> Forall isByte data ->
  encodeFrame type data =
    (framed type data ++ padding (framed type data)) ++
    checksumStr (calculateChecksum (framed type data ++ padding (framed type data))).
Proof.
  intros Ht Hd. unfold encodeFrame. fold (framed type data).
  assert (HF : Forall isByte (framed type data)).
  { unfold framed. cbn [app].
    constructor; [unfold isByte, SOF; lia|].
    constructor; [exact Ht|].
    apply Forall_app. split; [now apply escapeData_bytes|].
    constructor; [unfold isByte, EOF; lia | constructor]. }
  assert (HP : Forall isByte (padding (framed type data))).
  { unfold padding. destruct (_ =? 0); [|constructor].
    constructor; [unfold isByte, EOF; lia | constructor]. }
  replace (if len (framed type data) mod 2 =? 0
           then framed type data ++ [EOF] else framed type data)
    with (framed type data ++ padding (framed type data))
    by (unfold padding; destruct (_ =? 0); [reflexivity | apply app_nil_r]).
  apply map_to_uint8_bytes, Forall_app. split.
  - apply Forall_app. now split.
  - apply checksumStr_bytes, calculateChecksum_range.
Qed.

Lemma len_framed type data : len (framed type data) = 3 + len (escapeData data).
Proof. unfold framed, len. cbn [app length]. rewrite length_app. cbn [length]. lia. Qed.

(** ** C2: the ping frame *)

(** C2.  Encoding a ping (type 0x50, empty payload) gives the seven bytes
    3E 50 3C 38 35 41 46: after the first EOF the frame has length 3,
    which is odd, and [encodeFrame] adds the second EOF only on an even
    length; the checksum is that of 3E 50 3C, 0x85AF.  The eight bytes
    3E 50 3C 3C 38 35 37 33 are not produced, and [decodeFrame] refuses
    the encoder's own ping as too short. *)
Theorem ping_frame_single_eof :
  encodeFrame COMMANDS_PING [] = [0x3E; 0x50; 0x3C; 0x38; 0x35; 0x41; 0x46] /\
  encodeFrame COMMANDS_PING [] <> [0x3E; 0x50; 0x3C; 0x3C; 0x38; 0x35; 0x37; 0x33] /\
  calculateChecksum [0x3E; 0x50; 0x3C; 0x3C] = 0x8573 /\
  decodeFrame (encodeFrame COMMANDS_PING []) = Throw "Frame too short".
Proof.
  assert (E : encodeFrame COMMANDS_PING [] = [0x3E; 0x50; 0x3C; 0x38; 0x35; 0x41; 0x46])
    by (vm_compute; reflexivity).
  split; [exact E|].
  split; [rewrite E; discriminate|].
  split; [vm_compute; reflexivity|].
  rewrite E. vm_compute. reflexivity.
Qed.

(** ** C1: decoding an encoded frame *)

(** C1.  [decodeFrame (encodeFrame 0x43 p)] is not always [('C', p, ok)]:
    a zero byte comes back as 0x30 because [unescapeByte] falls through
    its [||] on the table entry 0; a payload byte 0x3C ends the decode
    loop, which tests for EOF before it looks at the escape state; a
    payload of odd escaped length gets a second EOF that the decoder
    leaves out of the checksummed slice, so a mismatch is reported; and
    the empty payload encodes to seven bytes, which the decoder refuses. *)
Theorem decode_encode_failures :
  unescapeByte (default 0 (table_get ESCAPE_MAP 0x00)) = 0x30 /\
  (exists d, decodeFrame (encodeFrame COMMANDS_COAP [0x00; 0x00]) = Ok d /\
             type d = 0x43 /\ data d = [0x30; 0x30] /\ checksum_ok d = true) /\
  (exists d, decodeFrame (encodeFrame COMMANDS_COAP [0x3C; 0x41]) = Ok d /\
             data d = []) /\
  (exists d, decodeFrame (encodeFrame COMMANDS_COAP [0x41]) = Ok d /\
             data d = [0x41] /\ checksum_ok d = false) /\
  decodeFrame (encodeFrame COMMANDS_COAP []) = Throw "Frame too short".
Proof.
  split; [reflexivity|].
  split; [eexists; split; [vm_compute; reflexivity | now cbn]|].
  split; [eexists; split; [vm_compute; reflexivity | reflexivity]|].
  split; [eexists; split; [vm_compute; reflexivity | now cbn]|].
  vm_compute. reflexivity.
Qed.

(** *** Where the round trip does hold *)

Lemma get_app_r (l1 l2 : list Z) (k : Z) :
  0 <= k -> get (l1 ++ l2) (len l1 + k) = get l2 k.
Proof.
  intros H. unfold get, len.
  destruct (Z.of_nat (length l1) + k <? 0) eqn:E1; [apply Z.ltb_lt in E1; lia|].
  destruct (k <? 0) eqn:E2; [apply Z.ltb_lt in E2; lia|].
  rewrite nth_error_app2 by lia. f_equal. lia.
Qed.

Lemma escapeData_no_EOF data :
  Forall (fun b => b <> EOF) data -> Forall (fun y => y <> EOF) (escapeData data).
Proof.
  induction 1 as [|b l Hb _ IH]; cbn; [constructor|].
  apply Forall_app. split; [|exact IH].
  destruct (escapeByte_cases b) as [[-> _]|(e & -> & Hn & He)].
  - constructor; [exact Hb | constructor].
  - unfold needsEscape in Hn.
    repeat (apply orb_true_iff in Hn as [Hn|Hn]); apply Z.eqb_eq in Hn; subst;
      cbn in He; injection He as <-;
      try (exfalso; apply Hb; reflexivity);
      (constructor; [unfold ESCAPE, EOF; lia|]);
      (constructor; [unfold EOF; lia | constructor]).
Qed.

Lemma decodeLoop_escapeByte b rest acc :
  b <> 0x00 -> b <> EOF ->
  decodeLoop (escapeByte b ++ rest) false acc = decodeLoop rest false (acc ++ [b]).
Proof.
  intros H0 HE.
  destruct (escapeByte_cases b) as [[-> Hn]|(e & -> & Hn & He)].
  - apply needsEscape_false in Hn as (_ & _ & _ & _ & H5).
    cbn [app decodeLoop].
    destruct (b =? EOF) eqn:E1; [apply Z.eqb_eq in E1; contradiction|].
    destruct (b =? ESCAPE) eqn:E2; [apply Z.eqb_eq in E2; contradiction|].
    reflexivity.
  - unfold needsEscape in Hn.
    repeat (apply orb_true_iff in Hn as [Hn|Hn]); apply Z.eqb_eq in Hn; subst;
      cbn in He; injection He as <-;
      try (exfalso; apply H0; reflexivity);
      try (exfalso; apply HE; reflexivity);
      reflexivity.
Qed.

Lemma decodeLoop_escapeData p : forall rest acc,
  Forall (fun b => b <> 0x00 /\ b <> EOF) p ->
  decodeLoop (escapeData p ++ rest) false acc = decodeLoop rest false (acc ++ p).
Proof.
  induction p as [|b p IH]; intros rest acc H; cbn [escapeData flat_map app].
  - now rewrite app_nil_r.
  - inversion H as [|? ? [H0 HE] Hp]; subst.
    rewrite <- app_assoc, decodeLoop_escapeByte by assumption.
    fold (escapeData p). rewrite IH by assumption.
    now rewrite <- app_assoc.
Qed.

(** For a payload without the bytes 0x00 and 0x3C, whose escaped form
    has an even, non-zero length, decoding the encoded frame gives the type
    and the payload back and reports no checksum mismatch. *)
Lemma decode_encode_restricted (t : Z) (p : list Z) :
  isByte t -> Forall isByte p ->
  Forall (fun b => b <> 0x00 /\ b <> EOF) p ->
  p <> [] -> len (escapeData p) mod 2 = 0 ->
  exists d, decodeFrame (encodeFrame t p) = Ok d /\
            type d = t /\ data d = p /\ checksum_ok d = true.
Proof.
  intros Ht Hp Hok Hne Heven.
  rewrite encodeFrame_shape by assumption.
  assert (HP : padding (framed t p) = []).
  { unfold padding. rewrite len_framed.
    replace ((3 + len (escapeData p)) mod 2) with 1; [reflexivity|].
    rewrite Z.add_mod, Heven by lia. reflexivity. }
  rewrite HP, app_nil_r.
  pose proof (calculateChecksum_range (framed t p)) as HR.
  destruct (checksumStr_chars _ HR) as (a & b & c & d & Hcs & Ha & Hb & Hc & Hd).
  apply isHexChar_byte in Ha, Hb, Hc, Hd.
  set (E := escapeData p) in *.
  assert (HL : 1 <= len E).
  { destruct p as [|x p]; [contradiction|]. subst E. cbn [escapeData flat_map].
    rewrite len_app. pose proof (len_nonneg (flat_map escapeByte p)).
    destruct (escapeByte_cases x) as [[-> _]|(e & -> & _)]; unfold len; cbn [length]; lia. }
  assert (HnoEOF : Forall (fun y => y <> EOF) E).
  { apply escapeData_no_EOF.
    eapply Forall_impl; [exact Hok | intros x [_ Hx]; exact Hx]. }
  pose proof (len_framed t p) as HlF. fold E in HlF.
  set (F := framed t p) in *.
  set (buf := F ++ checksumStr (calculateChecksum F)).
  assert (Hlen : len buf = len E + 7).
  { subst buf. rewrite len_app, HlF, Hcs. unfold len at 2. cbn [length]. lia. }
  assert (Hbuf : buf = [SOF; t] ++ (E ++ [EOF]) ++ [a; b; c; d]).
  { subst buf. rewrite Hcs. subst F. unfold framed. fold E.
    now rewrite <- !app_assoc. }
  assert (Hend : indexOf buf EOF 2 = 2 + len E).
  { rewrite Hbuf, <- app_assoc.
    apply (indexOf_first [SOF; t] E ([a; b; c; d]) EOF HnoEOF). }
  assert (Hget : forall k x, nth_error [a; b; c; d] (Z.to_nat k) = Some x -> 0 <= k ->
                   get buf (3 + len E + k) = Some x).
  { intros k x Hk Hk0. subst buf. rewrite <- HlF, get_app_r, Hcs by lia.
    unfold get. destruct (k <? 0) eqn:Ek; [apply Z.ltb_lt in Ek; lia | exact Hk]. }
  unfold decodeFrame. fold buf. rewrite Hlen.
  destruct (len E + 7 <? 8) eqn:E8; [apply Z.ltb_lt in E8; lia|].
  assert (G0 : get_is buf 0 SOF = true) by (rewrite Hbuf; reflexivity).
  rewrite G0. cbn [negb].
  rewrite Hend.
  assert (G1 : get_is buf (2 + len E + 1) EOF = false).
  { unfold get_is. replace (2 + len E + 1) with (3 + len E + 0) by lia.
    rewrite (Hget 0 a eq_refl) by lia.
    apply Z.eqb_neq. tauto. }
  rewrite G1.
  eexists. split; [reflexivity|].
  cbn [type data checksum_ok warned].
  split; [|split].
  - rewrite Hbuf. unfold get_char. cbn. apply Z.mod_small. unfold isByte in Ht. lia.
  - replace (len E + 7 - 4) with (len [SOF; t] + len (E ++ [EOF]))
      by (rewrite len_app; unfold len; cbn [length]; lia).
    rewrite Hbuf, slice_middle.
    subst E. rewrite decodeLoop_escapeData by assumption.
    reflexivity.
  - apply negb_true_iff, negb_false_iff, bool_decide_eq_true.
    replace (2 + len E + 1) with (len F) by lia.
    assert (Hs : slice buf 0 (len F) = F) by (unfold buf; apply slice_prefix).
    rewrite Hs, Hcs.
    unfold get_char.
    replace (len F) with (3 + len E + 0) by lia.
    replace (3 + len E + 0 + 1) with (3 + len E + 1) by lia.
    replace (3 + len E + 0 + 2) with (3 + len E + 2) by lia.
    replace (3 + len E + 0 + 3) with (3 + len E + 3) by lia.
    rewrite (Hget 0 a eq_refl), (Hget 1 b eq_refl),
            (Hget 2 c eq_refl), (Hget 3 d eq_refl) by lia.
    unfold isByte in *.
    rewrite !Z.mod_small by lia. reflexivity.
Qed.

(** ** The reassembler *)

Lemma indexOf_from_range (x : Z) (l : list Z) (i : Z) :
  indexOf_from x l i = -1 \/ i <= indexOf_from x l i < i + len l.
Proof.
  revert i. induction l as [|y l IH]; intros i; cbn; [now left|].
  rewrite len_cons. pose proof (len_nonneg l).
  destruct (y =? x); [right; lia|].
  destruct (IH (i + 1)) as [->|H']; [now left | right; lia].
Qed.

Lemma indexOf_range (l : list Z) (x from : Z) :
  0 <= from ->
  indexOf l x from = -1 \/ from <= indexOf l x from < len l.
Proof.
  intros H. unfold indexOf. rewrite Z.max_l by lia.
  destruct (indexOf_from_range x (skipn (Z.to_nat from) l) from) as [->|H'];
    [now left | right].
  unfold len in *. rewrite length_skipn in H'. lia.
Qed.

Lemma len_slice (l : list Z) (a b : Z) :
  0 <= a <= b -> b <= len l -> len (slice l a b) = b - a.
Proof.
  intros H1 H2. unfold slice, rel_index.
  destruct (a <? 0) eqn:E1; [apply Z.ltb_lt in E1; lia|].
  destruct (b <? 0) eqn:E2; [apply Z.ltb_lt in E2; lia|].
  rewrite (Z.min_l a), (Z.min_l b) by lia.
  unfold len in *. rewrite length_firstn, length_skipn. lia.
Qed.

Lemma length_slice_from (l : list Z) (a : Z) :
  0 <= a <= len l -> len (slice_from l a) = len l - a.
Proof.
  intros H. unfold slice_from, slice, rel_index.
  destruct (a <? 0) eqn:E1; [apply Z.ltb_lt in E1; lia|].
  pose proof (len_nonneg l).
  destruct (len l <? 0) eqn:E2; [apply Z.ltb_lt in E2; lia|].
  rewrite !Z.min_l by lia.
  unfold len in *. rewrite length_firstn, length_skipn. lia.
Qed.

(** Fuel above the length of the buffer is never used up: the loop has
    left through one of its [break]s. *)
Lemma extractFrames_fuel fuel : forall buffer frames extra,
  (length buffer < fuel)%nat ->
  extractFrames (fuel + extra) buffer frames = extractFrames fuel buffer frames.
Proof.
  induction fuel as [|fuel IH]; intros buffer frames extra H; [lia|].
  cbn [Nat.add extractFrames].
  destruct (indexOf buffer 0x3E 0 =? -1) eqn:E1; [reflexivity|].
  destruct (indexOf buffer 0x3C (indexOf buffer 0x3E 0) =? -1) eqn:E2; [reflexivity|].
  set (ce := if get_is buffer _ 0x3C then _ else _).
  destruct (len buffer <? ce) eqn:E3; [reflexivity|].
  apply IH.
  apply Z.eqb_neq in E1, E2. apply Z.ltb_ge in E3.
  destruct (indexOf_range buffer 0x3E 0 ltac:(lia)) as [?|R1]; [contradiction|].
  destruct (indexOf_range buffer 0x3C (indexOf buffer 0x3E 0) ltac:(lia)) as [?|R2];
    [contradiction|].
  assert (5 <= ce) by (subst ce; destruct (get_is _ _ _); lia).
  pose proof (length_slice_from buffer ce ltac:(lia)) as HL.
  unfold len in *. lia.
Qed.

Lemma extractFrames_acc fuel : forall buffer frames,
  extractFrames fuel buffer frames =
    (fst (extractFrames fuel buffer []), frames ++ snd (extractFrames fuel buffer [])).
Proof.
  induction fuel as [|fuel IH]; intros buffer frames; cbn [extractFrames].
  - cbn. now rewrite app_nil_r.
  - destruct (indexOf buffer 0x3E 0 =? -1); [cbn; now rewrite app_nil_r|].
    destruct (indexOf buffer 0x3C (indexOf buffer 0x3E 0) =? -1);
      [cbn; now rewrite app_nil_r|].
    set (ce := if get_is buffer _ 0x3C then _ else _).
    destruct (len buffer <? ce); [cbn; now rewrite app_nil_r|].
    rewrite (IH _ (frames ++ _)), (IH _ ([] ++ _)).
    cbn [fst snd]. now rewrite <- app_assoc.
Qed.

Lemma escapeData_app a b : escapeData (a ++ b) = escapeData a ++ escapeData b.
Proof. unfold escapeData. apply flat_map_app. Qed.

Lemma escapeData_head b post :
  exists h rest, escapeData (b :: post) = h :: rest /\ h <> EOF.
Proof.
  cbn [escapeData flat_map].
  destruct (escapeByte_cases b) as [[-> Hn]|(e & -> & _)].
  - apply needsEscape_false in Hn as (_ & _ & _ & H4 & _).
    exists b, (flat_map escapeByte post). split; [reflexivity | exact H4].
  - exists ESCAPE, (e :: flat_map escapeByte post).
    split; [reflexivity | unfold ESCAPE, EOF; lia].
Qed.

(** One round of the loop on a buffer that starts with SOF and whose first
    raw 0x3C is followed by another byte and at least four more. *)
Lemma extractFrames_first (fuel : nat) (M' T' : list Z) (h : Z) :
  Forall (fun y => y <> EOF) (SOF :: M') -> h <> EOF -> 4 <= len T' ->
  let buffer := (SOF :: M') ++ EOF :: h :: T' in
  extractFrames (S fuel) buffer [] =
    extractFrames fuel (slice_from buffer (len (SOF :: M') + 5))
      [slice buffer 0 (len (SOF :: M') + 5)].
Proof.
  intros HM Hh HT buffer.
  assert (Hs : indexOf buffer 0x3E 0 = 0) by reflexivity.
  assert (He : indexOf buffer 0x3C 0 = len (SOF :: M')).
  { apply (indexOf_first [] (SOF :: M') (h :: T') EOF HM). }
  assert (Hg : get_is buffer (len (SOF :: M') + 1) 0x3C = false).
  { unfold get_is, buffer. rewrite get_app_r by lia.
    cbn. now apply Z.eqb_neq. }
  assert (Hl : len buffer = len (SOF :: M') + 2 + len T').
  { unfold buffer. rewrite len_app, !len_cons. lia. }
  cbn [extractFrames]. rewrite Hs. cbn [Z.eqb].
  rewrite He.
  pose proof (len_nonneg M'). rewrite len_cons in *.
  destruct (1 + len M' =? -1) eqn:E1; [apply Z.eqb_eq in E1; lia|].
  rewrite Hg.
  destruct (len buffer <? 1 + len M' + 5) eqn:E2; [apply Z.ltb_lt in E2; lia|].
  reflexivity.
Qed.

(** C10.  The reassembler ends a frame at the first raw 0x3C after the
    SOF.  For every payload in which a byte 0x3C is followed by at least
    one more byte, pushing the complete encoded frame into an empty
    buffer hands the data callback, as its first frame, the first
    [len (escapeData pre) + 8] bytes of the encoded frame, a slice
    strictly shorter than the encoded frame and so different from it. *)
Theorem reassembler_cuts_at_escaped_EOF
    (conn : connection) (t : Z) (pre post : list Z) :
  buffer conn = [] ->
  isByte t -> t <> EOF ->
  Forall isByte pre -> Forall isByte post ->
  Forall (fun b => b <> EOF) pre -> post <> [] ->
  let encoded := encodeFrame t (pre ++ EOF :: post) in
  exists frame rest,
    snd (handleIncomingData conn encoded) = frame :: rest /\
    frame = slice encoded 0 (len (escapeData pre) + 8) /\
    len frame = len (escapeData pre) + 8 /\
    len frame < len encoded /\
    frame <> encoded.
Proof.
  intros Hbuf Ht HtE Hpre Hpost HnoE Hne encoded.
  destruct post as [|b post]; [contradiction|].
  destruct (escapeData_head b post) as (h & tl & Hesc & Hh).
  assert (Hpay : Forall isByte (pre ++ EOF :: b :: post)).
  { apply Forall_app. split; [exact Hpre|].
    constructor; [unfold isByte, EOF; lia | exact Hpost]. }
  pose proof (encodeFrame_shape t _ Ht Hpay) as Hshape. fold encoded in Hshape.
  set (F := framed t (pre ++ EOF :: b :: post)) in *.
  pose proof (calculateChecksum_range (F ++ padding F)) as HR.
  destruct (checksumStr_chars _ HR) as (c1 & c2 & c3 & c4 & Hcs & _).
  set (M' := t :: escapeData pre ++ [ESCAPE]).
  set (T' := tl ++ [EOF] ++ padding F ++ [c1; c2; c3; c4]).
  assert (HF : F = (SOF :: t :: escapeData pre ++ [ESCAPE]) ++ EOF :: h :: tl ++ [EOF]).
  { unfold F, framed. rewrite escapeData_app.
    change (EOF :: b :: post) with ([EOF] ++ b :: post).
    rewrite escapeData_app, Hesc.
    change (escapeData [EOF]) with [ESCAPE; EOF].
    cbn [app]. rewrite <- !app_assoc. reflexivity. }
  assert (Henc : encoded = (SOF :: M') ++ EOF :: h :: T').
  { rewrite Hshape, Hcs. unfold M', T'.
    generalize (padding F). intros pad. rewrite HF. cbn [app].
    rewrite <- !app_assoc. cbn [app]. rewrite <- !app_assoc. reflexivity. }
  assert (HM : Forall (fun y => y <> EOF) (SOF :: M')).
  { constructor; [unfold SOF, EOF; lia|].
    unfold M'. constructor; [exact HtE|].
    apply Forall_app. split; [now apply escapeData_no_EOF|].
    constructor; [unfold ESCAPE, EOF; lia | constructor]. }
  assert (HT : 5 <= len T').
  { unfold T'. rewrite !len_app. pose proof (len_nonneg tl).
    pose proof (len_nonneg (padding F)). unfold len at 2 4. cbn [length]. lia. }
  assert (HlM : len (SOF :: M') + 5 = len (escapeData pre) + 8).
  { unfold M'. rewrite !len_cons, len_app. unfold len at 2. cbn [length]. lia. }
  assert (Hlen : len encoded = len (SOF :: M') + 2 + len T').
  { rewrite Henc, len_app, !len_cons. lia. }
  set (frame := slice encoded 0 (len (escapeData pre) + 8)).
  assert (Hfl : len frame = len (escapeData pre) + 8).
  { pose proof (len_nonneg (escapeData pre)).
    unfold frame. rewrite len_slice by lia. lia. }
  exists frame, (snd (extractFrames (length encoded)
                        (slice_from encoded (len (escapeData pre) + 8)) [])).
  split; [|split; [reflexivity | split; [exact Hfl | split; [lia|]]]].
  - unfold handleIncomingData. rewrite Hbuf. cbn [app].
    destruct (extractFrames (S (length encoded)) encoded []) as [r fs] eqn:Ex.
    cbn [snd].
    rewrite Henc in Ex at 2.
    rewrite (extractFrames_first _ M' T' h HM Hh ltac:(lia)) in Ex.
    rewrite <- Henc, HlM in Ex. rewrite extractFrames_acc in Ex.
    injection Ex as _ <-. reflexivity.
  - intros Heq. rewrite Heq in Hfl. lia.
Qed.

(** ** Announcement parsing *)

Lemma startsWith_app (prefix : list Z) : forall s,
  startsWith s prefix = true -> exists r, s = prefix ++ r.
Proof.
  induction prefix as [|p prefix IH]; intros s H; cbn in H.
  - now exists s.
  - destruct s as [|c s]; [discriminate|].
    apply andb_true_iff in H as [Hc Hs]. apply Z.eqb_eq in Hc. subst c.
    destruct (IH s Hs) as [r ->]. now exists r.
Qed.

Lemma splitWs_word (p : list Z) : forall r cur,
  Forall (fun c => isSpace c = false) p ->
  splitWs (p ++ r) cur false = splitWs r (cur ++ p) false.
Proof.
  induction p as [|c p IH]; intros r cur H; cbn [app splitWs].
  - now rewrite app_nil_r.
  - inversion H as [|? ? Hc Hp]; subst. rewrite Hc, IH by assumption.
    now rewrite <- app_assoc.
Qed.

Lemma hd_splitWs (r : list Z) : forall cur,
  exists t, hd [] (splitWs r cur false) = cur ++ t.
Proof.
  induction r as [|c r IH]; intros cur; cbn [splitWs].
  - exists []. cbn. now rewrite app_nil_r.
  - destruct (isSpace c).
    + exists []. cbn. now rewrite app_nil_r.
    + destruct (IH (cur ++ [c])) as [t Ht]. exists (c :: t).
      rewrite Ht. now rewrite <- app_assoc.
Qed.

Lemma splitOn_word (sep : Z) (p : list Z) : forall r cur,
  Forall (fun c => c <> sep) p ->
  splitOn sep (p ++ r) cur = splitOn sep r (cur ++ p).
Proof.
  induction p as [|c p IH]; intros r cur H; cbn [app splitOn].
  - now rewrite app_nil_r.
  - inversion H as [|? ? Hc Hp]; subst.
    destruct (c =? sep) eqn:E; [apply Z.eqb_eq in E; contradiction|].
    rewrite IH by assumption. now rewrite <- app_assoc.
Qed.

Lemma hd_splitOn (sep : Z) (s : list Z) : forall cur,
  exists t, hd [] (splitOn sep s cur) = cur ++ t.
Proof.
  induction s as [|c s IH]; intros cur; cbn [splitOn].
  - exists []. cbn. now rewrite app_nil_r.
  - destruct (c =? sep).
    + exists []. cbn. now rewrite app_nil_r.
    + destruct (IH (cur ++ [c])) as [t Ht]. exists (c :: t).
      rewrite Ht. now rewrite <- app_assoc.
Qed.

(** The first token of a text that starts with [VelocitySP-v] has
    [VelocitySP] as its first dash component, and its second component
    starts with [v]. *)
Lemma front_components (text : list Z) :
  startsWith text (codes "VelocitySP-v") = true ->
  exists fw more,
    split (hd [] (splitWs text [] false)) dash =
      codes "VelocitySP" :: (0x76 :: fw) :: more.
Proof.
  intros H. apply startsWith_app in H as [r ->].
  assert (Hw : Forall (fun c => isSpace c = false) (codes "VelocitySP-v"))
    by (cbn [codes]; repeat (constructor; [reflexivity|]); constructor).
  assert (Hd : Forall (fun c => c <> dash) (codes "VelocitySP"))
    by (cbn [codes];
        repeat (constructor; [intros Hx; vm_compute in Hx; discriminate|]);
        constructor).
  rewrite splitWs_word by exact Hw.
  destruct (hd_splitWs r ([] ++ codes "VelocitySP-v")) as [t ->].
  unfold split.
  change (([] ++ codes "VelocitySP-v") ++ t)
    with (codes "VelocitySP" ++ dash :: ([0x76] ++ t)).
  rewrite splitOn_word by exact Hd.
  cbn [splitOn]. unfold dash at 1. rewrite Z.eqb_refl.
  cbn [app splitOn].
  change (0x76 =? dash) with false. cbn [app].
  destruct (hd_splitOn dash t [0x76]) as [fw Hfw].
  destruct (splitOn dash t [0x76]) as [|x more] eqn:E.
  - destruct t; cbn in E; [discriminate|]. destruct (_ =? _); discriminate.
  - cbn in Hfw. subst x. now exists fw, more.
Qed.

(** C9.  What [parseAnnouncement] returns, by cases on the trimmed text:
    when it starts with [VelocitySP-v] and its first whitespace token has
    at least four dash components, the first component is [VelocitySP],
    the second is [v] followed by the firmware version, the third is the
    device type and the fourth the serial number; when it starts with
    [VelocitySP-v] and has fewer components, the device type is the whole
    first token; when it does not start with [VelocitySP-v], the device
    type is the whole trimmed text.  In the last two cases the other
    fields are "Unknown". *)
Theorem parseAnnouncement_cases (decodedText : list Z) :
  let text := trim decodedText in
  let front := hd [] (splitWs text [] false) in
  let parts := split front dash in
  if startsWith text (codes "VelocitySP-v") then
    if (4 <=? length parts)%nat then
      exists fw,
        nth 0 parts [] = codes "VelocitySP" /\ nth 1 parts [] = 0x76 :: fw /\
        parseAnnouncement decodedText =
          {| deviceType := nth 2 parts []; firmwareVersion := fw;
             serialNumber := nth 3 parts [] |}
    else
      parseAnnouncement decodedText =
        {| deviceType := front; firmwareVersion := Unknown; serialNumber := Unknown |}
  else
    parseAnnouncement decodedText =
      {| deviceType := text; firmwareVersion := Unknown; serialNumber := Unknown |}.
Proof.
  intros text front parts. unfold parseAnnouncement. fold text.
  destruct (startsWith text (codes "VelocitySP-v")) eqn:Hs; [|reflexivity].
  fold front. fold parts.
  destruct (4 <=? length parts)%nat eqn:H4; [|reflexivity].
  destruct (front_components text Hs) as (fw & more & Hparts).
  fold front in Hparts. fold parts in Hparts.
  exists fw. rewrite Hparts. cbn [nth stripLeadingV].
  change (0x76 =? 0x76) with true. cbn iota.
  repeat split.
Qed.

(** The announcement of the specification's scenario. *)
Example parseAnnouncement_scenario :
  parseAnnouncement (codes "VelocitySP-v2025.06-LAN9662-ung8291 326 300 2") =
    {| deviceType := codes "LAN9662"; firmwareVersion := codes "2025.06";
       serialNumber := codes "ung8291" |}.
Proof. vm_compute. reflexivity. Qed.

(** C9, as stated, fails: a first token [VelocitySP-2025.06-LAN9662-ung8291]
    has [VelocitySP] as first component and four components, yet the
    positive branch is not taken; and a text that does not start with
    [VelocitySP-v] gives the whole trimmed text, not its first token. *)
Lemma parseAnnouncement_needs_v :
  let text := codes "VelocitySP-2025.06-LAN9662-ung8291 326 300 2" in
  let parts := split (hd [] (splitWs (trim text) [] false)) dash in
  nth 0 parts [] = codes "VelocitySP" /\ length parts = 4%nat /\
  deviceType (parseAnnouncement text) <> nth 2 parts [] /\
  firmwareVersion (parseAnnouncement text) = Unknown /\
  deviceType (parseAnnouncement text) = text /\
  deviceType (parseAnnouncement text) <> hd [] (splitWs (trim text) [] false).
Proof.
  cbv zeta.
  split; [vm_compute; reflexivity|].
  split; [vm_compute; reflexivity|].
  split; [vm_compute; discriminate|].
  split; [vm_compute; reflexivity|].
  split; [vm_compute; reflexivity|].
  vm_compute. discriminate.
Qed.

(** ** CoAP options *)

Lemma splitOn_keeps (P : Z -> Prop) (sep : Z) (s : list Z) : forall cur,
  Forall P s -> Forall P cur -> Forall (Forall P) (splitOn sep s cur).
Proof.
  induction s as [|c s IH]; intros cur Hs Hcur; cbn [splitOn].
  - constructor; [exact Hcur | constructor].
  - inversion Hs as [|? ? Hc Hs']; subst.
    destruct (c =? sep).
    + constructor; [exact Hcur|]. apply IH; [exact Hs' | constructor].
    + apply IH; [exact Hs'|]. apply Forall_app. split; [exact Hcur|]. now constructor.
Qed.

Lemma fold_pathStep segs : forall o p,
  fold_left pathStep segs (o, p) =
    (o ++ pathBytes p segs, match segs with [] => p | _ :: _ => 11 end).
Proof.
  induction segs as [|s segs IH]; intros o p; cbn [fold_left pathBytes].
  - now rewrite app_nil_r.
  - unfold pathStep at 2. cbn [fst snd]. rewrite IH, <- app_assoc.
    now destruct segs.
Qed.

Lemma fold_queryStep qs : forall o p,
  fold_left queryStep qs (o, p) =
    (o ++ queryBytes p qs, match qs with [] => p | _ :: _ => 15 end).
Proof.
  induction qs as [|q qs IH]; intros o p; cbn [fold_left queryBytes].
  - now rewrite app_nil_r.
  - unfold queryStep at 2. cbn [fst snd]. rewrite IH, <- app_assoc.
    now destruct qs.
Qed.

Lemma encodeOptions_bytes uri :
  encodeOptions uri =
    pathBytes 0 (segments uri) ++
    [16 * (12 - match segments uri with [] => 0 | _ :: _ => 11 end) + 1; 60] ++
    queryBytes 12 (queries uri).
Proof.
  unfold encodeOptions. rewrite fold_pathStep.
  unfold contentFormat. cbn [fst snd]. rewrite fold_queryStep. cbn [fst app].
  rewrite <- app_assoc. cbn [app].
  now destruct (segments uri).
Qed.

Lemma pathOption_first seg :
  len seg < 269 ->
  pathOption 0 seg =
    (if len seg <? 13 then [16 * 11 + len seg] else [16 * 11 + 13; len seg - 13])
    ++ seg.
Proof.
  intros H. unfold pathOption. pose proof (len_nonneg seg).
  change (11 - 0) with 11. change (11 <? 13) with true. cbn [andb].
  destruct (len seg <? 13) eqn:E.
  - apply Z.ltb_lt in E. rewrite bor_shl by (cbn; lia). reflexivity.
  - destruct (len seg <? 269) eqn:E2; [|apply Z.ltb_ge in E2; lia].
    reflexivity.
Qed.

Lemma pathOption_next seg :
  len seg < 13 -> pathOption 11 seg = [16 * 0 + len seg] ++ seg.
Proof.
  intros H. unfold pathOption. pose proof (len_nonneg seg).
  change (11 - 11) with 0. change (0 <? 13) with true. cbn [andb].
  destruct (len seg <? 13) eqn:E; [|apply Z.ltb_ge in E; lia].
  rewrite bor_shl by (cbn; lia). reflexivity.
Qed.

Lemma queryOption_bytes prev q :
  prev = 12 \/ prev = 15 -> len q < 269 ->
  queryOption prev q =
    (if len q <? 13 then [16 * (15 - prev) + len q]
     else [16 * (15 - prev) + 13; len q - 13]) ++ q.
Proof.
  intros Hp H. unfold queryOption. pose proof (len_nonneg q).
  assert (Hd : (15 - prev <? 13) = true) by (apply Z.ltb_lt; lia).
  rewrite Hd. cbn [andb].
  destruct (len q <? 13) eqn:E.
  - apply Z.ltb_lt in E. rewrite bor_shl by (cbn; lia).
    change (2 ^ 4) with 16. now rewrite (Z.mul_comm _ 16).
  - rewrite bor_shl by (cbn; lia).
    change (2 ^ 4) with 16. now rewrite (Z.mul_comm _ 16).
Qed.

Lemma take_drop_value (value rest : list Z) (l : Z) :
  len value = l ->
  firstn (Z.to_nat l) (value ++ rest) = value /\
  skipn (Z.to_nat l) (value ++ rest) = rest /\
  (len (value ++ rest) <? l) = false.
Proof.
  intros <-. unfold len. rewrite Nat2Z.id.
  split; [|split].
  - rewrite firstn_app, firstn_all, Nat.sub_diag.
    change (take 0 rest) with (@nil Z). apply app_nil_r.
  - rewrite skipn_app, skipn_all, Nat.sub_diag. reflexivity.
  - apply Z.ltb_ge. rewrite length_app. lia.
Qed.

(** Reading one option written in the one-byte form, and one written
    with an extended length byte. *)
Lemma read_short fuel (d l : Z) (value rest : list Z) (prev : Z) :
  0 <= d < 13 -> 0 <= l < 13 -> len value = l ->
  readOptions (S fuel) ((16 * d + l) :: value ++ rest) prev =
    match readOptions fuel rest (prev + d) with
    | None => None
    | Some more => Some ((prev + d, value) :: more)
    end.
Proof.
  intros Hd Hl Hv. cbn [readOptions].
  destruct (16 * d + l =? 0xFF) eqn:E; [apply Z.eqb_eq in E; lia|].
  assert (Hq : (16 * d + l) / 16 = d)
    by (symmetry; apply (Z.div_unique _ 16 d l); lia).
  assert (Hr : (16 * d + l) mod 16 = l)
    by (symmetry; apply (Z.mod_unique _ 16 d l); lia).
  rewrite Hq, Hr. unfold readExtended.
  destruct (d <? 13) eqn:E1; [|apply Z.ltb_ge in E1; lia].
  destruct (l <? 13) eqn:E2; [|apply Z.ltb_ge in E2; lia].
  destruct (take_drop_value value rest l Hv) as (-> & -> & ->).
  reflexivity.
Qed.

Lemma read_extended fuel (d l : Z) (value rest : list Z) (prev : Z) :
  0 <= d < 13 -> 13 <= l < 269 -> len value = l ->
  readOptions (S fuel) ((16 * d + 13) :: (l - 13) :: value ++ rest) prev =
    match readOptions fuel rest (prev + d) with
    | None => None
    | Some more => Some ((prev + d, value) :: more)
    end.
Proof.
  intros Hd Hl Hv. cbn [readOptions].
  destruct (16 * d + 13 =? 0xFF) eqn:E; [apply Z.eqb_eq in E; lia|].
  assert (Hq : (16 * d + 13) / 16 = d)
    by (symmetry; apply (Z.div_unique _ 16 d 13); lia).
  assert (Hr : (16 * d + 13) mod 16 = 13)
    by (symmetry; apply (Z.mod_unique _ 16 d 13); lia).
  rewrite Hq, Hr. unfold readExtended.
  destruct (d <? 13) eqn:E1; [|apply Z.ltb_ge in E1; lia].
  change (13 <? 13) with false. change (13 =? 13) with true. cbn iota.
  replace (l - 13 + 13) with l by lia.
  destruct (take_drop_value value rest l Hv) as (-> & -> & ->).
  reflexivity.
Qed.

(** Either form, as the encoder chooses it. *)
Lemma read_option fuel (d : Z) (value rest : list Z) (prev : Z) :
  0 <= d < 13 -> len value < 269 ->
  readOptions (S fuel)
    (((if len value <? 13 then [16 * d + len value]
       else [16 * d + 13; len value - 13]) ++ value) ++ rest) prev =
    match readOptions fuel rest (prev + d) with
    | None => None
    | Some more => Some ((prev + d, value) :: more)
    end.
Proof.
  intros Hd Hl. pose proof (len_nonneg value).
  destruct (len value <? 13) eqn:E; rewrite <- app_assoc; cbn [app].
  - apply Z.ltb_lt in E. apply read_short; [lia | lia | reflexivity].
  - apply Z.ltb_ge in E. apply read_extended; [lia | lia | reflexivity].
Qed.

Lemma read_later_segments (segs : list (list Z)) : forall fuel rest,
  Forall (fun s => len s < 13) segs ->
  readOptions (length segs + fuel) (pathBytes 11 segs ++ rest) 11 =
    match readOptions fuel rest 11 with
    | None => None
    | Some more => Some (map (fun s => (11, s)) segs ++ more)
    end.
Proof.
  induction segs as [|s segs IH]; intros fuel rest H;
    cbn [pathBytes length map app Nat.add].
  - now destruct (readOptions fuel rest 11).
  - inversion H as [|? ? Hs Hr]; subst.
    rewrite pathOption_next by assumption. rewrite <- app_assoc. cbn [app Nat.add].
    pose proof (len_nonneg s) as Hn.
    rewrite (read_short _ 0 (len s) s _ 11 ltac:(lia) ltac:(lia) eq_refl).
    rewrite Z.add_0_r, IH by assumption.
    now destruct (readOptions fuel rest 11).
Qed.

Lemma read_queries (qs : list (list Z)) : forall prev fuel,
  prev = 12 \/ prev = 15 ->
  Forall (fun q => len q < 269) qs ->
  readOptions (length qs + S fuel) (queryBytes prev qs) prev =
    Some (map (fun q => (15, q)) qs).
Proof.
  induction qs as [|q qs IH]; intros prev fuel Hp H;
    cbn [queryBytes length map Nat.add].
  - reflexivity.
  - inversion H as [|? ? Hq Hr]; subst.
    rewrite queryOption_bytes by assumption. cbn [Nat.add].
    rewrite read_option by (assumption || lia).
    replace (prev + (15 - prev)) with 15 by lia.
    rewrite IH by (auto || assumption). reflexivity.
Qed.

Lemma readOptions_more fuel : forall bytes prev r extra,
  readOptions fuel bytes prev = Some r ->
  readOptions (fuel + extra) bytes prev = Some r.
Proof.
  induction fuel as [|fuel IH]; intros bytes prev r extra H; [discriminate|].
  cbn [Nat.add readOptions] in *.
  destruct bytes as [|b rest]; [exact H|].
  destruct (b =? 0xFF); [exact H|].
  destruct (readExtended (b / 16) rest) as [[d rest1]|]; [|discriminate].
  destruct (readExtended (b mod 16) rest1) as [[l rest2]|]; [|discriminate].
  destruct (len rest2 <? l); [discriminate|].
  destruct (readOptions fuel (skipn (Z.to_nat l) rest2) (prev + d)) as [more|] eqn:E;
    [|discriminate].
  now rewrite (IH _ _ _ extra E).
Qed.

Lemma length_pathOption p s : (1 <= length (pathOption p s))%nat.
Proof.
  unfold pathOption. rewrite length_app.
  destruct ((11 - p <? 13) && (len s <? 13)) eqn:E; [cbn [length]; lia|].
  destruct (11 - p <? 13) eqn:E1.
  - cbn [andb] in E. rewrite E. cbn [app].
    destruct (len s <? 269); rewrite length_app; cbn [length]; lia.
  - destruct (11 - p <? 269); rewrite length_app; cbn [length]; lia.
Qed.

Lemma length_queryOption p q : (1 <= length (queryOption p q))%nat.
Proof.
  unfold queryOption. rewrite length_app.
  destruct ((15 - p <? 13) && (len q <? 13)); cbn [length]; lia.
Qed.

Lemma length_pathBytes segs : forall p,
  (length segs <= length (pathBytes p segs))%nat.
Proof.
  induction segs as [|s segs IH]; intros p; cbn [pathBytes length]; [lia|].
  rewrite length_app. pose proof (length_pathOption p s). specialize (IH 11). lia.
Qed.

Lemma length_queryBytes qs : forall p,
  (length qs <= length (queryBytes p qs))%nat.
Proof.
  induction qs as [|q qs IH]; intros p; cbn [queryBytes length]; [lia|].
  rewrite length_app. pose proof (length_queryOption p q). specialize (IH 15). lia.
Qed.

Lemma buildMessage_shape
    (cborEncode : jsval -> list Z) (method : Z) (uri : list Z)
    (payload : jsval) (mid : Z) :
  buildMessage cborEncode method uri payload mid =
    map to_uint8
      ([0x40; method; band (sar mid 8) 0xFF; band mid 0xFF] ++
       encodeOptions uri ++
       (if truthy payload then 0xFF :: cborEncode payload else [])).
Proof.
  unfold buildMessage. destruct (truthy payload).
  - rewrite <- !app_assoc. reflexivity.
  - rewrite app_nil_r. reflexivity.
Qed.

(** The bytes of [encodeOptions] read back by the nibble rules. *)
Lemma encodeOptions_read_back (uri : list Z) :
  sizedForOptions uri -> specOptions (encodeOptions uri) = Some (uriOptions uri).
Proof.
  intros [Hs Hq]. unfold specOptions, uriOptions.
  set (n := (length (segments uri) + S (length (queries uri) + 1))%nat).
  assert (Hn : (n <= S (length (encodeOptions uri)))%nat).
  { rewrite encodeOptions_bytes, !length_app. cbn [length].
    pose proof (length_pathBytes (segments uri) 0).
    pose proof (length_queryBytes (queries uri) 12). lia. }
  replace (S (length (encodeOptions uri)))
    with (n + (S (length (encodeOptions uri)) - n))%nat by lia.
  apply readOptions_more. unfold n.
  rewrite encodeOptions_bytes.
  destruct (segments uri) as [|s r].
  - cbn [pathBytes length map app Nat.add].
    change (16 * (12 - 0) + 1 :: 60 :: queryBytes 12 (queries uri))
      with ((16 * 12 + 1) :: [60] ++ queryBytes 12 (queries uri)).
    rewrite (read_short _ 12 1 [60] _ 0 ltac:(lia) ltac:(lia) eq_refl).
    change (0 + 12) with 12.
    rewrite read_queries by (auto || assumption). reflexivity.
  - destruct Hs as [Hs Hr].
    cbn [pathBytes length map Nat.add].
    rewrite pathOption_first by assumption.
    rewrite <- (app_assoc _ (pathBytes 11 r)).
    rewrite read_option by (lia || assumption).
    change (0 + 11) with 11.
    rewrite read_later_segments by assumption.
    change ([16 * (12 - 11) + 1; 60] ++ queryBytes 12 (queries uri))
      with ((16 * 1 + 1) :: [60] ++ queryBytes 12 (queries uri)).
    rewrite (read_short _ 1 1 [60] _ 11 ltac:(lia) ltac:(lia) eq_refl).
    change (11 + 1) with 12.
    rewrite read_queries by (auto || assumption). reflexivity.
Qed.









(** ** Content-Format *)

Lemma filter_keeps {A} (P : A -> Prop) (f : A -> bool) (l : list A) :
  Forall P l -> Forall P (List.filter f l).
Proof.
  induction 1 as [|x l Hx _ IH]; cbn [List.filter]; [constructor|].
  destruct (f x); [now constructor | exact IH].
Qed.

Lemma split_keeps (P : Z -> Prop) (s : list Z) (sep : Z) :
  Forall P s -> Forall (Forall P) (split s sep).
Proof. intros H. unfold split. apply splitOn_keeps; [exact H | constructor]. Qed.

Lemma segments_keep (P : Z -> Prop) (uri : list Z) :
  Forall P uri -> Forall (Forall P) (segments uri) /\ Forall (Forall P) (queries uri).
Proof.
  intros H. pose proof (split_keeps P uri 0x3F H) as HS.
  split.
  - unfold segments, pathPart. apply filter_keeps, split_keeps.
    destruct HS; [constructor | assumption].
  - unfold queries, queryPart.
    destruct (nth_error (split uri 0x3F) 1) as [q|] eqn:E; [|constructor].
    destruct (nonEmpty q); [|constructor].
    apply filter_keeps, split_keeps.
    apply nth_error_In in E. rewrite List.Forall_forall in HS. now apply HS.
Qed.

Lemma option_bytes (d : Z) (value : list Z) :
  0 <= d < 13 -> len value < 269 -> Forall isByte value ->
  Forall isByte ((if len value <? 13 then [16 * d + len value]
                  else [16 * d + 13; len value - 13]) ++ value).
Proof.
  intros Hd Hl Hv. pose proof (len_nonneg value).
  apply Forall_app. split; [|exact Hv].
  destruct (len value <? 13) eqn:E;
    [apply Z.ltb_lt in E | apply Z.ltb_ge in E];
    repeat (constructor; [unfold isByte; lia|]); constructor.
Qed.

Lemma pathBytes_later_bytes (segs : list (list Z)) :
  Forall (fun s => len s < 13) segs -> Forall (Forall isByte) segs ->
  Forall isByte (pathBytes 11 segs).
Proof.
  induction 1 as [|s segs Hs _ IH]; intros HB; cbn [pathBytes]; [constructor|].
  apply Forall_cons in HB as [Hb HB].
  apply Forall_app. split; [|now apply IH].
  rewrite pathOption_next by assumption.
  pose proof (option_bytes 0 s ltac:(lia) ltac:(lia) Hb) as H.
  destruct (len s <? 13) eqn:E; [exact H | apply Z.ltb_ge in E; lia].
Qed.

Lemma queryBytes_bytes (qs : list (list Z)) : forall prev,
  prev = 12 \/ prev = 15 ->
  Forall (fun q => len q < 269) qs -> Forall (Forall isByte) qs ->
  Forall isByte (queryBytes prev qs).
Proof.
  induction qs as [|q qs IH]; intros prev Hp H HB; cbn [queryBytes]; [constructor|].
  apply Forall_cons in H as [Hq H]. apply Forall_cons in HB as [Hb HB].
  apply Forall_app. split; [|apply IH; auto].
  rewrite queryOption_bytes by assumption.
  apply option_bytes; [lia | assumption | assumption].
Qed.

Lemma encodeOptions_bytes_are_bytes (uri : list Z) :
  sizedForOptions uri -> Forall isByte uri -> Forall isByte (encodeOptions uri).
Proof.
  intros [Hs Hq] HB. destruct (segments_keep isByte uri HB) as [HBs HBq].
  rewrite encodeOptions_bytes.
  apply Forall_app. split; [|apply Forall_app; split].
  - destruct (segments uri) as [|s r]; cbn [pathBytes]; [constructor|].
    destruct Hs as [Hs Hr]. apply Forall_cons in HBs as [Hb HBr].
    apply Forall_app. split; [|now apply pathBytes_later_bytes].
    rewrite pathOption_first by assumption.
    apply option_bytes; [lia | assumption | assumption].
  - destruct (segments uri);
      (constructor; [unfold isByte; lia|]);
      (constructor; [unfold isByte; lia | constructor]).
  - apply queryBytes_bytes; auto.
Qed.

(** Reading options stops at the payload marker: what follows the
    marker does not change what is read. *)
Lemma readExtended_app (nibble : Z) (bytes tail : list Z) (v : Z) (rest : list Z) :
  readExtended nibble bytes = Some (v, rest) ->
  readExtended nibble (bytes ++ tail) = Some (v, rest ++ tail).
Proof.
  unfold readExtended.
  destruct (nibble <? 13); [intros H; now injection H as <- <-|].
  destruct (nibble =? 13).
  - destruct bytes as [|x r]; [discriminate|]. intros H. now injection H as <- <-.
  - destruct (nibble =? 14); [|discriminate].
    destruct bytes as [|x [|y r]]; try discriminate.
    intros H. now injection H as <- <-.
Qed.

Lemma readOptions_marker fuel : forall bytes prev r tail,
  readOptions fuel bytes prev = Some r ->
  readOptions fuel (bytes ++ 0xFF :: tail) prev = Some r.
Proof.
  induction fuel as [|fuel IH]; intros bytes prev r tail H; [discriminate|].
  cbn [readOptions] in *.
  destruct bytes as [|b rest]; [exact H|]. cbn [app].
  destruct (b =? 0xFF); [exact H|].
  destruct (readExtended (b / 16) rest) as [[d rest1]|] eqn:E1; [|discriminate].
  rewrite (readExtended_app _ _ (0xFF :: tail) _ _ E1).
  destruct (readExtended (b mod 16) rest1) as [[l rest2]|] eqn:E2; [|discriminate].
  rewrite (readExtended_app _ _ (0xFF :: tail) _ _ E2).
  destruct (len rest2 <? l) eqn:E3; [discriminate|].
  apply Z.ltb_ge in E3.
  assert (E4 : (len (rest2 ++ 0xFF :: tail) <? l) = false).
  { apply Z.ltb_ge. rewrite len_app. pose proof (len_nonneg (0xFF :: tail)). lia. }
  rewrite E4.
  assert (Hl : (Z.to_nat l <= length rest2)%nat) by (unfold len in E3; lia).
  rewrite skipn_app, firstn_app.
  replace (Z.to_nat l - length rest2)%nat with 0%nat by lia.
  change (drop 0 (0xFF :: tail)) with (0xFF :: tail).
  change (take 0 (0xFF :: tail)) with (@nil Z). rewrite app_nil_r.
  destruct (readOptions fuel (skipn (Z.to_nat l) rest2) (prev + d)) as [more|] eqn:E;
    [|discriminate].
  now rewrite (IH _ _ _ tail E).
Qed.

Lemma specOptions_marker (bytes tail : list Z) (r : list (Z * list Z)) :
  specOptions bytes = Some r -> specOptions (bytes ++ 0xFF :: tail) = Some r.
Proof.
  unfold specOptions. intros H. rewrite length_app.
  generalize (length (0xFF :: tail)). intros n.
  change (S (length bytes + n)) with (S (length bytes) + n)%nat.
  apply readOptions_more. now apply readOptions_marker.
Qed.

(** C5.  A built message is its four header bytes, the bytes of
    [encodeOptions] and, exactly when the payload is truthy, the marker
    0xFF and the encoded payload.  For every URI of byte-sized characters
    whose first path segment and query segments are shorter than 269 and
    whose later path segments are shorter than 13, the options of the
    built message, read from its bytes after the header up to the marker
    or the end, are the Uri-Path options, then the Content-Format option,
    number 12 with the single value byte 60, then the Uri-Query options:
    option 12 is there once, whether or not the message has a payload. *)
Theorem content_format_always
    (cborEncode : jsval -> list Z) (method : Z) (uri : list Z)
    (payload : jsval) (mid : Z) :
  buildMessage cborEncode method uri payload mid =
    map to_uint8
      ([0x40; method; band (sar mid 8) 0xFF; band mid 0xFF] ++
       encodeOptions uri ++
       (if truthy payload then 0xFF :: cborEncode payload else [])) /\
  (sizedForOptions uri -> Forall isByte uri ->
   specOptions (skipn 4 (buildMessage cborEncode method uri payload mid)) =
     Some (map (fun s => (11, s)) (segments uri) ++
           (12, [60]) :: map (fun q => (15, q)) (queries uri)) /\
   List.filter (fun o => fst o =? 12)
     (map (fun s => (11, s)) (segments uri) ++
      (12, [60]) :: map (fun q => (15, q)) (queries uri)) = [(12, [60])]).
Proof.
  split; [apply buildMessage_shape|].
  intros Hs HB. split.
  - rewrite buildMessage_shape. cbn [app map].
    change (drop 4 (to_uint8 64 :: to_uint8 method ::
                    to_uint8 (band (sar mid 8) 255) :: to_uint8 (band mid 255) ::
                    map to_uint8 (encodeOptions uri ++
                      (if truthy payload then 255 :: cborEncode payload else []))))
      with (map to_uint8 (encodeOptions uri ++
              (if truthy payload then 255 :: cborEncode payload else []))).
    rewrite map_app.
    rewrite (map_to_uint8_bytes (encodeOptions uri))
      by now apply encodeOptions_bytes_are_bytes.
    pose proof (encodeOptions_read_back uri Hs) as HR. unfold uriOptions in HR.
    destruct (truthy payload); cbn [map].
    + now apply specOptions_marker.
    + now rewrite app_nil_r.
  - rewrite List.filter_app. cbn [List.filter fst].
    change (12 =? 12) with true. cbn iota.
    assert (H11 : forall l : list (list Z),
              List.filter (fun o : Z * list Z => fst o =? 12)
                (map (fun s => (11, s)) l) = [])
      by (induction l as [|x l IH]; cbn [map List.filter fst]; [reflexivity | exact IH]).
    assert (H15 : forall l : list (list Z),
              List.filter (fun o : Z * list Z => fst o =? 12)
                (map (fun q => (15, q)) l) = [])
      by (induction l as [|x l IH]; cbn [map List.filter fst]; [reflexivity | exact IH]).
    now rewrite H11, H15.
Qed.

Lemma content_format_always_witness :
  let uri := codes "/ietf-interfaces:interfaces/state?d=a" in
  sizedForOptions uri /\ Forall isByte uri /\
  specOptions (skipn 4 (buildMessage cbor_none_encode METHODS_GET uri JNull 1)) =
    Some [(11, codes "ietf-interfaces:interfaces"); (11, codes "state");
          (12, [60]); (15, codes "d=a")].
Proof.
  cbv zeta.
  assert (H : sizedForOptions (codes "/ietf-interfaces:interfaces/state?d=a")).
  { split.
    - assert (E : segments (codes "/ietf-interfaces:interfaces/state?d=a") =
                  [codes "ietf-interfaces:interfaces"; codes "state"])
        by (vm_compute; reflexivity).
      rewrite E. split; [vm_compute; reflexivity|].
      constructor; [vm_compute; reflexivity | constructor]. 
    - assert (E : queries (codes "/ietf-interfaces:interfaces/state?d=a") =
                  [codes "d=a"]) by (vm_compute; reflexivity).
      rewrite E. constructor; [vm_compute; reflexivity | constructor]. }
  assert (HB : Forall isByte (codes "/ietf-interfaces:interfaces/state?d=a"))
    by (cbn [codes];
        repeat (constructor; [vm_compute; split; [discriminate | reflexivity]|]);
        constructor).
  split; [exact H|]. split; [exact HB|].
  exact (proj1 (proj2 (content_format_always cbor_none_encode METHODS_GET
                         (codes "/ietf-interfaces:interfaces/state?d=a") JNull 1)
                 H HB)).
Defined.

(** C5, as stated, fails: a GET built without payload contains option
    12. *)
Lemma get_carries_content_format :
  truthy JNull = false /\
  buildMessage cbor_none_encode METHODS_GET (codes "/a") JNull 1 =
    [0x40; 0x01; 0x00; 0x01; 0xB1; 0x61; 0x11; 60] /\
  specOptions (skipn 4 (buildMessage cbor_none_encode METHODS_GET (codes "/a") JNull 1)) =
    Some [(11, [0x61]); (12, [60])].
Proof.
  split; [reflexivity|].
  split; [vm_compute; reflexivity|].
  vm_compute. reflexivity.
Qed.

(** ** Responses *)

(** C4.  A response with code byte 0x84 for the pending message id 1 is
    taken out of the pending map and rejected in the same call, with an
    error whose code is 0x84; its message is "Error 132", because
    [RESPONSE_CODES] is keyed by 404 and has no entry for the code byte
    132. *)
Theorem not_found_reason (cborDecode : list Z -> option jsval)
    (c : client) (p : pending) :
  pendingRequests c !! 1 = Some p ->
  handleResponse cborDecode c [0x60; 0x84; 0x00; 0x01] =
    ({| messageId := messageId c; token := token c;
        pendingRequests := delete 1 (pendingRequests c) |},
     [Rejected 1 {| message := "Error 132"; code := Some 0x84;
                    payload := Some JNull |}]) /\
  codes_get RESPONSE_CODES 0x84 = None /\
  codes_get RESPONSE_CODES 404 = Some "Not Found"%string.
Proof.
  intros Hp. split; [|split; reflexivity].
  unfold handleResponse.
  assert (E : parseResponse cborDecode [0x60; 0x84; 0x00; 0x01] =
              Ok {| r_version := 1; r_type := 2; r_code := 0x84;
                    r_messageId := 1; r_token := 0; r_payload := JNull |})
    by (vm_compute; reflexivity).
  rewrite E. cbn [r_messageId r_code r_payload]. rewrite Hp.
  reflexivity.
Qed.

Lemma not_found_reason_witness :
  let p := {| meta_method := METHODS_GET; meta_uri := codes "/a";
              meta_payload := JNull |} in
  pendingRequests after_first_get !! 1 = Some p /\
  handleResponse cbor_none_decode after_first_get [0x60; 0x84; 0x00; 0x01] =
    ({| messageId := messageId after_first_get; token := token after_first_get;
        pendingRequests := delete 1 (pendingRequests after_first_get) |},
     [Rejected 1 {| message := "Error 132"; code := Some 0x84;
                    payload := Some JNull |}]).
Proof.
  cbv zeta.
  assert (H : pendingRequests after_first_get !! 1 =
              Some {| meta_method := METHODS_GET; meta_uri := codes "/a";
                      meta_payload := JNull |})
    by (vm_compute; reflexivity).
  split; [exact H|].
  exact (proj1 (not_found_reason cbor_none_decode after_first_get _ H)).
Defined.

(** ** Message ids *)

Lemma to_int32_eq x : exists k, to_int32 x = x + k * 2 ^ 32.
Proof.
  exists (- ((x + 2 ^ 31) / 2 ^ 32)). unfold to_int32.
  rewrite Z.mod_eq by lia. lia.
Qed.

Lemma header_low_byte mid : to_uint8 (band mid 0xFF) = mid mod 256.
Proof.
  unfold to_uint8. rewrite band_FF, Z.mod_mod by lia.
  destruct (to_int32_eq mid) as [k ->].
  replace (k * 2 ^ 32) with (k * 2 ^ 24 * 256) by lia.
  apply Z.mod_add. lia.
Qed.

Lemma header_high_byte mid : to_uint8 (band (sar mid 8) 0xFF) = (mid / 256) mod 256.
Proof.
  unfold to_uint8. rewrite band_FF, Z.mod_mod by lia.
  unfold sar. change (8 mod 32) with 8. rewrite Z.shiftr_div_pow2 by lia.
  change (2 ^ 8) with 256.
  pose proof (to_int32_range mid) as R.
  assert (R' : - 2 ^ 31 <= to_int32 mid / 256 < 2 ^ 31).
  { split; [apply Z.div_le_lower_bound | apply Z.div_lt_upper_bound]; lia. }
  rewrite (to_int32_small _ R').
  destruct (to_int32_eq mid) as [k ->].
  replace (k * 2 ^ 32) with (k * 2 ^ 24 * 256) by lia.
  rewrite Z.div_add by lia.
  replace (k * 2 ^ 24) with (k * 2 ^ 16 * 256) by lia.
  apply Z.mod_add. lia.
Qed.

Lemma big_endian_16 m : 256 * ((m / 256) mod 256) + m mod 256 = m mod 65536.
Proof.
  pose proof (Z.div_mod m 256 ltac:(lia)).
  pose proof (Z.div_mod (m / 256) 256 ltac:(lia)).
  pose proof (Z.mod_pos_bound m 256 ltac:(lia)).
  pose proof (Z.mod_pos_bound (m / 256) 256 ltac:(lia)).
  apply (Z.mod_unique_pos m 65536 (m / 256 / 256)); lia.
Qed.

Lemma request_state enc conn c method uri payload :
  fst (fst (request enc conn c method uri payload)) =
    {| messageId := messageId c + 1; token := token c;
       pendingRequests :=
         <[messageId c := {| meta_method := method; meta_uri := uri;
                             meta_payload := payload |}]> (pendingRequests c) |}.
Proof. unfold request. cbn [messageId token pendingRequests]. now destruct (sendBytes _ _). Qed.

Lemma step_below_counter enc dec conn c o :
  below_counter c ->
  below_counter (step enc dec conn c o) /\
  messageId (step enc dec conn c o) =
    messageId c + (if isRequest o then 1 else 0).
Proof.
  intros [H1 H2]. destruct o as [method uri payload|data|mid]; cbn [step isRequest].
  - rewrite request_state. cbn [messageId]. split; [|reflexivity].
    split; cbn [messageId pendingRequests]; [lia|].
    intros mid Hm. destruct (decide (messageId c = mid)) as [<-|Hne]; [lia|].
    rewrite lookup_insert_ne in Hm by assumption. specialize (H2 mid Hm). lia.
  - unfold handleResponse.
    destruct (parseResponse dec data) as [r|?]; [|cbn; split; [split; auto | lia]].
    destruct (pendingRequests c !! r_messageId r) eqn:E;
      [|cbn; split; [split; auto | lia]].
    assert (Hd : below_counter
                   {| messageId := messageId c; token := token c;
                      pendingRequests := delete (r_messageId r) (pendingRequests c) |}).
    { split; cbn [messageId pendingRequests]; [exact H1|].
      intros mid Hm. apply H2.
      destruct (decide (r_messageId r = mid)) as [<-|Hne].
      - rewrite lookup_delete_eq in Hm. now destruct Hm.
      - now rewrite lookup_delete_ne in Hm. }
    destruct (r_code r / 32 =? 2); cbn [fst messageId]; split; (exact Hd || lia).
  - unfold timeout. destruct (pendingRequests c !! mid) eqn:E;
      cbn [fst messageId]; [|split; [split; auto | lia]].
    split; [|lia]. split; cbn [messageId pendingRequests]; [exact H1|].
    intros mid' Hm. apply H2.
    destruct (decide (mid = mid')) as [<-|Hne].
    + rewrite lookup_delete_eq in Hm. now destruct Hm.
    + now rewrite lookup_delete_ne in Hm.
Qed.

Lemma runFrom_counter enc dec conn ops : forall c,
  below_counter c ->
  below_counter (runFrom enc dec conn c ops) /\
  messageId (runFrom enc dec conn c ops) = messageId c + Z.of_nat (requestCount ops) /\
  allocated enc dec conn c ops = countFrom (messageId c) (requestCount ops).
Proof.
  induction ops as [|o ops IH]; intros c Hc; cbn [runFrom fold_left allocated].
  - unfold requestCount. cbn [List.filter length countFrom Z.of_nat].
    split; [exact Hc|]. split; [lia | reflexivity].
  - destruct (step_below_counter enc dec conn c o Hc) as [Hc' Hm].
    destruct (IH _ Hc') as (I1 & I2 & I3).
    fold (runFrom enc dec conn (step enc dec conn c o) ops).
    split; [exact I1|]. rewrite I2, I3, Hm.
    unfold requestCount. cbn [List.filter].
    destruct o; cbn [isRequest length countFrom]; split; try lia;
      rewrite ?Z.add_0_r; reflexivity.
Qed.

Lemma new_client_below : below_counter new_client.
Proof.
  split; cbn; [lia|]. intros mid [x Hx]. rewrite lookup_empty in Hx. discriminate.
Qed.

(** The message id [parseResponse] reads from a message of bytes fits
    16 bits, so [handleResponse] neither removes nor settles an entry
    numbered 65536 or more. *)
Lemma parsed_id_16_bits dec (data : list Z) (r : response) :
  Forall isByte data -> parseResponse dec data = Ok r ->
  0 <= r_messageId r < 65536.
Proof.
  intros HB H. unfold parseResponse in H.
  destruct (len data <? 4) eqn:E; [discriminate|].
  injection H as <-. cbn [r_messageId].
  destruct data as [|b0 [|b1 [|b2 [|b3 rest]]]];
    try (vm_compute in E; discriminate).
  apply Forall_cons in HB as [_ HB]. apply Forall_cons in HB as [_ HB].
  apply Forall_cons in HB as [H2 HB]. apply Forall_cons in HB as [H3 _].
  change (default 0 (get (b0 :: b1 :: b2 :: b3 :: rest) 2)) with b2.
  change (default 0 (get (b0 :: b1 :: b2 :: b3 :: rest) 3)) with b3.
  unfold isByte in H2, H3.
  rewrite bor_shl by (change (2 ^ 8) with 256; lia).
  change (2 ^ 8) with 256. lia.
Qed.

Lemma handleResponse_16_bits dec (c : client) (data : list Z) (mid : Z) :
  Forall isByte data -> 65536 <= mid ->
  pendingRequests (fst (handleResponse dec c data)) !! mid = pendingRequests c !! mid /\
  countIf (settles mid) (snd (handleResponse dec c data)) = 0%nat.
Proof.
  intros HB Hm. unfold handleResponse.
  destruct (parseResponse dec data) as [r|m] eqn:P; [|now split].
  pose proof (parsed_id_16_bits dec data r HB P) as Hr.
  destruct (pendingRequests c !! r_messageId r) as [p|]; [|now split].
  assert (Hne : (r_messageId r =? mid) = false) by (apply Z.eqb_neq; lia).
  destruct (r_code r / 32 =? 2); cbn [fst snd pendingRequests];
    (split; [apply lookup_delete_ne; lia|]);
    unfold countIf; cbn [List.filter settles]; now rewrite Hne.
Qed.

(** C6.  The counter is not a 16-bit counter.  It starts at 1 and is
    post-incremented without reduction: in every run of requests,
    responses and timers the requests are given the ids 1, 2, 3, ... in
    order, the counter ends as 1 plus the number of requests, the pending
    map is keyed by these unreduced ids, which lie in [1, counter), and
    [request] reports nothing but what the transport reports.  Only the
    two header bytes of a built message hold the id modulo 2^16, and the
    id [parseResponse] reads from a message of bytes is below 2^16: no
    response removes or settles a request numbered 65536 or more. *)
Theorem message_ids_count_up
    (cborEncode : jsval -> list Z) (cborDecode : list Z -> option jsval)
    (conn : connection) (ops : list op) :
  let c := run cborEncode cborDecode conn ops in
  allocated cborEncode cborDecode conn new_client ops = countFrom 1 (requestCount ops) /\
  messageId c = 1 + Z.of_nat (requestCount ops) /\
  (forall mid, is_Some (pendingRequests c !! mid) -> 1 <= mid < messageId c) /\
  pendingRequests c !! messageId c = None /\
  (forall method uri payload,
     snd (request cborEncode conn c method uri payload) =
       match sendBytes conn (createCoapFrame
               (buildMessage cborEncode method uri payload (messageId c))) with
       | Throw e => Throw e
       | Ok _ => Ok (messageId c)
       end) /\
  (forall method uri payload mid,
     exists hi lo rest,
       buildMessage cborEncode method uri payload mid = 0x40 :: to_uint8 method :: hi :: lo :: rest /\
       256 * hi + lo = mid mod 65536) /\
  (forall data mid,
     Forall isByte data -> 65536 <= mid ->
     pendingRequests (fst (handleResponse cborDecode c data)) !! mid =
       pendingRequests c !! mid /\
     countIf (settles mid) (snd (handleResponse cborDecode c data)) = 0%nat).
Proof.
  intros c.
  destruct (runFrom_counter cborEncode cborDecode conn ops new_client new_client_below)
    as ((_ & Hp) & Hm & Ha).
  fold (run cborEncode cborDecode conn ops) in Hp, Hm. fold c in Hp, Hm.
  cbn [messageId new_client] in Hm, Ha.
  split; [exact Ha|]. split; [exact Hm|]. split; [exact Hp|].
  split; [|split; [|split]].
  - destruct (pendingRequests c !! messageId c) eqn:E; [|reflexivity].
    specialize (Hp (messageId c) (ex_intro _ _ E)). lia.
  - intros method uri payload. unfold request.
    now destruct (sendBytes _ _).
  - intros method uri payload mid.
    rewrite buildMessage_shape.
    cbn [map app].
    eexists _, _, _. split; [reflexivity|].
    rewrite header_high_byte, header_low_byte. apply big_endian_16.
  - intros data mid. apply handleResponse_16_bits.
Qed.

Lemma requests_keep_pending enc dec conn method uri payload n : forall c mid,
  is_Some (pendingRequests c !! mid) ->
  is_Some (pendingRequests
             (runFrom enc dec conn c (repeat (OpRequest method uri payload) n)) !! mid).
Proof.
  induction n as [|n IH]; intros c mid H; [exact H|].
  cbn [repeat runFrom fold_left]. apply IH.
  cbn [step]. rewrite request_state. cbn [pendingRequests].
  destruct (decide (messageId c = mid)) as [->|Hd].
  - rewrite lookup_insert_eq. eauto.
  - now rewrite lookup_insert_ne.
Qed.

Lemma repeat_requests_pending enc dec conn method uri payload n : forall c mid,
  messageId c <= mid < messageId c + Z.of_nat n ->
  is_Some (pendingRequests
             (runFrom enc dec conn c (repeat (OpRequest method uri payload) n)) !! mid).
Proof.
  induction n as [|n IH]; intros c mid Hm; [lia|].
  cbn [repeat runFrom fold_left].
  fold (runFrom enc dec conn (step enc dec conn c (OpRequest method uri payload))
          (repeat (OpRequest method uri payload) n)).
  destruct (Z.eq_dec mid (messageId c)) as [->|Hne].
  - apply requests_keep_pending.
    cbn [step]. rewrite request_state. cbn [pendingRequests].
    rewrite lookup_insert_eq. eauto.
  - apply IH. cbn [step]. rewrite request_state. cbn [messageId]. lia.
Qed.

(** C6 at 65536 requests on a new client: the last request is stored
    under the key 65536, outside [0, 65535], while its header carries the
    id 0; the map has no entry 0, so the response that carries the id of
    that header is dropped and the request stays pending. *)
Lemma message_id_exceeds_16_bits :
  let get_a := OpRequest METHODS_GET (codes "/a") JNull in
  let c := run cbor_none_encode cbor_none_decode link_up
             (repeat get_a (Z.to_nat 65536)) in
  is_Some (pendingRequests c !! 65536) /\
  ~ (0 <= 65536 <= 65535) /\
  firstn 4 (buildMessage cbor_none_encode METHODS_GET (codes "/a") JNull 65536) =
    [0x40; 0x01; 0x00; 0x00] /\
  handleResponse cbor_none_decode c [0x60; 0x45; 0x00; 0x00] = (c, []).
Proof.
  cbv zeta. split; [|split; [lia | split; [vm_compute; reflexivity|]]].
  - apply repeat_requests_pending.
    cbn [messageId new_client]. lia.
  - destruct (runFrom_counter cbor_none_encode cbor_none_decode link_up
                (repeat (OpRequest METHODS_GET (codes "/a") JNull) (Z.to_nat 65536))
                new_client new_client_below) as ((_ & Hp) & _).
    unfold handleResponse.
    assert (E : parseResponse cbor_none_decode [0x60; 0x45; 0x00; 0x00] =
                Ok {| r_version := 1; r_type := 2; r_code := 0x45;
                      r_messageId := 0; r_token := 0; r_payload := JNull |})
      by (vm_compute; reflexivity).
    rewrite E. cbn [r_messageId].
    unfold run.
    destruct (pendingRequests _ !! 0) eqn:P; [|reflexivity].
    specialize (Hp 0 (ex_intro _ _ P)). lia.
Qed.

(** ** Registration and the transport *)

(** C8.  [request] records the pending entry and arms its timer before
    it calls the transport, so the entry is in the map whatever the
    transport does; the caller observes the transport's error when the
    write fails, and the promise of the allocated id otherwise.  The
    entry leaves the map when its timer fires, which rejects the promise
    with "Request timeout". *)
Theorem request_registers_before_send
    (cborEncode : jsval -> list Z) (conn : connection) (c : client)
    (method : Z) (uri : list Z) (payload : jsval) :
  let mid := messageId c in
  let frame := createCoapFrame (buildMessage cborEncode method uri payload mid) in
  let entry := {| meta_method := method; meta_uri := uri; meta_payload := payload |} in
  let r := request cborEncode conn c method uri payload in
  snd (fst r) = [Registered mid; TimerArmed mid 10000; Sent frame] /\
  pendingRequests (fst (fst r)) !! mid = Some entry /\
  snd r = match sendBytes conn frame with
          | Throw e => Throw e
          | Ok _ => Ok mid
          end /\
  timeout (fst (fst r)) mid =
    ({| messageId := mid + 1; token := token c;
        pendingRequests := delete mid (pendingRequests c) |},
     [Rejected mid {| message := "Request timeout"; code := None;
                      payload := None |}]).
Proof.
  intros mid frame entry r.
  assert (Hst : fst (fst r) =
                {| messageId := mid + 1; token := token c;
                   pendingRequests := <[mid := entry]> (pendingRequests c) |})
    by apply request_state.
  split; [|split; [|split]].
  - unfold r, request. fold mid. fold frame. now destruct (sendBytes conn frame).
  - rewrite Hst. cbn [pendingRequests]. apply lookup_insert_eq.
  - unfold r, request. fold mid. fold frame. now destruct (sendBytes conn frame).
  - rewrite Hst. unfold timeout. cbn [pendingRequests messageId token].
    rewrite lookup_insert_eq. now rewrite delete_insert_eq.
Qed.

(** C8, as stated, fails on the clean-up: when the write fails the caller
    sees the error and the entry is still pending. *)
Lemma failed_write_keeps_entry :
  let r := request cbor_none_encode (link_failing "write failed") new_client
             METHODS_GET (codes "/a") JNull in
  snd r = Throw "write failed" /\
  is_Some (pendingRequests (fst (fst r)) !! 1) /\
  pendingRequests (fst (fst r)) <> pendingRequests new_client.
Proof.
  cbv zeta. split; [vm_compute; reflexivity|].
  split.
  - rewrite request_state. cbn [pendingRequests messageId new_client].
    rewrite lookup_insert_eq. eauto.
  - rewrite request_state. cbn [pendingRequests messageId new_client].
    intros H. apply (f_equal (fun m => m !! 1)) in H.
    rewrite lookup_insert_eq, lookup_empty in H. discriminate.
Qed.

(** ** The event bus *)

Lemma table_on c e f e' :
  table (on c e f) e' = if decide (e = e') then table c e ++ [f] else table c e'.
Proof.
  unfold table, on. cbn [callbacks].
  destruct (decide (e = e')) as [<-|Hne].
  - now rewrite lookup_insert_eq.
  - now rewrite lookup_insert_ne.
Qed.

Lemma table_off c e f e' :
  table (off c e f) e' =
    if decide (e = e') then spliceFirst f (table c e) else table c e'.
Proof.
  unfold table, off.
  destruct (callbacks c !! e) as [cbs|] eqn:E; cbn [callbacks].
  - destruct (decide (e = e')) as [<-|Hne].
    + now rewrite lookup_insert_eq.
    + now rewrite lookup_insert_ne.
  - destruct (decide (e = e')) as [<-|Hne]; [now rewrite E | reflexivity].
Qed.

Lemma closures_off c e f : closures (off c e f) = closures c.
Proof. unfold off. now destruct (callbacks c !! e). Qed.

Lemma count_spliceFirst (f x : fn) (l : list fn) :
  count_occ fn_eq_dec (spliceFirst f l) x =
    if decide (x = f) then Nat.pred (count_occ fn_eq_dec l x)
    else count_occ fn_eq_dec l x.
Proof.
  induction l as [|g l IH]; cbn [spliceFirst count_occ].
  - now destruct (decide (x = f)).
  - destruct (decide (g = f)) as [->|Hgf].
    + destruct (fn_eq_dec f x) as [<-|Hfx].
      * destruct (decide (f = f)); [reflexivity | contradiction].
      * destruct (decide (x = f)) as [->|]; [contradiction | reflexivity].
    + cbn [count_occ]. rewrite IH.
      destruct (fn_eq_dec g x) as [->|Hgx].
      * destruct (decide (x = f)); [contradiction | reflexivity].
      * reflexivity.
Qed.





Lemma lookup_In (l : list fn) (k : nat) (f : fn) : l !! k = Some f -> In f l.
Proof.
  revert k. induction l as [|g l IH]; intros [|k] H; cbn in H; try discriminate.
  - injection H as ->. now left.
  - right. eauto.
Qed.



(** A delivery that ends in an exception ends at the call that threw:
    that function object is the last one called, and it is still
    subscribed. *)
Lemma forEach_throw throws e n : forall k c log,
  snd (forEach throws n k c e log) = true ->
  exists before f,
    snd (fst (forEach throws n k c e log)) = before ++ [f] /\
    fnThrows throws f = true /\
    In f (table (fst (fst (forEach throws n k c e log))) e).
Proof.
  induction n as [|n IH]; intros k c log H; cbn [forEach] in *; [discriminate|].
  fold (table c e) in *.
  destruct (table c e !! k) as [f|] eqn:E; [|now apply IH].
  destruct (call throws c f) as [c' threw] eqn:Ec.
  destruct threw; [|now apply IH].
  exists log, f. cbn [fst snd]. split; [reflexivity|].
  apply lookup_In in E.
  destruct f as [id|wid ev cb]; cbn [call] in Ec.
  - injection Ec as <- Ht. now split.
  - destruct (throws cb) eqn:Ht; [|discriminate].
    injection Ec as <-. now split.
Qed.








(** ** Instances *)

Lemma reassembler_cuts_witness :
  buffer link_up = [] /\ isByte COMMANDS_COAP /\ COMMANDS_COAP <> EOF /\
  Forall isByte [] /\ Forall isByte [0x41] /\
  Forall (fun b => b <> EOF) [] /\ [0x41] <> [] /\
  exists frame rest,
    snd (handleIncomingData link_up (encodeFrame COMMANDS_COAP ([] ++ EOF :: [0x41]))) =
      frame :: rest /\
    frame = slice (encodeFrame COMMANDS_COAP ([] ++ EOF :: [0x41])) 0
              (len (escapeData []) + 8) /\
    len frame = len (escapeData []) + 8 /\
    len frame < len (encodeFrame COMMANDS_COAP ([] ++ EOF :: [0x41])) /\
    frame <> encodeFrame COMMANDS_COAP ([] ++ EOF :: [0x41]).
Proof.
  assert (H1 : buffer link_up = []) by reflexivity.
  assert (H2 : isByte COMMANDS_COAP) by (unfold isByte, COMMANDS_COAP; lia).
  assert (H3 : COMMANDS_COAP <> EOF) by discriminate.
  assert (H4 : Forall isByte []) by constructor.
  assert (H5 : Forall isByte [0x41])
    by (constructor; [unfold isByte; lia | constructor]).
  assert (H6 : Forall (fun b => b <> EOF) []) by constructor.
  assert (H7 : [0x41] <> @nil Z) by discriminate.
  repeat (split; [assumption|]).
  exact (reassembler_cuts_at_escaped_EOF link_up COMMANDS_COAP [] [0x41]
           H1 H2 H3 H4 H5 H6 H7).
Defined.

(** C10, as worded for any payload with a byte 0x3C, fails on the
    one-byte payload: the real EOF is taken for the padding EOF and the
    slice handed on is the whole encoded frame. *)
Lemma single_escaped_EOF_whole_frame :
  let encoded := encodeFrame COMMANDS_COAP [0x3C] in
  In 0x3C [0x3C] /\
  escapeData [0x3C] = [0x5C; 0x3C] /\
  snd (handleIncomingData link_up encoded) = [encoded] /\
  ~ (exists frame rest,
       snd (handleIncomingData link_up encoded) = frame :: rest /\
       len frame < len encoded).
Proof.
  cbv zeta.
  assert (E : snd (handleIncomingData link_up (encodeFrame COMMANDS_COAP [0x3C])) =
              [encodeFrame COMMANDS_COAP [0x3C]]) by (vm_compute; reflexivity).
  split; [now left|]. split; [reflexivity|]. split; [exact E|].
  intros (frame & rest & H & Hlt). rewrite E in H.
  injection H as <- _. lia.
Qed.

Lemma message_ids_witness :
  let ops := [OpRequest METHODS_GET (codes "/a") JNull;
              OpRequest METHODS_GET (codes "/b") JNull] in
  let c := run cbor_none_encode cbor_none_decode link_up ops in
  is_Some (pendingRequests c !! 2) /\ 1 <= 2 < messageId c.
Proof.
  cbv zeta.
  assert (H : is_Some (pendingRequests
                (run cbor_none_encode cbor_none_decode link_up
                   [OpRequest METHODS_GET (codes "/a") JNull;
                    OpRequest METHODS_GET (codes "/b") JNull]) !! 2))
    by (vm_compute; eauto).
  split; [exact H|].
  exact (proj1 (proj2 (proj2 (message_ids_count_up cbor_none_encode cbor_none_decode
                                link_up _))) 2 H).
Defined.


(** * Further properties of the code *)

(** ** The frame codec *)

(** X1.  Whatever the data, the carry loop of [calculateChecksum] has left
    through its test after two rounds, the checksum is a 16-bit value, and
    [encodeFrame] and [decodeFrame] write it as exactly four characters
    out of 0-9 and A-F. *)
Theorem checksum_is_four_hex_chars (data : list Z) :
  sar (foldCarry 2 (sumWords 0 data)) 16 = 0 /\
  0 <= calculateChecksum data < 65536 /\
  exists a b c d,
    checksumStr (calculateChecksum data) = [a; b; c; d] /\
    isHexChar a = true /\ isHexChar b = true /\
    isHexChar c = true /\ isHexChar d = true.
Proof.
  split; [apply foldCarry_exits|].
  split; [apply calculateChecksum_range|].
  apply checksumStr_chars, calculateChecksum_range.
Qed.

(** X2.  For a type byte and a payload of bytes that has no 0x00 and no
    0x3C, is not empty and has an escaped form of even length, decoding the
    encoded frame gives the type and the payload back and reports no
    checksum mismatch. *)
Theorem frame_round_trip (t : Z) (p : list Z) :
  isByte t -> Forall isByte p ->
  Forall (fun b => b <> 0x00 /\ b <> EOF) p ->
  p <> [] -> len (escapeData p) mod 2 = 0 ->
  exists d, decodeFrame (encodeFrame t p) = Ok d /\
            type d = t /\ data d = p /\ checksum_ok d = true.
Proof. apply decode_encode_restricted. Qed.

Lemma frame_round_trip_witness :
  isByte COMMANDS_SYSTEM /\ Forall isByte (codes "info") /\
  Forall (fun b => b <> 0x00 /\ b <> EOF) (codes "info") /\
  codes "info" <> [] /\ len (escapeData (codes "info")) mod 2 = 0 /\
  exists d, decodeFrame (encodeFrame COMMANDS_SYSTEM (codes "info")) = Ok d /\
            type d = COMMANDS_SYSTEM /\ data d = codes "info" /\
            checksum_ok d = true.
Proof.
  assert (H1 : isByte COMMANDS_SYSTEM) by (unfold isByte, COMMANDS_SYSTEM; lia).
  assert (H2 : Forall isByte (codes "info"))
    by (cbn [codes];
        repeat (constructor; [vm_compute; split; [discriminate | reflexivity]|]);
        constructor).
  assert (H3 : Forall (fun b => b <> 0x00 /\ b <> EOF) (codes "info"))
    by (cbn [codes]; repeat (constructor; [split; discriminate|]); constructor).
  assert (H4 : codes "info" <> @nil Z) by discriminate.
  assert (H5 : len (escapeData (codes "info")) mod 2 = 0) by reflexivity.
  repeat (split; [assumption|]).
  exact (frame_round_trip COMMANDS_SYSTEM (codes "info") H1 H2 H3 H4 H5).
Defined.

(** X3.  [unescapeByte] changes one byte only: 0x46 becomes 0xFF and every
    other value, 0x30 included, is returned as it is.  So it undoes
    [ESCAPE_MAP] for the entries of 0xFF, 0x3E, 0x3C and 0x5C and not for
    the entry of 0x00, and a byte outside the map that follows an escape
    passes through. *)
Theorem unescapeByte_changes_only_F (x : Z) :
  unescapeByte x = (if x =? 0x46 then 0xFF else x) /\
  (forall b e, table_get ESCAPE_MAP b = Some e ->
     (unescapeByte e = b <-> b <> 0x00)).
Proof.
  split.
  - unfold unescapeByte, reverseMap. cbn [table_get].
    destruct (0x30 =? x) eqn:E1; [apply Z.eqb_eq in E1; subst; reflexivity|].
    destruct (0x46 =? x) eqn:E2; [apply Z.eqb_eq in E2; subst; reflexivity|].
    assert (H46 : (x =? 0x46) = false)
      by (apply Z.eqb_neq; apply Z.eqb_neq in E2; congruence).
    rewrite H46.
    destruct (0x3E =? x) eqn:E3; [apply Z.eqb_eq in E3; subst; reflexivity|].
    destruct (0x3C =? x) eqn:E4; [apply Z.eqb_eq in E4; subst; reflexivity|].
    destruct (0x5C =? x) eqn:E5; [apply Z.eqb_eq in E5; subst; reflexivity|].
    reflexivity.
  - intros b e H. unfold ESCAPE_MAP in H. cbn [table_get] in H.
    destruct (0x00 =? b) eqn:E0;
      [apply Z.eqb_eq in E0; subst; injection H as <-; split;
       [discriminate | intros Hn; now contradiction Hn]|].
    apply Z.eqb_neq in E0.
    destruct (0xFF =? b) eqn:E1;
      [apply Z.eqb_eq in E1; subst; injection H as <-; split; [discriminate | reflexivity]|].
    destruct (0x3E =? b) eqn:E2;
      [apply Z.eqb_eq in E2; subst; injection H as <-; split; [discriminate | reflexivity]|].
    destruct (0x3C =? b) eqn:E3;
      [apply Z.eqb_eq in E3; subst; injection H as <-; split; [discriminate | reflexivity]|].
    destruct (0x5C =? b) eqn:E4;
      [apply Z.eqb_eq in E4; subst; injection H as <-; split; [discriminate | reflexivity]|].
    discriminate.
Qed.

Lemma len_escapeData_bounds data :
  len data <= len (escapeData data) <= 2 * len data.
Proof.
  induction data as [|b data IH]; [unfold len; cbn [escapeData flat_map length]; lia|].
  cbn [escapeData flat_map]. fold (escapeData data).
  rewrite len_app, len_cons.
  assert (H : 1 <= len (escapeByte b) <= 2)
    by (destruct (escapeByte_cases b) as [[-> _]|(e & -> & _)];
        unfold len; cbn [length]; lia).
  lia.
Qed.

Lemma to_uint8_byte x : isByte (to_uint8 x).
Proof. unfold isByte, to_uint8. apply Z.mod_pos_bound. lia. Qed.

Lemma map_to_uint8_isByte (l : list Z) : Forall isByte (map to_uint8 l).
Proof.
  induction l as [|x l IH]; cbn [map]; constructor;
    [apply to_uint8_byte | exact IH].
Qed.

(** X4.  An encoded frame is the SOF, the type byte, the escaped payload,
    one EOF, a second EOF exactly when the escaped payload has odd
    length, and the four characters of the checksum of all that, which
    are out of 0-9 and A-F; everything is stored as a byte.  In the
    escaped payload 0x00 is written as 5C 30, 0xFF as 5C 46, each of 0x3E,
    0x3C and 0x5C as 5C followed by itself, and every other value as
    itself, so that it has between one and two bytes per payload byte.
    With escaped length [L] the frame has [L + 7 + L mod 2] bytes, so its
    length is always odd. *)
Theorem encodeFrame_layout (t : Z) (data : list Z) :
  let L := len (escapeData data) in
  let pad := if L mod 2 =? 1 then [EOF] else [] in
  let body := [SOF; t] ++ escapeData data ++ [EOF] ++ pad in
  (exists a b c d,
     encodeFrame t data = map to_uint8 body ++ [a; b; c; d] /\
     checksumStr (calculateChecksum body) = [a; b; c; d] /\
     isHexChar a = true /\ isHexChar b = true /\
     isHexChar c = true /\ isHexChar d = true) /\
  escapeData data = concat (map escapeByte data) /\
  (forall b,
     escapeByte b =
       if b =? 0x00 then [0x5C; 0x30]
       else if b =? 0xFF then [0x5C; 0x46]
       else if (b =? 0x3E) || (b =? 0x3C) || (b =? 0x5C) then [0x5C; b]
       else [b]) /\
  len (encodeFrame t data) = L + 7 + L mod 2 /\
  len (encodeFrame t data) mod 2 = 1 /\
  len data <= L <= 2 * len data /\
  Forall isByte (encodeFrame t data) /\
  get (encodeFrame t data) 0 = Some SOF /\
  get (encodeFrame t data) 1 = Some (to_uint8 t).
Proof.
  intros L pad body.
  pose proof (Z.mod_pos_bound L 2 ltac:(lia)) as HB.
  pose proof (Z.div_mod L 2 ltac:(lia)) as HD.
  assert (Hfr : (if len (framed t data) mod 2 =? 0
                 then framed t data ++ [EOF] else framed t data) = body).
  { rewrite len_framed. fold L. unfold body, pad, framed.
    pose proof (Z.mod_pos_bound (3 + L) 2 ltac:(lia)) as HB3.
    pose proof (Z.div_mod (3 + L) 2 ltac:(lia)) as HD3.
    destruct ((3 + L) mod 2 =? 0) eqn:E3;
      [apply Z.eqb_eq in E3 | apply Z.eqb_neq in E3];
      (destruct (L mod 2 =? 1) eqn:E1;
        [apply Z.eqb_eq in E1 | apply Z.eqb_neq in E1]); try lia.
    - now rewrite <- !app_assoc.
    - now rewrite app_nil_r. }
  assert (Henc : encodeFrame t data =
                 map to_uint8 body ++ checksumStr (calculateChecksum body)).
  { unfold encodeFrame. fold (framed t data). rewrite Hfr, map_app. f_equal.
    apply map_to_uint8_bytes, checksumStr_bytes, calculateChecksum_range. }
  pose proof (calculateChecksum_range body) as HR.
  destruct (checksumStr_chars _ HR) as (a & b & c & d & Hcs & Ha & Hb & Hc & Hd).
  assert (Hlb : len body = L + 3 + L mod 2).
  { unfold body, pad. rewrite !len_app. fold L.
    change (len [SOF; t]) with 2. change (len [EOF]) with 1.
    destruct (L mod 2 =? 1) eqn:E1;
      [apply Z.eqb_eq in E1; change (len [EOF]) with 1
      | apply Z.eqb_neq in E1; change (len (@nil Z)) with 0]; lia. }
  assert (Hlen : len (encodeFrame t data) = L + 7 + L mod 2).
  { rewrite Henc, Hcs, len_app. unfold len at 1. rewrite length_map.
    fold (len body). rewrite Hlb. unfold len. cbn [length]. lia. }
  split; [exists a, b, c, d; rewrite Henc, Hcs; auto 10|].
  split; [unfold escapeData; apply flat_map_concat_map|].
  split.
  { intros x. unfold escapeByte, needsEscape, ESCAPE_MAP, ESCAPE.
    destruct (x =? 0) eqn:E0; [apply Z.eqb_eq in E0; now rewrite E0|].
    destruct (x =? 255) eqn:E1; [apply Z.eqb_eq in E1; now rewrite E1|].
    destruct (x =? 62) eqn:E2; [apply Z.eqb_eq in E2; now rewrite E2|].
    destruct (x =? 60) eqn:E3; [apply Z.eqb_eq in E3; now rewrite E3|].
    destruct (x =? 92) eqn:E4; [apply Z.eqb_eq in E4; now rewrite E4|].
    reflexivity. }
  split; [exact Hlen|].
  split; [|split; [apply len_escapeData_bounds|split; [|split]]].
  - rewrite Hlen.
    replace (L + 7 + L mod 2) with (1 + (L / 2 + L mod 2 + 3) * 2) by lia.
    rewrite Z.mod_add by lia. reflexivity.
  - unfold encodeFrame. apply map_to_uint8_isByte.
  - rewrite Henc. reflexivity.
  - rewrite Henc. reflexivity.
Qed.

Lemma length_decodeLoop bytes : forall escaping acc,
  (length (decodeLoop bytes escaping acc) <= length acc + length bytes)%nat.
Proof.
  induction bytes as [|b bytes IH]; intros escaping acc; cbn [decodeLoop length];
    [lia|].
  destruct (b =? EOF); [lia|].
  destruct escaping.
  - specialize (IH false (acc ++ [unescapeByte b])).
    rewrite length_app in IH. cbn [length] in IH. lia.
  - destruct (b =? ESCAPE).
    + specialize (IH true acc). lia.
    + specialize (IH false (acc ++ [b])).
      rewrite length_app in IH. cbn [length] in IH. lia.
Qed.

(** X5.  [decodeFrame] throws in two cases only: 'Frame too short' for
    fewer than 8 bytes, and 'Invalid start of frame' for 8 bytes or more
    whose first is not the SOF.  Every other buffer decodes, a checksum
    mismatch included; the type is the second byte, the payload has at
    most [length - 6] bytes and the checksum has four characters. *)
Theorem decodeFrame_outcomes (buffer : list Z) :
  match decodeFrame buffer with
  | Throw m =>
      (m = "Frame too short"%string /\ len buffer < 8) \/
      (m = "Invalid start of frame"%string /\ 8 <= len buffer /\
       get buffer 0 <> Some SOF)
  | Ok d =>
      8 <= len buffer /\ get buffer 0 = Some SOF /\
      type d = get_char buffer 1 /\
      len (data d) <= len buffer - 6 /\
      length (checksum d) = 4%nat
  end.
Proof.
  unfold decodeFrame.
  destruct (len buffer <? 8) eqn:E8;
    [apply Z.ltb_lt in E8; left; now split|].
  apply Z.ltb_ge in E8.
  unfold get_is at 1.
  destruct (get buffer 0) as [x|] eqn:G0.
  - destruct (x =? SOF) eqn:Ex; cbn [negb].
    + apply Z.eqb_eq in Ex. subst x.
      cbn [type data checksum length].
      repeat split; try assumption; try reflexivity.
      pose proof (length_decodeLoop (slice buffer 2 (len buffer - 4)) false []) as HL.
      pose proof (len_slice buffer 2 (len buffer - 4) ltac:(lia) ltac:(lia)) as HS.
      unfold len in *. cbn [length] in HL. lia.
    + apply Z.eqb_neq in Ex. right. repeat split; try assumption.
      intros H. injection H as ->. contradiction.
  - cbn [negb]. right. repeat split; try assumption. discriminate.
Qed.

(** ** The reassembler, further *)

Lemma extractFrames_reassemble fuel buffer acc :
  (length buffer < fuel)%nat ->
  extractFrames fuel buffer acc =
    (fst (reassemble buffer), acc ++ snd (reassemble buffer)).
Proof.
  intros H. unfold reassemble.
  replace fuel with (S (length buffer) + (fuel - S (length buffer)))%nat by lia.
  rewrite extractFrames_fuel by lia. apply extractFrames_acc.
Qed.

Lemma handleIncomingData_reassemble conn bytes :
  handleIncomingData conn bytes =
    ({| writable := writable conn; writer_write := writer_write conn;
        buffer := fst (reassemble (buffer conn ++ bytes)) |},
     snd (reassemble (buffer conn ++ bytes))).
Proof.
  unfold handleIncomingData, reassemble.
  now destruct (extractFrames _ _ _).
Qed.

(** One round of the loop, as an equation on [reassemble]. *)
Lemma reassemble_step (B : list Z) :
  let s := indexOf B 0x3E 0 in
  let e := indexOf B 0x3C s in
  let ce := if get_is B (e + 1) 0x3C then e + 6 else e + 5 in
  reassemble B =
    if (s =? -1) || (e =? -1) || (len B <? ce) then (B, [])
    else (fst (reassemble (slice_from B ce)),
          slice B s ce :: snd (reassemble (slice_from B ce))).
Proof.
  intros s e ce. unfold reassemble at 1. cbn [extractFrames].
  fold s. destruct (s =? -1) eqn:E1; [reflexivity|]. fold e.
  destruct (e =? -1) eqn:E2; [reflexivity|]. fold ce.
  destruct (len B <? ce) eqn:E3; [reflexivity|]. cbn [orb].
  apply Z.eqb_neq in E1, E2. apply Z.ltb_ge in E3.
  destruct (indexOf_range B 0x3E 0 ltac:(lia)) as [?|R1]; [contradiction|].
  fold s in R1.
  destruct (indexOf_range B 0x3C s ltac:(lia)) as [?|R2]; [contradiction|].
  fold e in R2.
  assert (5 <= ce) by (subst ce; destruct (get_is _ _ _); lia).
  pose proof (length_slice_from B ce ltac:(lia)) as HL.
  rewrite extractFrames_reassemble by (unfold len in *; lia).
  reflexivity.
Qed.

Lemma indexOf_from_app (x : Z) (l C : list Z) : forall i,
  indexOf_from x l i <> -1 ->
  indexOf_from x (l ++ C) i = indexOf_from x l i.
Proof.
  induction l as [|y l IH]; intros i H; cbn [indexOf_from app] in *;
    [contradiction|].
  destruct (y =? x); [reflexivity | now apply IH].
Qed.

Lemma indexOf_app (B C : list Z) (x from : Z) :
  indexOf B x from <> -1 -> indexOf (B ++ C) x from = indexOf B x from.
Proof.
  unfold indexOf. intros H.
  destruct (le_lt_dec (Z.to_nat from) (length B)) as [Hle|Hgt].
  - rewrite skipn_app.
    replace (Z.to_nat from - length B)%nat with 0%nat by lia.
    change (drop 0 C) with C.
    now apply indexOf_from_app.
  - rewrite skipn_all2 in H by lia. cbn in H. contradiction.
Qed.

Lemma get_app_l (B C : list Z) (i : Z) :
  i < len B -> get (B ++ C) i = get B i.
Proof.
  intros H. unfold get. destruct (i <? 0) eqn:E; [reflexivity|].
  apply Z.ltb_ge in E. unfold len in H.
  apply nth_error_app1. lia.
Qed.

Lemma slice_app_l (B C : list Z) (a b : Z) :
  0 <= a <= b -> b <= len B -> slice (B ++ C) a b = slice B a b.
Proof.
  intros H1 H2. unfold slice, rel_index. rewrite len_app.
  pose proof (len_nonneg C).
  destruct (a <? 0) eqn:Ea; [apply Z.ltb_lt in Ea; lia|].
  destruct (b <? 0) eqn:Eb; [apply Z.ltb_lt in Eb; lia|].
  rewrite !Z.min_l by lia.
  unfold len in *.
  rewrite skipn_app, firstn_app, length_skipn.
  replace (Z.to_nat (b - a) - (length B - Z.to_nat a))%nat with 0%nat by lia.
  change (take 0 (drop (Z.to_nat a - length B) C)) with (@nil Z).
  apply app_nil_r.
Qed.

Lemma slice_from_app (B C : list Z) (a : Z) :
  0 <= a <= len B -> slice_from (B ++ C) a = slice_from B a ++ C.
Proof.
  intros H. unfold slice_from, slice, rel_index. rewrite len_app.
  pose proof (len_nonneg C). pose proof (len_nonneg B).
  destruct (a <? 0) eqn:Ea; [apply Z.ltb_lt in Ea; lia|].
  destruct (len B + len C <? 0) eqn:E1; [apply Z.ltb_lt in E1; lia|].
  destruct (len B <? 0) eqn:E2; [apply Z.ltb_lt in E2; lia|].
  rewrite !Z.min_l by lia.
  unfold len in *.
  rewrite !firstn_all2 by (rewrite length_skipn, ?length_app; lia).
  rewrite skipn_app.
  replace (Z.to_nat a - length B)%nat with 0%nat by lia.
  reflexivity.
Qed.

Lemma reassemble_app_ind (n : nat) : forall B C,
  (length B <= n)%nat ->
  reassemble (B ++ C) =
    (fst (reassemble (fst (reassemble B) ++ C)),
     snd (reassemble B) ++ snd (reassemble (fst (reassemble B) ++ C))).
Proof.
  induction n as [|n IH]; intros B C Hn.
  - destruct B; [|cbn in Hn; lia].
    change (reassemble []) with (@nil Z, @nil (list Z)). cbn [fst snd app].
    now destruct (reassemble C).
  - pose proof (reassemble_step B) as SB. cbv zeta in SB.
    set (s := indexOf B 0x3E 0) in *.
    set (e := indexOf B 0x3C s) in *.
    set (ce := if get_is B (e + 1) 0x3C then e + 6 else e + 5) in *.
    destruct ((s =? -1) || (e =? -1) || (len B <? ce)) eqn:Brk.
    + rewrite SB. cbn [fst snd app]. now destruct (reassemble (B ++ C)).
    + apply orb_false_iff in Brk as [Brk E3].
      apply orb_false_iff in Brk as [E1 E2].
      apply Z.eqb_neq in E1, E2. apply Z.ltb_ge in E3.
      destruct (indexOf_range B 0x3E 0 ltac:(lia)) as [?|R1]; [contradiction|].
      fold s in R1.
      destruct (indexOf_range B 0x3C s ltac:(lia)) as [?|R2]; [contradiction|].
      fold e in R2.
      assert (Hce : e + 5 <= ce <= e + 6) by (subst ce; destruct (get_is _ _ _); lia).
      pose proof (reassemble_step (B ++ C)) as SBC. cbv zeta in SBC.
      rewrite (indexOf_app B C 0x3E 0) in SBC by (fold s; lia). fold s in SBC.
      rewrite (indexOf_app B C 0x3C s) in SBC by (fold e; lia). fold e in SBC.
      assert (Hg : get_is (B ++ C) (e + 1) 0x3C = get_is B (e + 1) 0x3C)
        by (unfold get_is; rewrite get_app_l by lia; reflexivity).
      rewrite Hg in SBC. fold ce in SBC.
      assert (Hbrk : (s =? -1) || (e =? -1) || (len (B ++ C) <? ce) = false).
      { apply orb_false_iff. split; [apply orb_false_iff; split|].
        - now apply Z.eqb_neq.
        - now apply Z.eqb_neq.
        - apply Z.ltb_ge. rewrite len_app. pose proof (len_nonneg C). lia. }
      rewrite Hbrk in SBC.
      rewrite slice_app_l, slice_from_app in SBC by lia.
      rewrite SBC, SB. cbn [fst snd].
      pose proof (length_slice_from B ce ltac:(lia)) as HL.
      rewrite (IH (slice_from B ce) C) by (unfold len in *; lia).
      cbn [fst snd]. reflexivity.
Qed.

(** X6.  Feeding the reassembler a chunk and then another gives the same
    frames, in the same order, and leaves the same buffer as feeding it
    the two chunks as one: how the stream is cut into reads does not
    matter. *)
Theorem handleIncomingData_chunks (conn : connection) (a b : list Z) :
  let r1 := handleIncomingData conn a in
  let r2 := handleIncomingData (fst r1) b in
  handleIncomingData conn (a ++ b) = (fst r2, snd r1 ++ snd r2).
Proof.
  cbv zeta. rewrite !handleIncomingData_reassemble.
  cbn [fst snd buffer writable writer_write].
  rewrite app_assoc.
  rewrite (reassemble_app_ind (length (buffer conn ++ a)) (buffer conn ++ a) b)
    by lia.
  reflexivity.
Qed.

Lemma get_slice (B : list Z) (a b i : Z) :
  0 <= a <= b -> b <= len B -> 0 <= i < b - a ->
  get (slice B a b) i = get B (a + i).
Proof.
  intros H1 H2 H3. unfold slice, rel_index.
  destruct (a <? 0) eqn:Ea; [apply Z.ltb_lt in Ea; lia|].
  destruct (b <? 0) eqn:Eb; [apply Z.ltb_lt in Eb; lia|].
  rewrite !Z.min_l by lia. unfold get.
  destruct (i <? 0) eqn:Ei; [apply Z.ltb_lt in Ei; lia|].
  destruct (a + i <? 0) eqn:Eai; [apply Z.ltb_lt in Eai; lia|].
  rewrite nth_error_firstn.
  destruct (Z.to_nat i <? Z.to_nat (b - a))%nat eqn:El;
    [|apply Nat.ltb_ge in El; lia].
  rewrite nth_error_skipn. f_equal. lia.
Qed.

Lemma get_indexOf_from (x : Z) (l : list Z) : forall i,
  0 <= i -> indexOf_from x l i <> -1 ->
  nth_error l (Z.to_nat (indexOf_from x l i - i)) = Some x.
Proof.
  induction l as [|y l IH]; intros i Hi H; cbn [indexOf_from] in *;
    [contradiction|].
  destruct (y =? x) eqn:E.
  - apply Z.eqb_eq in E. subst. now rewrite Z.sub_diag.
  - destruct (indexOf_from_range x l (i + 1)) as [?|R]; [contradiction|].
    replace (Z.to_nat (indexOf_from x l (i + 1) - i))
      with (S (Z.to_nat (indexOf_from x l (i + 1) - (i + 1)))) by lia.
    cbn [nth_error]. apply IH; [lia | assumption].
Qed.

Lemma get_indexOf (B : list Z) (x from : Z) :
  0 <= from -> indexOf B x from <> -1 -> get B (indexOf B x from) = Some x.
Proof.
  intros Hf H. destruct (indexOf_range B x from Hf) as [?|R]; [contradiction|].
  unfold get. destruct (indexOf B x from <? 0) eqn:E; [apply Z.ltb_lt in E; lia|].
  unfold indexOf in *. rewrite Z.max_l in * by lia.
  pose proof (get_indexOf_from x (skipn (Z.to_nat from) B) from Hf H) as G.
  rewrite nth_error_skipn in G. rewrite <- G. f_equal. lia.
Qed.

Lemma reassemble_frames_ind (n : nat) : forall B,
  (length B <= n)%nat ->
  Forall (fun f => get f 0 = Some SOF /\ 6 <= len f /\
                   get f (len f - 5) = Some EOF)
         (snd (reassemble B)).
Proof.
  induction n as [|n IH]; intros B Hn.
  - destruct B; [|cbn in Hn; lia]. constructor.
  - pose proof (reassemble_step B) as SB. cbv zeta in SB.
    set (s := indexOf B 0x3E 0) in *.
    set (e := indexOf B 0x3C s) in *.
    set (ce := if get_is B (e + 1) 0x3C then e + 6 else e + 5) in *.
    destruct ((s =? -1) || (e =? -1) || (len B <? ce)) eqn:Brk;
      rewrite SB; cbn [snd]; [constructor|].
    apply orb_false_iff in Brk as [Brk E3].
    apply orb_false_iff in Brk as [E1 E2].
    apply Z.eqb_neq in E1, E2. apply Z.ltb_ge in E3.
    destruct (indexOf_range B 0x3E 0 ltac:(lia)) as [?|R1]; [contradiction|].
    fold s in R1.
    destruct (indexOf_range B 0x3C s ltac:(lia)) as [?|R2]; [contradiction|].
    fold e in R2.
    pose proof (get_indexOf B 0x3E 0 ltac:(lia) E1) as Gs. fold s in Gs.
    pose proof (get_indexOf B 0x3C s ltac:(lia) E2) as Ge. fold e in Ge.
    assert (Hse : s < e).
    { destruct (Z.eq_dec s e) as [Heq|]; [|lia].
      rewrite Heq, Ge in Gs. discriminate. }
    assert (Hce : e + 5 <= ce <= e + 6 /\ get B (ce - 5) = Some EOF).
    { subst ce. unfold get_is. destruct (get B (e + 1)) as [y|] eqn:G1.
      - destruct (y =? 0x3C) eqn:Ey.
        + apply Z.eqb_eq in Ey. subst y.
          split; [lia|]. replace (e + 6 - 5) with (e + 1) by lia. exact G1.
        + split; [lia|]. replace (e + 5 - 5) with e by lia. exact Ge.
      - split; [lia|]. replace (e + 5 - 5) with e by lia. exact Ge. }
    destruct Hce as [Hce G5].
    pose proof (len_slice B s ce ltac:(lia) ltac:(lia)) as Lf.
    constructor.
    + split; [|split].
      * rewrite get_slice by lia. now rewrite Z.add_0_r.
      * lia.
      * rewrite Lf, get_slice by lia.
        replace (s + (ce - s - 5)) with (ce - 5) by lia. exact G5.
    + apply IH. pose proof (length_slice_from B ce ltac:(lia)) as HL.
      unfold len in *. lia.
Qed.

(** X7.  Every frame the reassembler hands to the data callback starts
    with the SOF, has at least six bytes, and has a 0x3C as its fifth byte
    from the end: the loop takes the four bytes after the EOF (or after a
    second EOF) as the checksum.  Frames of six or seven bytes can so
    be handed on, which [decodeFrame] refuses. *)
Theorem delivered_frames_shape (conn : connection) (bytes : list Z) :
  Forall (fun f => get f 0 = Some SOF /\ 6 <= len f /\
                   get f (len f - 5) = Some EOF)
         (snd (handleIncomingData conn bytes)).
Proof.
  rewrite handleIncomingData_reassemble. cbn [snd].
  now apply (reassemble_frames_ind (length (buffer conn ++ bytes))).
Qed.

Lemma slice_from_skipn (B : list Z) (a : Z) :
  0 <= a <= len B -> slice_from B a = skipn (Z.to_nat a) B.
Proof.
  intros H. unfold slice_from, slice, rel_index.
  pose proof (len_nonneg B).
  destruct (a <? 0) eqn:Ea; [apply Z.ltb_lt in Ea; lia|].
  destruct (len B <? 0) eqn:E2; [apply Z.ltb_lt in E2; lia|].
  rewrite !Z.min_l by lia. unfold len in *.
  apply firstn_all2. rewrite length_skipn. lia.
Qed.

Lemma reassemble_conserves_ind (n : nat) : forall B,
  (length B <= n)%nat ->
  (exists consumed,
     B = consumed ++ fst (reassemble B) /\
     len (concat (snd (reassemble B))) <= len consumed) /\
  (snd (reassemble B) = [] -> fst (reassemble B) = B).
Proof.
  induction n as [|n IH]; intros B Hn.
  - destruct B; [|cbn in Hn; lia].
    change (reassemble []) with (@nil Z, @nil (list Z)). cbn [fst snd].
    split; [exists []; split; [reflexivity | unfold len; cbn [concat length]; lia]
           | reflexivity].
  - pose proof (reassemble_step B) as SB. cbv zeta in SB.
    set (s := indexOf B 0x3E 0) in *.
    set (e := indexOf B 0x3C s) in *.
    set (ce := if get_is B (e + 1) 0x3C then e + 6 else e + 5) in *.
    destruct ((s =? -1) || (e =? -1) || (len B <? ce)) eqn:Brk;
      rewrite SB; cbn [fst snd].
    { split; [exists []; split; [reflexivity | unfold len; cbn [concat length]; lia]
             | reflexivity]. }
    apply orb_false_iff in Brk as [Brk E3].
    apply orb_false_iff in Brk as [E1 E2].
    apply Z.eqb_neq in E1, E2. apply Z.ltb_ge in E3.
    destruct (indexOf_range B 0x3E 0 ltac:(lia)) as [?|R1]; [contradiction|].
    fold s in R1.
    destruct (indexOf_range B 0x3C s ltac:(lia)) as [?|R2]; [contradiction|].
    fold e in R2.
    assert (Hce : e + 5 <= ce <= e + 6) by (subst ce; destruct (get_is _ _ _); lia).
    pose proof (length_slice_from B ce ltac:(lia)) as HL.
    destruct (IH (slice_from B ce) ltac:(unfold len in *; lia))
      as [(consumed & Hc & Hlen) _].
    split; [|discriminate].
    exists (firstn (Z.to_nat ce) B ++ consumed). split.
    + rewrite <- app_assoc, <- Hc, slice_from_skipn by lia.
      symmetry. apply firstn_skipn.
    + cbn [concat]. rewrite !len_app.
      pose proof (len_slice B s ce ltac:(lia) ltac:(lia)) as Lf.
      assert (len (firstn (Z.to_nat ce) B) = ce)
        by (unfold len in *; rewrite length_firstn; lia).
      lia.
Qed.

Lemma indexOf_absent (B : list Z) (x : Z) : ~ In x B -> indexOf B x 0 = -1.
Proof.
  intros H. destruct (Z.eq_dec (indexOf B x 0) (-1)) as [E|E]; [exact E|].
  exfalso. apply H.
  pose proof (get_indexOf B x 0 ltac:(lia) E) as G.
  unfold get in G. destruct (_ <? 0); [discriminate|].
  now apply nth_error_In in G.
Qed.

(** X8.  The reassembler only drops bytes when it hands on a frame: what
    it keeps is a suffix of the old buffer followed by the new bytes, the
    frames together are no longer than what was consumed, and when no
    frame is handed on the whole input stays buffered.  In particular
    bytes without any SOF are never discarded. *)
Theorem reassembler_conserves (conn : connection) (bytes : list Z) :
  let r := handleIncomingData conn bytes in
  (exists consumed,
     buffer conn ++ bytes = consumed ++ buffer (fst r) /\
     len (concat (snd r)) <= len consumed) /\
  (snd r = [] -> buffer (fst r) = buffer conn ++ bytes) /\
  (~ In 0x3E (buffer conn ++ bytes) -> snd r = []).
Proof.
  cbv zeta. rewrite handleIncomingData_reassemble. cbn [fst snd buffer].
  destruct (reassemble_conserves_ind (length (buffer conn ++ bytes))
              (buffer conn ++ bytes) (le_n _)) as [H1 H2].
  split; [exact H1|]. split; [exact H2|].
  intros Hno. rewrite reassemble_step. cbv zeta.
  now rewrite (indexOf_absent _ _ Hno).
Qed.

(** ** The CoAP client, further *)

Lemma parseResponse_fields dec (b0 code hi lo : Z) (rest : list Z) :
  exists r, parseResponse dec (b0 :: code :: hi :: lo :: rest) = Ok r /\
            r_version r = band (sar b0 6) 0x03 /\
            r_type r = band (sar b0 4) 0x03 /\
            r_code r = code /\
            r_messageId r = bor (shl hi 8) lo.
Proof.
  unfold parseResponse.
  destruct (len (b0 :: code :: hi :: lo :: rest) <? 4) eqn:E.
  - apply Z.ltb_lt in E. rewrite !len_cons in E. pose proof (len_nonneg rest). lia.
  - eexists. split; [reflexivity|]. repeat split.
Qed.

Lemma parseResponse_body dec (code hi lo : Z) (body : list Z) :
  parseResponse dec ([0x60; code; hi; lo; 0xFF] ++ body) =
    Ok {| r_version := 1; r_type := 2; r_code := code;
          r_messageId := bor (shl hi 8) lo; r_token := 0;
          r_payload := bodyPayload dec body |}.
Proof.
  unfold parseResponse.
  assert (Hlen : len ([0x60; code; hi; lo; 0xFF] ++ body) = 5 + len body)
    by (rewrite len_app; reflexivity).
  pose proof (len_nonneg body) as Hb.
  rewrite Hlen.
  destruct (5 + len body <? 4) eqn:E; [apply Z.ltb_lt in E; lia|].
  assert (Hidx : indexOf ([0x60; code; hi; lo; 0xFF] ++ body) 0xFF
                   (4 + band (default 0 (get ([0x60; code; hi; lo; 0xFF] ++ body) 0)) 0x0F)
                 = 4) by reflexivity.
  rewrite Hidx. cbn [Z.eqb].
  change (4 =? -1) with false. cbn iota.
  f_equal.
  assert (Hp : (if 4 + 1 <? 5 + len body
                then match dec (slice_from ([0x60; code; hi; lo; 0xFF] ++ body) (4 + 1)) with
                     | Some v => v
                     | None => JBytes (slice_from ([0x60; code; hi; lo; 0xFF] ++ body) (4 + 1))
                     end
                else JNull) = bodyPayload dec body).
  { destruct body as [|x body].
    - change (len []) with 0. reflexivity.
    - destruct (4 + 1 <? 5 + len (x :: body)) eqn:E5;
        [|apply Z.ltb_ge in E5; rewrite len_cons in E5; pose proof (len_nonneg body); lia].
      assert (Hs : slice_from ([0x60; code; hi; lo; 0xFF] ++ x :: body) (4 + 1) = x :: body).
      { unfold slice_from. rewrite Hlen.
        pose proof (slice_middle [0x60; code; hi; lo; 0xFF] (x :: body) []) as S.
        rewrite app_nil_r in S. exact S. }
      rewrite Hs. reflexivity. }
  rewrite Hp. reflexivity.
Qed.

(** X9.  Parsing a built message gives back its header: version 1, type 0
    (confirmable), the method byte as code and the message id modulo
    2^16; this is what lets a response be matched to its request. *)
Theorem parse_built_header
    (cborEncode : jsval -> list Z) (cborDecode : list Z -> option jsval)
    (method : Z) (uri : list Z) (payload : jsval) (mid : Z) :
  exists r,
    parseResponse cborDecode (buildMessage cborEncode method uri payload mid) = Ok r /\
    r_version r = 1 /\ r_type r = 0 /\
    r_code r = method mod 256 /\
    r_messageId r = mid mod 65536.
Proof.
  rewrite buildMessage_shape. cbn [app map].
  destruct (parseResponse_fields cborDecode (to_uint8 0x40) (to_uint8 method)
              (to_uint8 (band (sar mid 8) 0xFF)) (to_uint8 (band mid 0xFF))
              (map to_uint8 (encodeOptions uri ++
                 (if truthy payload then 0xFF :: cborEncode payload else []))))
    as (r & Hr & Hv & Ht & Hc & Hm).
  exists r. split; [exact Hr|].
  split; [rewrite Hv; reflexivity|]. split; [rewrite Ht; reflexivity|].
  split; [exact Hc|].
  rewrite Hm, header_high_byte, header_low_byte.
  rewrite bor_shl; [| lia | apply Z.mod_pos_bound; lia
                    | change (2 ^ 8) with 256; apply Z.mod_pos_bound; lia].
  change (2 ^ 8) with 256. rewrite <- big_endian_16. lia.
Qed.

(** X10.  A request followed by a response that carries its message id
    (below 2^16) settles that request in the same call and takes its
    entry out of the pending map: with a code of class 2 the promise is
    resolved with the decoded payload (the raw bytes if decoding throws,
    null if there is none), with any other code it is rejected with an
    error carrying the code and the payload. *)
Theorem response_settles_request
    (cborEncode : jsval -> list Z) (cborDecode : list Z -> option jsval)
    (conn : connection) (c : client)
    (method : Z) (uri : list Z) (payload : jsval) (code : Z) (body : list Z) :
  0 <= messageId c < 65536 ->
  let mid := messageId c in
  let c1 := fst (fst (request cborEncode conn c method uri payload)) in
  handleResponse cborDecode c1 ([0x60; code; mid / 256; mid mod 256; 0xFF] ++ body) =
    ({| messageId := mid + 1; token := token c;
        pendingRequests := delete mid (pendingRequests c) |},
     [settlement mid code (bodyPayload cborDecode body)]).
Proof.
  intros Hmid mid c1. unfold c1. rewrite request_state. fold mid.
  unfold handleResponse. rewrite parseResponse_body.
  cbn [r_messageId r_code r_payload pendingRequests messageId token].
  assert (Hm : bor (shl (mid / 256) 8) (mid mod 256) = mid).
  { rewrite bor_shl;
      [| lia
       | split; [apply Z.div_pos | apply Z.div_lt_upper_bound]; lia
       | change (2 ^ 8) with 256; apply Z.mod_pos_bound; lia].
    change (2 ^ 8) with 256. pose proof (Z.div_mod mid 256 ltac:(lia)). lia. }
  rewrite Hm, lookup_insert_eq, delete_insert_eq.
  unfold settlement. destruct (code / 32 =? 2); reflexivity.
Qed.

Lemma response_settles_request_witness :
  0 <= messageId new_client < 65536 /\
  handleResponse cbor_none_decode
    (fst (fst (request cbor_none_encode link_up new_client
                 METHODS_GET (codes "/a") JNull)))
    ([0x60; 0x45; messageId new_client / 256; messageId new_client mod 256; 0xFF]
       ++ [0x01]) =
    ({| messageId := messageId new_client + 1; token := token new_client;
        pendingRequests := delete (messageId new_client) (pendingRequests new_client) |},
     [settlement (messageId new_client) 0x45 (bodyPayload cbor_none_decode [0x01])]).
Proof.
  assert (H : 0 <= messageId new_client < 65536) by (cbn; lia).
  split; [exact H|].
  exact (response_settles_request cbor_none_encode cbor_none_decode link_up
           new_client METHODS_GET (codes "/a") JNull 0x45 [0x01] H).
Defined.

Lemma countIf_app {A} (f : A -> bool) (l l' : list A) :
  countIf f (l ++ l') = (countIf f l + countIf f l')%nat.
Proof. unfold countIf. now rewrite List.filter_app, length_app. Qed.

Lemma countIf_one {A} (f : A -> bool) (e : A) :
  countIf f [e] = if f e then 1%nat else 0%nat.
Proof. unfold countIf. cbn [List.filter]. now destruct (f e). Qed.

Lemma tracker_step enc dec conn st o :
  tracker_inv (fst st) (snd st) ->
  tracker_inv (fst (stepE enc dec conn st o)) (snd (stepE enc dec conn st o)).
Proof.
  destruct st as [c log]. cbn [fst snd]. intros [H1 H2].
  assert (Hsettle : forall m e,
            is_Some (pendingRequests c !! m) ->
            settles m e = true -> registers m e = false ->
            (forall mid, mid <> m -> settles mid e = false /\ registers mid e = false) ->
            tracker_inv {| messageId := messageId c; token := token c;
                           pendingRequests := delete m (pendingRequests c) |}
                        (log ++ [e])).
  { intros m e [x Hx] Hs Hr Hother. split; [exact H1|].
    intros mid. cbn [messageId]. destruct (H2 mid) as [Ha Hb].
    rewrite !countIf_app, !countIf_one.
    unfold pendingCount in *. cbn [pendingRequests].
    destruct (Z.eq_dec mid m) as [->|Hne].
    - rewrite Hs, Hr, lookup_delete_eq. rewrite Hx in Ha. lia.
    - destruct (Hother mid Hne) as [-> ->].
      rewrite lookup_delete_ne by congruence. lia. }
  destruct o as [method uri payload|data|mid0]; cbn [stepE fst snd].
  - rewrite request_state.
    assert (Hl : snd (fst (request enc conn c method uri payload)) =
                 [Registered (messageId c); TimerArmed (messageId c) 10000;
                  Sent (createCoapFrame
                          (buildMessage enc method uri payload (messageId c)))])
      by (unfold request; now destruct (sendBytes _ _)).
    rewrite Hl. split; [cbn [messageId]; lia|].
    intros mid. cbn [messageId]. destruct (H2 mid) as [Ha Hb].
    rewrite !countIf_app.
    assert (Hcs : countIf (settles mid)
                    [Registered (messageId c); TimerArmed (messageId c) 10000;
                     Sent (createCoapFrame
                             (buildMessage enc method uri payload (messageId c)))] = 0%nat)
      by reflexivity.
    assert (Hcr : countIf (registers mid)
                    [Registered (messageId c); TimerArmed (messageId c) 10000;
                     Sent (createCoapFrame
                             (buildMessage enc method uri payload (messageId c)))]
                  = if messageId c =? mid then 1%nat else 0%nat)
      by (unfold countIf; cbn [List.filter registers];
          now destruct (messageId c =? mid)).
    rewrite Hcs, Hcr.
    unfold pendingCount in *. cbn [pendingRequests].
    destruct (Z.eq_dec (messageId c) mid) as [<-|Hne].
    + rewrite Z.eqb_refl, lookup_insert_eq.
      assert (Hz : (1 <=? messageId c) && (messageId c <? messageId c) = false)
        by (apply andb_false_iff; right; apply Z.ltb_ge; lia).
      rewrite Hz in Hb.
      assert (Hy : (1 <=? messageId c) && (messageId c <? messageId c + 1) = true)
        by (apply andb_true_iff; split; [apply Z.leb_le | apply Z.ltb_lt]; lia).
      rewrite Hy. lia.
    + assert (He : (messageId c =? mid) = false) by now apply Z.eqb_neq.
      rewrite He, lookup_insert_ne by assumption.
      replace (mid <? messageId c + 1) with (mid <? messageId c)
        by (destruct (mid <? messageId c) eqn:E1, (mid <? messageId c + 1) eqn:E2;
            try reflexivity;
            [apply Z.ltb_lt in E1; apply Z.ltb_ge in E2
            |apply Z.ltb_ge in E1; apply Z.ltb_lt in E2]; lia).
      lia.
  - unfold handleResponse.
    destruct (parseResponse dec data) as [r|?];
      [|cbn [fst snd]; rewrite app_nil_r; now split].
    destruct (pendingRequests c !! r_messageId r) eqn:E;
      [|cbn [fst snd]; rewrite app_nil_r; now split].
    destruct (r_code r / 32 =? 2); cbn [fst snd];
      (apply Hsettle; [eauto | cbn; apply Z.eqb_refl | reflexivity
                      | intros mid Hne; cbn; split; [apply Z.eqb_neq; congruence | reflexivity]]).
  - unfold timeout.
    destruct (pendingRequests c !! mid0) eqn:E;
      [|cbn [fst snd]; rewrite app_nil_r; now split].
    cbn [fst snd].
    apply Hsettle; [eauto | cbn; apply Z.eqb_refl | reflexivity
                   | intros mid Hne; cbn; split; [apply Z.eqb_neq; congruence | reflexivity]].
Qed.

Lemma tracker_run enc dec conn ops :
  tracker_inv (fst (runE enc dec conn ops)) (snd (runE enc dec conn ops)).
Proof.
  unfold runE.
  assert (H0 : tracker_inv (fst (new_client, @nil effect)) (snd (new_client, @nil effect))).
  { cbn [fst snd]. split; [cbn; lia|]. intros mid.
    unfold pendingCount, countIf. cbn [pendingRequests new_client messageId List.filter length].
    rewrite lookup_empty. split; [reflexivity|].
    destruct ((1 <=? mid) && (mid <? 1)) eqn:E; [|reflexivity].
    apply andb_true_iff in E as [E1 E2].
    apply Z.leb_le in E1. apply Z.ltb_lt in E2. lia. }
  revert H0. generalize (new_client, @nil effect).
  induction ops as [|o ops IH]; intros st H; cbn [fold_left]; [exact H|].
  apply IH, tracker_step, H.
Qed.

(** X11.  In every run of requests, responses and timers, each message id
    is registered at most once, and a registered id is either still
    pending or has been settled exactly once: no promise is resolved or
    rejected twice, whatever the order of responses and timeouts. *)
Theorem settled_at_most_once
    (cborEncode : jsval -> list Z) (cborDecode : list Z -> option jsval)
    (conn : connection) (ops : list op) (mid : Z) :
  let c := fst (runE cborEncode cborDecode conn ops) in
  let log := snd (runE cborEncode cborDecode conn ops) in
  (countIf (registers mid) log <= 1)%nat /\
  (countIf (settles mid) log + pendingCount c mid)%nat = countIf (registers mid) log /\
  (countIf (settles mid) log <= 1)%nat.
Proof.
  cbv zeta. destruct (tracker_run cborEncode cborDecode conn ops) as [_ H].
  destruct (H mid) as [Ha Hb].
  assert (countIf (registers mid) (snd (runE cborEncode cborDecode conn ops)) <= 1)%nat
    by (rewrite Hb; destruct (_ && _); lia).
  split; [assumption|]. split; [exact Ha | lia].
Qed.

(** X12.  What arrives for a request that is no longer pending is
    dropped: the same response handed over a second time has no effect, a
    response that arrives after the timer of its message id fired has no
    effect, and a timer that fires after the response has no effect.  A
    message of fewer than four bytes has no effect either. *)
Theorem settled_request_ignores_later
    (cborDecode : list Z -> option jsval) (c : client) (data : list Z) :
  let c' := fst (handleResponse cborDecode c data) in
  handleResponse cborDecode c' data = (c', []) /\
  (forall r, parseResponse cborDecode data = Ok r ->
     handleResponse cborDecode (fst (timeout c (r_messageId r))) data =
       (fst (timeout c (r_messageId r)), []) /\
     timeout c' (r_messageId r) = (c', [])) /\
  (len data < 4 -> handleResponse cborDecode c data = (c, [])).
Proof.
  cbv zeta. unfold handleResponse, timeout.
  destruct (parseResponse cborDecode data) as [r|m] eqn:P.
  - split; [|split].
    + destruct (pendingRequests c !! r_messageId r) eqn:E.
      * destruct (r_code r / 32 =? 2); cbn [fst pendingRequests];
          now rewrite lookup_delete_eq.
      * cbn [fst]. now rewrite E.
    + intros r' Hr. injection Hr as <-. split.
      * destruct (pendingRequests c !! r_messageId r) eqn:E; cbn [fst pendingRequests].
        -- now rewrite lookup_delete_eq.
        -- now rewrite E.
      * destruct (pendingRequests c !! r_messageId r) eqn:E.
        -- destruct (r_code r / 32 =? 2); cbn [fst pendingRequests];
             now rewrite lookup_delete_eq.
        -- cbn [fst]. now rewrite E.
    + intros Hlen. unfold parseResponse in P.
      destruct (len data <? 4) eqn:E4; [discriminate | apply Z.ltb_ge in E4; lia].
  - split; [reflexivity|]. split; [intros r Hr; discriminate | reflexivity].
Qed.

(** ** Options read back *)

(** X13.  When the first path segment and the query segments of a URI
    are shorter than 269 code units and the later path segments shorter
    than 13, the bytes of [encodeOptions] read back, by the nibble and
    extended-byte rules, as one option 11 per path segment, then option
    12 with the value 60, then one option 15 per query segment, each with
    its text as value. *)
Theorem options_read_back (uri : list Z) :
  sizedForOptions uri ->
  specOptions (encodeOptions uri) =
    Some (map (fun s => (11, s)) (segments uri) ++
          (12, [60]) :: map (fun q => (15, q)) (queries uri)).
Proof. apply encodeOptions_read_back. Qed.

Lemma options_read_back_witness :
  sizedForOptions (codes "/ietf-interfaces:interfaces/state?d=a") /\
  specOptions (encodeOptions (codes "/ietf-interfaces:interfaces/state?d=a")) =
    Some (map (fun s => (11, s))
            (segments (codes "/ietf-interfaces:interfaces/state?d=a")) ++
          (12, [60]) ::
          map (fun q => (15, q))
            (queries (codes "/ietf-interfaces:interfaces/state?d=a"))).
Proof.
  assert (H : sizedForOptions (codes "/ietf-interfaces:interfaces/state?d=a")).
  { unfold sizedForOptions.
    assert (Hseg : segments (codes "/ietf-interfaces:interfaces/state?d=a") =
                   [codes "ietf-interfaces:interfaces"; codes "state"])
      by (vm_compute; reflexivity).
    assert (Hq : queries (codes "/ietf-interfaces:interfaces/state?d=a") =
                 [codes "d=a"]) by (vm_compute; reflexivity).
    rewrite Hseg, Hq.
    split; [split; [reflexivity|]|];
      (constructor; [reflexivity | constructor]). }
  split; [exact H | exact (options_read_back _ H)].
Defined.

(** ** The event bus, further *)

Lemma forEach_users throws c e (T : list fn) :
  table c e = T -> Forall (fun f => isWrapper f = false) T ->
  forall n k log,
    forEach throws n k c e log =
      (c, log ++ uptoThrow throws (take n (drop k T)),
       existsb (fnThrows throws) (take n (drop k T))).
Proof.
  intros HT HU. induction n as [|n IH]; intros k log; cbn [forEach].
  - change (take 0 (drop k T)) with (@nil fn). cbn. now rewrite app_nil_r.
  - fold (table c e). rewrite HT.
    destruct (T !! k) as [f|] eqn:E.
    + rewrite (drop_S _ _ _ E). cbn [take firstn uptoThrow existsb].
      assert (Hf : isWrapper f = false).
      { rewrite Forall_forall in HU. apply HU.
        apply list_elem_of_lookup. eauto. }
      destruct f as [id|]; [|discriminate]. cbn [call fnThrows].
      destruct (throws id); [reflexivity|].
      rewrite IH, <- app_assoc. reflexivity.
    + rewrite IH.
      apply lookup_ge_None in E.
      rewrite !drop_ge by lia. now rewrite !take_nil.
Qed.

(** X14.  When the subscribers of an event are all registered with [on],
    a delivery leaves the table as it is and calls them in registration
    order, each once, up to and including the first one that throws; the
    exception leaves [emit] exactly when some subscriber throws. *)
Theorem emit_persistent_order (throws : nat -> bool) (c : controller) (e : string) :
  Forall (fun f => isWrapper f = false) (table c e) ->
  emit throws c e =
    (c, uptoThrow throws (table c e), existsb (fnThrows throws) (table c e)).
Proof.
  intros HU. unfold emit.
  destruct (callbacks c !! e) as [cbs|] eqn:E.
  - assert (HT : table c e = cbs) by (unfold table; now rewrite E).
    rewrite HT in *.
    rewrite (forEach_users throws c e cbs HT HU).
    change (drop 0 cbs) with cbs. now rewrite firstn_all.
  - unfold table. now rewrite E.
Qed.

Lemma emit_persistent_order_witness :
  let throws := fun id => Nat.eqb id 2 in
  let c := on (on (on new_controller "trace" (User 1)) "trace" (User 2))
              "trace" (User 3) in
  Forall (fun f => isWrapper f = false) (table c "trace") /\
  emit throws c "trace" = (c, [User 1; User 2], true).
Proof.
  cbv zeta.
  assert (H : Forall (fun f => isWrapper f = false)
                (table (on (on (on new_controller "trace" (User 1)) "trace" (User 2))
                          "trace" (User 3)) "trace"))
    by (vm_compute; repeat constructor).
  split; [exact H|].
  rewrite (emit_persistent_order (fun id => Nat.eqb id 2) _ "trace" H).
  f_equal.
Defined.

Lemma uptoThrow_quiet throws (l : list fn) :
  Forall (fun g => isWrapper g = false /\ fnThrows throws g = false) l ->
  uptoThrow throws l = l /\ existsb (fnThrows throws) l = false.
Proof.
  induction 1 as [|g l [_ Hg] _ [IH1 IH2]]; cbn [uptoThrow existsb];
    [now split|].
  rewrite Hg, IH1, IH2. now split.
Qed.

(** X15.  When a subscriber registered with [once] stands first in the
    table and its callback returns, the delivery removes it and then goes
    on at index 1 of the shortened array: the subscriber that was
    registered right after it is not called in that delivery, although
    it stays subscribed; the ones after that are called. *)
Theorem once_skips_next (throws : nat -> bool) (c : controller) (e : string)
    (wid cb : nat) (f : fn) (rest : list fn) :
  table c e = Wrapper wid e cb :: f :: rest ->
  throws cb = false ->
  Forall (fun g => isWrapper g = false /\ fnThrows throws g = false) (f :: rest) ->
  emit throws c e =
    (off c e (Wrapper wid e cb), Wrapper wid e cb :: rest, false) /\
  table (off c e (Wrapper wid e cb)) e = f :: rest.
Proof.
  intros HT Hcb HQ.
  assert (HT' : table (off c e (Wrapper wid e cb)) e = f :: rest).
  { rewrite table_off, HT. destruct (decide (e = e)); [|contradiction].
    cbn [spliceFirst]. now destruct (decide (Wrapper wid e cb = Wrapper wid e cb)). }
  split; [|exact HT'].
  unfold emit. unfold table in HT.
  destruct (callbacks c !! e) as [cbs|] eqn:E; [|discriminate].
  cbn in HT. subst cbs. cbn [length forEach].
  rewrite E. cbn [default from_option id lookup list_lookup call]. rewrite Hcb.
  assert (HU : Forall (fun g => isWrapper g = false) (f :: rest))
    by (eapply Forall_impl; [exact HQ | intros g [Hg _]; exact Hg]).
  pose proof (forEach_users throws _ e (f :: rest) HT' HU (S (length rest)) 1
                ([] ++ [Wrapper wid e cb])) as FE.
  cbn [forEach] in FE. rewrite FE.
  change (drop 1 (f :: rest)) with rest.
  rewrite firstn_all2 by lia.
  inversion HQ as [|? ? _ HR]; subst.
  destruct (uptoThrow_quiet throws rest HR) as [-> ->].
  reflexivity.
Qed.

Lemma once_skips_next_witness :
  let throws := fun _ : nat => false in
  let c := on (on (once new_controller "pong" 0) "pong" (User 1)) "pong" (User 2) in
  table c "pong" = Wrapper 0 "pong" 0 :: User 1 :: [User 2] /\
  throws 0%nat = false /\
  Forall (fun g => isWrapper g = false /\ fnThrows throws g = false)
         (User 1 :: [User 2]) /\
  emit throws c "pong" =
    (off c "pong" (Wrapper 0 "pong" 0), Wrapper 0 "pong" 0 :: [User 2], false) /\
  table (off c "pong" (Wrapper 0 "pong" 0)) "pong" = User 1 :: [User 2].
Proof.
  cbv zeta.
  assert (H1 : table (on (on (once new_controller "pong" 0) "pong" (User 1))
                        "pong" (User 2)) "pong"
               = Wrapper 0 "pong" 0 :: User 1 :: [User 2])
    by (vm_compute; reflexivity).
  assert (H2 : (fun _ : nat => false) 0%nat = false) by reflexivity.
  assert (H3 : Forall (fun g => isWrapper g = false /\
                               fnThrows (fun _ : nat => false) g = false)
                 (User 1 :: [User 2]))
    by (repeat (constructor; [split; reflexivity|]); constructor).
  split; [exact H1|]. split; [exact H2|]. split; [exact H3|].
  exact (once_skips_next (fun _ => false) _ "pong" 0 0 (User 1) [User 2] H1 H2 H3).
Defined.

Lemma spliceFirst_absent (f : fn) (l : list fn) : ~ In f l -> spliceFirst f l = l.
Proof.
  induction l as [|g l IH]; intros H; cbn [spliceFirst]; [reflexivity|].
  destruct (decide (g = f)) as [->|Hne]; [exfalso; apply H; now left|].
  rewrite IH; [reflexivity|]. intros Hin. apply H. now right.
Qed.

Lemma spliceFirst_snoc (f : fn) (l : list fn) :
  ~ In f l -> spliceFirst f (l ++ [f]) = l.
Proof.
  induction l as [|g l IH]; intros H; cbn [spliceFirst app].
  - now destruct (decide (f = f)).
  - destruct (decide (g = f)) as [->|Hne]; [exfalso; apply H; now left|].
    rewrite IH; [reflexivity|]. intros Hin. apply H. now right.
Qed.

Lemma spliceFirst_split (f : fn) (pre post : list fn) :
  ~ In f pre -> spliceFirst f (pre ++ f :: post) = pre ++ post.
Proof.
  induction pre as [|g pre IH]; intros H; cbn [spliceFirst app].
  - now destruct (decide (f = f)).
  - destruct (decide (g = f)) as [->|Hne]; [exfalso; apply H; now left|].
    rewrite IH; [reflexivity|]. intros Hin. apply H. now right.
Qed.

(** X16.  [off] takes away one registration of the callback, the
    earliest: when the table of the event is [pre ++ f :: post] with no
    [f] in [pre], it becomes [pre ++ post], so the other registrations
    keep their places and their order, a later registration of the same
    callback included.  The tables of the other events are untouched, the
    number of registrations of [f] for the event goes down by one and no
    other count changes; for a callback that is not registered [off]
    changes nothing, and it undoes the [on] of a callback that was not
    registered before. *)
Theorem off_removes_one_registration (c : controller) (e : string) (f : fn) :
  (forall pre post,
     table c e = pre ++ f :: post -> ~ In f pre ->
     table (off c e f) e = pre ++ post) /\
  (forall e', e' <> e -> table (off c e f) e' = table c e') /\
  (forall e' g,
     count_occ fn_eq_dec (table (off c e f) e') g =
       if decide (e = e' /\ g = f)
       then Nat.pred (count_occ fn_eq_dec (table c e') g)
       else count_occ fn_eq_dec (table c e') g) /\
  closures (off c e f) = closures c /\
  (~ In f (table c e) -> off c e f = c) /\
  (~ In f (table c e) -> forall e', table (off (on c e f) e f) e' = table c e').
Proof.
  split; [|split; [|split; [|split; [apply closures_off | split]]]].
  - intros pre post HT Hno. rewrite table_off, HT.
    destruct (decide (e = e)) as [_|]; [|contradiction].
    now apply spliceFirst_split.
  - intros e' Hne. rewrite table_off.
    destruct (decide (e = e')) as [->|_]; [contradiction | reflexivity].
  - intros e' g. rewrite table_off.
    destruct (decide (e = e')) as [<-|Hne].
    + rewrite count_spliceFirst.
      destruct (decide (g = f)) as [->|Hg].
      * destruct (decide (e = e /\ f = f)) as [_|Hn]; [reflexivity | tauto].
      * destruct (decide (e = e /\ g = f)) as [[_ Hc]|_]; [contradiction | reflexivity].
    + destruct (decide (e = e' /\ g = f)) as [[Hc _]|_]; [contradiction | reflexivity].
  - intros Hno. unfold off. unfold table in Hno.
    destruct (callbacks c !! e) as [cbs|] eqn:E; [|reflexivity].
    cbn in Hno. rewrite spliceFirst_absent by assumption.
    rewrite insert_id by assumption. now destruct c.
  - intros Hno e'. rewrite table_off, !table_on.
    destruct (decide (e = e)) as [_|]; [|contradiction].
    destruct (decide (e = e')) as [<-|Hne]; [|reflexivity].
    now apply spliceFirst_snoc.
Qed.

Lemma off_removes_one_registration_witness :
  let c := on (on (on new_controller "pong" (User 1)) "pong" (User 2)) "pong" (User 1) in
  table c "pong" = [] ++ User 1 :: [User 2; User 1] /\
  ~ In (User 1) [] /\
  table (off c "pong" (User 1)) "pong" = [User 2; User 1].
Proof.
  cbv zeta.
  assert (H1 : table (on (on (on new_controller "pong" (User 1)) "pong" (User 2))
                        "pong" (User 1)) "pong" =
               [] ++ User 1 :: [User 2; User 1]) by (vm_compute; reflexivity).
  assert (H2 : ~ In (User 1) []) by (intros H; exact H).
  split; [exact H1|]. split; [exact H2|].
  exact (proj1 (off_removes_one_registration _ "pong" (User 1)) [] [User 2; User 1] H1 H2).
Defined.

(** ** The announcement parser, further *)

Lemma trimStart_spaces (pre s : list Z) :
  Forall (fun c => isSpace c = true) pre -> trimStart (pre ++ s) = trimStart s.
Proof.
  induction 1 as [|c pre Hc _ IH]; [reflexivity|].
  cbn [app trimStart]. now rewrite Hc.
Qed.

Lemma trimStart_app (s post : list Z) :
  trimStart (s ++ post) =
    match trimStart s with
    | [] => trimStart post
    | _ :: _ => trimStart s ++ post
    end.
Proof.
  induction s as [|c s IH]; cbn [app trimStart]; [reflexivity|].
  destruct (isSpace c); [exact IH | reflexivity].
Qed.

Lemma trim_padded (pre s post : list Z) :
  Forall (fun c => isSpace c = true) pre ->
  Forall (fun c => isSpace c = true) post ->
  trim (pre ++ s ++ post) = trim s.
Proof.
  intros Hpre Hpost. unfold trim.
  rewrite trimStart_spaces by exact Hpre.
  rewrite trimStart_app.
  destruct (trimStart s) as [|x r] eqn:E.
  - replace (trimStart post) with (@nil Z); [reflexivity|].
    rewrite <- (app_nil_r post). now rewrite trimStart_spaces.
  - rewrite rev_app_distr. rewrite trimStart_spaces; [reflexivity|].
    apply Forall_rev. exact Hpost.
Qed.

(** X17.  White space before and after an announcement does not change
    what [parseAnnouncement] returns. *)
Theorem parseAnnouncement_ignores_padding (pre s post : list Z) :
  Forall (fun c => isSpace c = true) pre ->
  Forall (fun c => isSpace c = true) post ->
  parseAnnouncement (pre ++ s ++ post) = parseAnnouncement s.
Proof.
  intros Hpre Hpost. unfold parseAnnouncement.
  now rewrite trim_padded.
Qed.

Lemma parseAnnouncement_ignores_padding_witness :
  Forall (fun c => isSpace c = true) (codes "  ") /\
  Forall (fun c => isSpace c = true) [13; 10] /\
  parseAnnouncement
    (codes "  " ++ codes "VelocitySP-v2025.06-LAN9662-ung8291 326 300 2" ++ [13; 10]) =
  parseAnnouncement (codes "VelocitySP-v2025.06-LAN9662-ung8291 326 300 2").
Proof.
  assert (H1 : Forall (fun c => isSpace c = true) (codes "  "))
    by (cbn [codes]; repeat (constructor; [reflexivity|]); constructor).
  assert (H2 : Forall (fun c => isSpace c = true) [13; 10])
    by (repeat (constructor; [reflexivity|]); constructor).
  split; [exact H1|]. split; [exact H2|].
  exact (parseAnnouncement_ignores_padding _ _ _ H1 H2).
Defined.

Lemma hd_splitWs_words (s : list Z) : forall cur,
  Forall (fun c => isSpace c = false) cur ->
  Forall (fun c => isSpace c = false) (hd [] (splitWs s cur false)).
Proof.
  induction s as [|c s IH]; intros cur Hcur; cbn [splitWs]; [exact Hcur|].
  destruct (isSpace c) eqn:E; [exact Hcur|].
  apply IH. apply Forall_app. split; [exact Hcur|]. now constructor.
Qed.

Lemma splitOn_no_sep (sep : Z) (s : list Z) : forall cur,
  Forall (fun c => c <> sep) cur ->
  Forall (Forall (fun c => c <> sep)) (splitOn sep s cur).
Proof.
  induction s as [|c s IH]; intros cur Hcur; cbn [splitOn].
  - constructor; [exact Hcur | constructor].
  - destruct (c =? sep) eqn:E.
    + constructor; [exact Hcur|]. apply IH. constructor.
    + apply Z.eqb_neq in E. apply IH. apply Forall_app.
      split; [exact Hcur|]. now constructor.
Qed.

Lemma Forall_nth_nil {A} (P : list A -> Prop) (l : list (list A)) (i : nat) :
  P [] -> Forall P l -> P (nth i l []).
Proof.
  intros H0 H. revert i. induction H as [|x l Hx _ IH]; intros [|i]; cbn [nth];
    auto.
Qed.

Lemma stripLeadingV_keeps (P : Z -> Prop) (s : list Z) :
  Forall P s -> Forall P (stripLeadingV s).
Proof.
  intros H. destruct s as [|c r]; cbn [stripLeadingV]; [constructor|].
  destruct (c =? 0x76); [now inversion H | exact H].
Qed.

(** X18.  The firmware version and the serial number returned by
    [parseAnnouncement] never contain white space or a dash, whatever the
    text: a serial number with a dash in it is cut at the dash.  The
    device type contains no white space when the trimmed text starts with
    [VelocitySP-v], and is the whole trimmed text otherwise. *)
Theorem parseAnnouncement_fields_clean (s : list Z) :
  let i := parseAnnouncement s in
  let clean := Forall (fun c => isSpace c = false /\ c <> dash) in
  clean (firmwareVersion i) /\ clean (serialNumber i) /\
  if startsWith (trim s) (codes "VelocitySP-v")
  then Forall (fun c => isSpace c = false) (deviceType i)
  else deviceType i = trim s.
Proof.
  cbv zeta.
  assert (HU : Forall (fun c => isSpace c = false /\ c <> dash) Unknown)
    by (unfold Unknown; cbn [codes];
        repeat (constructor; [split; [reflexivity | discriminate]|]); constructor).
  unfold parseAnnouncement.
  destruct (startsWith (trim s) (codes "VelocitySP-v")) eqn:Hs;
    [|cbn [firmwareVersion serialNumber deviceType]; auto].
  set (front := hd [] (splitWs (trim s) [] false)).
  assert (Hfront : Forall (fun c => isSpace c = false) front)
    by (apply hd_splitWs_words; constructor).
  destruct (4 <=? length (split front dash))%nat;
    [|cbn [firmwareVersion serialNumber deviceType]; auto].
  cbn [firmwareVersion serialNumber deviceType].
  pose proof (splitOn_keeps _ dash front [] Hfront (List.Forall_nil _)) as HW.
  pose proof (splitOn_no_sep dash front [] (List.Forall_nil _)) as HD.
  fold (split front dash) in HW, HD.
  assert (HC : Forall (Forall (fun c => isSpace c = false /\ c <> dash))
                      (split front dash)).
  { revert HW HD. generalize (split front dash) as parts.
    induction parts as [|p parts IH]; intros HW HD; [constructor|].
    inversion HW as [|? ? Hw HW']; inversion HD as [|? ? Hd HD']; subst.
    constructor; [|now apply IH].
    clear - Hw Hd. induction p as [|c p IHp]; [constructor|].
    inversion Hw; inversion Hd; subst. constructor; [now split | now apply IHp]. }
  split; [|split].
  - apply stripLeadingV_keeps. apply Forall_nth_nil; [constructor | exact HC].
  - apply Forall_nth_nil; [constructor | exact HC].
  - apply (Forall_nth_nil (Forall (fun c => isSpace c = false)));
      [constructor | exact HW].
Qed.

(** ** From the wire to the handlers *)

Lemma decodeLoop_stop (M rest : list Z) : forall escaping acc,
  decodeLoop (M ++ EOF :: rest) escaping acc = decodeLoop M escaping acc.
Proof.
  induction M as [|b M IH]; intros escaping acc; cbn [app decodeLoop].
  - unfold EOF at 1. now rewrite Z.eqb_refl.
  - destruct (b =? EOF); [reflexivity|].
    destruct escaping; [apply IH|].
    destruct (b =? ESCAPE); apply IH.
Qed.

Lemma four_elements (cs : list Z) :
  length cs = 4%nat -> exists a b c d, cs = [a; b; c; d].
Proof.
  destruct cs as [|a [|b [|c [|d [|x cs]]]]]; cbn [length]; intros H;
    try discriminate.
  now exists a, b, c, d.
Qed.

(** [decodeFrame] on a frame of the reassembler's shape with a type byte. *)
Lemma decodeFrame_cut (t : Z) (M pad cs : list Z) :
  cutFrame (SOF :: (t :: M) ++ EOF :: pad ++ cs) (t :: M) pad cs ->
  1 <= len M + len pad ->
  decodeFrame (SOF :: (t :: M) ++ EOF :: pad ++ cs) =
    Ok {| type := t mod 65536;
          data := decodeLoop M false [];
          checksum := map (fun x => x mod 65536) cs;
          warned := negb (bool_decide
                            (map (fun x => x mod 65536) cs =
                             checksumStr (calculateChecksum (SOF :: (t :: M) ++ [EOF])))) |}.
Proof.
  intros (_ & HM & Hcs & Hpad) Hlen.
  destruct (four_elements cs Hcs) as (a & b & c & d & ->).
  inversion HM as [|? ? Ht HM']; subst.
  set (buf := SOF :: (t :: M) ++ EOF :: pad ++ [a; b; c; d]).
  set (F := SOF :: (t :: M) ++ [EOF]).
  assert (HlF : len F = 3 + len M)
    by (unfold F; rewrite len_cons; cbn [app]; rewrite len_cons, len_app;
        unfold len at 2; cbn [length]; lia).
  assert (Hbuf : buf = [SOF; t] ++ (M ++ EOF :: pad) ++ [a; b; c; d])
    by (unfold buf; cbn [app]; now rewrite <- app_assoc).
  assert (Hbuf2 : buf = [SOF; t] ++ M ++ EOF :: (pad ++ [a; b; c; d]))
    by reflexivity.
  assert (Hbuf3 : buf = F ++ pad ++ [a; b; c; d])
    by (unfold buf, F; cbn [app]; now rewrite <- app_assoc).
  assert (HlB : len buf = len M + len pad + 7).
  { rewrite Hbuf3, !len_app, HlF. unfold len at 3. cbn [length]. lia. }
  pose proof (len_nonneg M) as HM0. pose proof (len_nonneg pad) as HP0.
  assert (Hend : indexOf buf EOF 2 = 2 + len M).
  { rewrite Hbuf2. apply (indexOf_first [SOF; t] M (pad ++ [a; b; c; d]) EOF HM'). }
  unfold decodeFrame. fold buf. rewrite HlB.
  destruct (len M + len pad + 7 <? 8) eqn:E8; [apply Z.ltb_lt in E8; lia|].
  assert (G0 : get_is buf 0 SOF = true) by reflexivity.
  rewrite G0. cbn [negb]. rewrite Hend.
  assert (Hdata : decodeLoop (slice buf 2 (len M + len pad + 7 - 4)) false [] =
                  decodeLoop M false []).
  { replace (len M + len pad + 7 - 4) with (len [SOF; t] + len (M ++ EOF :: pad))
      by (rewrite len_app, !len_cons; change (len (@nil Z)) with 0; lia).
    rewrite Hbuf, slice_middle. apply decodeLoop_stop. }
  rewrite Hdata.
  assert (Hsl : slice buf 0 (2 + len M + 1) = F).
  { replace (2 + len M + 1) with (len F) by lia.
    rewrite Hbuf3. apply slice_prefix. }
  rewrite Hsl.
  assert (Hget : forall k, 0 <= k -> get buf (3 + len M + k) = get (pad ++ [a; b; c; d]) k).
  { intros k Hk. rewrite Hbuf3, <- HlF. now apply get_app_r. }
  assert (Hty : get_char buf 1 = t mod 65536) by reflexivity.
  rewrite Hty.
  destruct Hpad as [[-> Ha] | ->].
  - cbn [hd] in Ha.
    assert (G1 : get_is buf (2 + len M + 1) EOF = false).
    { unfold get_is. replace (2 + len M + 1) with (3 + len M + 0) by lia.
      rewrite Hget by lia. cbn. now apply Z.eqb_neq. }
    rewrite G1. unfold get_char.
    replace (2 + len M + 1) with (3 + len M + 0) by lia.
    replace (3 + len M + 0 + 1) with (3 + len M + 1) by lia.
    replace (3 + len M + 0 + 2) with (3 + len M + 2) by lia.
    replace (3 + len M + 0 + 3) with (3 + len M + 3) by lia.
    rewrite !Hget by lia. reflexivity.
  - assert (G1 : get_is buf (2 + len M + 1) EOF = true).
    { unfold get_is. replace (2 + len M + 1) with (3 + len M + 0) by lia.
      rewrite Hget by lia. reflexivity. }
    rewrite G1. unfold get_char.
    replace (2 + len M + 2) with (3 + len M + 1) by lia.
    replace (3 + len M + 1 + 1) with (3 + len M + 2) by lia.
    replace (3 + len M + 1 + 2) with (3 + len M + 3) by lia.
    replace (3 + len M + 1 + 3) with (3 + len M + 4) by lia.
    rewrite !Hget by lia. reflexivity.
Qed.

Lemma indexOf_from_split (x : Z) (l : list Z) : forall i,
  indexOf_from x l i <> -1 ->
  exists M R, l = M ++ x :: R /\ Forall (fun y => y <> x) M /\
              indexOf_from x l i = i + len M.
Proof.
  induction l as [|y l IH]; intros i H; cbn [indexOf_from] in *; [contradiction|].
  destruct (y =? x) eqn:E.
  - apply Z.eqb_eq in E. rewrite E. exists [], l.
    split; [reflexivity|]. split; [constructor|]. unfold len. cbn [length]. lia.
  - apply Z.eqb_neq in E. destruct (IH (i + 1) H) as (M & R & HB & HM & Hi).
    exists (y :: M), R. split; [now rewrite HB|].
    split; [now constructor|]. rewrite Hi, len_cons. lia.
Qed.

(** The slice the loop of [handleIncomingData] takes has the shape
    [cutFrame]. *)
Lemma slice_cut (B : list Z) :
  let s := indexOf B 0x3E 0 in
  let e := indexOf B 0x3C s in
  let ce := if get_is B (e + 1) 0x3C then e + 6 else e + 5 in
  s <> -1 -> e <> -1 -> ce <= len B ->
  exists M pad cs, cutFrame (slice B s ce) M pad cs.
Proof.
  intros s e ce E1 E2 E3.
  destruct (indexOf_range B 0x3E 0 ltac:(lia)) as [?|R1]; [contradiction|].
  fold s in R1.
  destruct (indexOf_range B 0x3C s ltac:(lia)) as [?|R2]; [contradiction|].
  fold e in R2.
  pose proof (get_indexOf B 0x3E 0 ltac:(lia) E1) as Gs. fold s in Gs.
  assert (He : e = indexOf_from 0x3C (skipn (Z.to_nat s) B) s)
    by (unfold e, indexOf; now rewrite Z.max_l by lia).
  destruct (indexOf_from_split 0x3C (skipn (Z.to_nat s) B) s)
    as (M0 & R & HB & HM0 & Hidx); [now rewrite <- He|].
  rewrite <- He in Hidx.
  assert (Hhd : nth_error (skipn (Z.to_nat s) B) 0 = Some SOF).
  { rewrite nth_error_skipn, Nat.add_0_r. unfold get in Gs.
    destruct (s <? 0) eqn:Es; [apply Z.ltb_lt in Es; lia | exact Gs]. }
  rewrite HB in Hhd.
  destruct M0 as [|m M]; [cbn in Hhd; discriminate|].
  cbn in Hhd. injection Hhd as Hm. rewrite Hm in *. clear Hm m.
  apply Forall_cons in HM0 as [_ HM].
  rewrite len_cons in Hidx. pose proof (len_nonneg M) as HMn.
  assert (Hsl : slice B s ce = firstn (Z.to_nat (ce - s)) (skipn (Z.to_nat s) B)).
  { assert (e + 5 <= ce) by (unfold ce; destruct (get_is _ _ _); lia).
    unfold slice, rel_index.
    destruct (s <? 0) eqn:Es; [apply Z.ltb_lt in Es; lia|].
    destruct (ce <? 0) eqn:Ec; [apply Z.ltb_lt in Ec; lia|].
    rewrite !Z.min_l by lia. reflexivity. }
  assert (HlB : len B = s + len M + 2 + len R).
  { pose proof (f_equal (@length Z) HB) as HL.
    rewrite length_skipn, length_app in HL. cbn [length] in HL.
    unfold len in *. lia. }
  assert (Hg : get B (e + 1) = nth_error R 0).
  { unfold get. destruct (e + 1 <? 0) eqn:Ee; [apply Z.ltb_lt in Ee; lia|].
    replace (Z.to_nat (e + 1)) with (Z.to_nat s + (length (SOF :: M) + 1))%nat
      by (unfold len in Hidx; cbn [length]; lia).
    rewrite <- nth_error_skipn, HB, nth_error_app2 by lia.
    replace (length (SOF :: M) + 1 - length (SOF :: M))%nat with 1%nat by lia.
    reflexivity. }
  rewrite Hsl, HB. unfold ce in *. unfold get_is in *. rewrite Hg in *.
  clear Hsl Hg.
  destruct R as [|r R'].
  { cbn [nth_error] in E3. change (len []) with 0 in HlB. lia. }
  cbn [nth_error] in *. rewrite len_cons in HlB. pose proof (len_nonneg R') as HRn.
  destruct (r =? 0x3C) eqn:Er.
  - apply Z.eqb_eq in Er. rewrite Er.
    replace (Z.to_nat (e + 6 - s)) with (length (SOF :: M) + 6)%nat
      by (unfold len in Hidx; cbn [length]; lia).
    rewrite firstn_app_2. cbn [firstn].
    exists M, [EOF], (firstn 4 R').
    split; [reflexivity|]. split; [exact HM|]. split; [|now right].
    rewrite length_firstn. unfold len in *. lia.
  - apply Z.eqb_neq in Er.
    replace (Z.to_nat (e + 5 - s)) with (length (SOF :: M) + 5)%nat
      by (unfold len in Hidx; cbn [length]; lia).
    rewrite firstn_app_2. cbn [firstn].
    exists M, [], (r :: firstn 3 R').
    split; [reflexivity|]. split; [exact HM|]. split; [|left; now split].
    cbn [length]. rewrite length_firstn. unfold len in *. lia.
Qed.

Lemma reassemble_cut_ind (n : nat) : forall B,
  (length B <= n)%nat ->
  Forall (fun f => exists M pad cs, cutFrame f M pad cs) (snd (reassemble B)).
Proof.
  induction n as [|n IH]; intros B Hn.
  - destruct B; [|cbn in Hn; lia]. constructor.
  - pose proof (reassemble_step B) as SB. cbv zeta in SB.
    pose proof (slice_cut B) as SC. cbv zeta in SC.
    set (s := indexOf B 0x3E 0) in *.
    set (e := indexOf B 0x3C s) in *.
    set (ce := if get_is B (e + 1) 0x3C then e + 6 else e + 5) in *.
    destruct ((s =? -1) || (e =? -1) || (len B <? ce)) eqn:Brk;
      rewrite SB; cbn [snd]; [constructor|].
    apply orb_false_iff in Brk as [Brk E3].
    apply orb_false_iff in Brk as [E1 E2].
    apply Z.eqb_neq in E1, E2. apply Z.ltb_ge in E3.
    constructor; [now apply SC|].
    apply IH.
    destruct (indexOf_range B 0x3E 0 ltac:(lia)) as [?|R1]; [contradiction|].
    fold s in R1.
    destruct (indexOf_range B 0x3C s ltac:(lia)) as [?|R2]; [contradiction|].
    fold e in R2.
    assert (Hce : e + 5 <= ce) by (subst ce; destruct (get_is _ _ _); lia).
    pose proof (length_slice_from B ce ltac:(lia)) as HL.
    unfold len in *. lia.
Qed.

(** X19.  The reassembler and the decoder agree on every frame that is
    handed on.  Such a frame is the SOF, bytes without a 0x3C, the 0x3C
    the loop stopped at, a second 0x3C or none, and four checksum bytes.
    [decodeFrame] never answers it with 'Invalid start of frame'; it
    refuses it as too short when it has fewer than eight bytes, and
    otherwise takes the byte after the SOF as the type, decodes the bytes
    up to the 0x3C of the cut, reads the last four bytes as the checksum
    and compares them with the checksum of the frame up to and including
    the first 0x3C only. *)
Theorem delivered_frames_decode (conn : connection) (bytes : list Z) :
  Forall (fun f =>
    exists M pad cs, cutFrame f M pad cs /\
      match decodeFrame f with
      | Throw m => m = "Frame too short"%string /\ len f < 8
      | Ok d =>
          exists t M', M = t :: M' /\
            type d = t mod 65536 /\
            data d = decodeLoop M' false [] /\
            checksum d = map (fun x => x mod 65536) cs /\
            (checksum_ok d = true <->
             checksum d = checksumStr (calculateChecksum (SOF :: M ++ [EOF])))
      end)
    (snd (handleIncomingData conn bytes)).
Proof.
  rewrite handleIncomingData_reassemble. cbn [snd].
  eapply Forall_impl;
    [exact (reassemble_cut_ind (length (buffer conn ++ bytes)) _ (le_n _))|].
  intros f (M & pad & cs & HC). exists M, pad, cs. split; [exact HC|].
  pose proof HC as (Hf & HM & Hcs & Hpad).
  assert (Hshort : len f < 8 -> 
            match decodeFrame f with
            | Throw m => m = "Frame too short"%string /\ len f < 8
            | Ok d =>
                exists t M', M = t :: M' /\
                  type d = t mod 65536 /\
                  data d = decodeLoop M' false [] /\
                  checksum d = map (fun x => x mod 65536) cs /\
                  (checksum_ok d = true <->
                   checksum d = checksumStr (calculateChecksum (SOF :: M ++ [EOF])))
            end).
  { intros H8. unfold decodeFrame.
    destruct (len f <? 8) eqn:E8; [now split | apply Z.ltb_ge in E8; lia]. }
  assert (Hlf : len f = len M + len pad + 6).
  { rewrite Hf, len_cons, len_app, len_cons, len_app. unfold len at 3.
    rewrite Hcs. lia. }
  pose proof (len_nonneg pad) as HP0.
  destruct M as [|t M'].
  { apply Hshort. change (len []) with 0 in Hlf.
    destruct Hpad as [[-> _] | ->]; [change (len []) with 0 in Hlf; lia|].
    change (len [EOF]) with 1 in Hlf. lia. }
  rewrite len_cons in Hlf. pose proof (len_nonneg M') as HM0.
  destruct (Z_lt_dec (len M' + len pad) 1) as [Hs|Hl]; [apply Hshort; lia|].
  rewrite Hf in HC. rewrite Hf.
  rewrite (decodeFrame_cut t M' pad cs HC ltac:(lia)).
  exists t, M'. unfold checksum_ok. cbn [type data checksum warned].
  split; [reflexivity|]. split; [reflexivity|]. split; [reflexivity|].
  split; [reflexivity|].
  rewrite negb_involutive. apply bool_decide_eq_true.
Qed.

Lemma encodeFrame_cut (t : Z) (p : list Z) :
  isByte t -> t <> EOF -> Forall isByte p -> Forall (fun b => b <> EOF) p ->
  exists pad cs, cutFrame (encodeFrame t p) (t :: escapeData p) pad cs.
Proof.
  intros Ht HtE Hp HnoE.
  rewrite encodeFrame_shape by assumption.
  set (F := framed t p).
  pose proof (calculateChecksum_range (F ++ padding F)) as HR.
  destruct (checksumStr_chars _ HR) as (a & b & c & d & Hcs & Ha & _).
  apply isHexChar_byte in Ha as [_ Ha].
  exists (padding F), (checksumStr (calculateChecksum (F ++ padding F))).
  split; [|split; [|split]].
  - unfold F at 1, framed. cbn [app]. rewrite <- !app_assoc. reflexivity.
  - constructor; [exact HtE | now apply escapeData_no_EOF].
  - rewrite Hcs. reflexivity.
  - assert (HP : padding F = [] \/ padding F = [EOF])
      by (unfold padding; destruct (_ =? 0); auto).
    destruct HP as [E | E]; [left | now right].
    split; [exact E | rewrite Hcs; exact Ha].
Qed.

Lemma decodeLoop_escapeByte_any b rest acc :
  b <> EOF ->
  decodeLoop (escapeByte b ++ rest) false acc =
    decodeLoop rest false (acc ++ [decodedByte b]).
Proof.
  intros HE. unfold decodedByte. destruct (b =? 0x00) eqn:E0.
  - apply Z.eqb_eq in E0. rewrite E0. reflexivity.
  - apply Z.eqb_neq in E0. now apply decodeLoop_escapeByte.
Qed.

Lemma decodeLoop_escapeData_any p : forall rest acc,
  Forall (fun b => b <> EOF) p ->
  decodeLoop (escapeData p ++ rest) false acc =
    decodeLoop rest false (acc ++ map decodedByte p).
Proof.
  induction p as [|b p IH]; intros rest acc H; cbn [escapeData flat_map app map].
  - now rewrite app_nil_r.
  - apply Forall_cons in H as [HE Hp].
    rewrite <- app_assoc, decodeLoop_escapeByte_any by assumption.
    fold (escapeData p). rewrite IH by assumption.
    now rewrite <- app_assoc.
Qed.

Lemma map_decodedByte_id (p : list Z) : map decodedByte p = p <-> ~ In 0x00 p.
Proof.
  induction p as [|b p IH]; cbn [map In]; [tauto|].
  unfold decodedByte at 1. destruct (b =? 0x00) eqn:E.
  - apply Z.eqb_eq in E. rewrite E. split; [discriminate | tauto].
  - apply Z.eqb_neq in E. split.
    + intros H. injection H as H. apply IH in H. intros [? | ?]; [congruence | contradiction].
    + intros H. f_equal. apply IH. tauto.
Qed.

(** Decoding what [encodeFrame] wrote, for any payload of bytes without
    a 0x3C that is not empty. *)
Lemma decode_encode_data (t : Z) (p : list Z) :
  isByte t -> t <> EOF -> Forall isByte p -> Forall (fun b => b <> EOF) p ->
  p <> [] ->
  exists d, decodeFrame (encodeFrame t p) = Ok d /\
            type d = t /\ data d = map decodedByte p.
Proof.
  intros Ht HtE Hp HnoE Hne.
  destruct (encodeFrame_cut t p Ht HtE Hp HnoE) as (pad & cs & HC).
  pose proof HC as [Hf _]. rewrite Hf in HC. rewrite Hf.
  assert (HL : 1 <= len (escapeData p)).
  { pose proof (len_escapeData_bounds p). destruct p as [|x p]; [contradiction|].
    rewrite len_cons in *. pose proof (len_nonneg p). lia. }
  pose proof (len_nonneg pad).
  rewrite (decodeFrame_cut t (escapeData p) pad cs HC ltac:(lia)).
  eexists. split; [reflexivity|]. cbn [type data].
  split; [apply Z.mod_small; unfold isByte in Ht; lia|].
  rewrite <- (app_nil_r (escapeData p)).
  now rewrite decodeLoop_escapeData_any.
Qed.

(** X20.  For every type byte other than 0x3C and every payload of bytes
    that is not empty and has no 0x3C, whatever the parity of its escaped
    length, decoding the encoded frame succeeds and gives the type back;
    the payload comes back with every 0x00 replaced by 0x30 and every
    other byte unchanged, so it is the payload that was sent exactly when
    that has no zero byte. *)
Theorem decode_encode_maps_zero (t : Z) (p : list Z) :
  isByte t -> t <> EOF -> Forall isByte p -> Forall (fun b => b <> EOF) p ->
  p <> [] ->
  exists d, decodeFrame (encodeFrame t p) = Ok d /\
            type d = t /\ data d = map decodedByte p /\
            (data d = p <-> ~ In 0x00 p).
Proof.
  intros Ht HtE Hp HnoE Hne.
  destruct (decode_encode_data t p Ht HtE Hp HnoE Hne) as (d & Hd & Hty & Hda).
  exists d. split; [exact Hd|]. split; [exact Hty|]. split; [exact Hda|].
  rewrite Hda. apply map_decodedByte_id.
Qed.

Lemma decode_encode_maps_zero_witness :
  isByte COMMANDS_COAP /\ COMMANDS_COAP <> EOF /\
  Forall isByte [0x60; 0x45; 0x00; 0x07; 0xFF] /\
  Forall (fun b => b <> EOF) [0x60; 0x45; 0x00; 0x07; 0xFF] /\
  [0x60; 0x45; 0x00; 0x07; 0xFF] <> [] /\
  exists d, decodeFrame (encodeFrame COMMANDS_COAP [0x60; 0x45; 0x00; 0x07; 0xFF]) = Ok d /\
            type d = COMMANDS_COAP /\
            data d = map decodedByte [0x60; 0x45; 0x00; 0x07; 0xFF] /\
            (data d = [0x60; 0x45; 0x00; 0x07; 0xFF] <->
             ~ In 0x00 [0x60; 0x45; 0x00; 0x07; 0xFF]).
Proof.
  assert (H1 : isByte COMMANDS_COAP) by (unfold isByte, COMMANDS_COAP; lia).
  assert (H2 : COMMANDS_COAP <> EOF) by discriminate.
  assert (H3 : Forall isByte [0x60; 0x45; 0x00; 0x07; 0xFF])
    by (repeat (constructor; [unfold isByte; lia|]); constructor).
  assert (H4 : Forall (fun b => b <> EOF) [0x60; 0x45; 0x00; 0x07; 0xFF])
    by (repeat (constructor; [discriminate|]); constructor).
  assert (H5 : [0x60; 0x45; 0x00; 0x07; 0xFF] <> @nil Z) by discriminate.
  split; [exact H1|]. split; [exact H2|]. split; [exact H3|].
  split; [exact H4|]. split; [exact H5|].
  exact (decode_encode_maps_zero COMMANDS_COAP [0x60; 0x45; 0x00; 0x07; 0xFF]
           H1 H2 H3 H4 H5).
Defined.

Lemma reassemble_cut_whole (f M pad cs : list Z) :
  cutFrame f M pad cs -> reassemble f = ([], [f]).
Proof.
  intros (Hf & HM & Hcs & Hpad).
  destruct (four_elements cs Hcs) as (a & b & c & d & Ecs).
  rewrite Ecs in *. clear Ecs cs.
  pose proof (reassemble_step f) as SB. cbv zeta in SB.
  assert (Hs : indexOf f 0x3E 0 = 0) by (rewrite Hf; reflexivity).
  assert (HM1 : Forall (fun y => y <> EOF) (SOF :: M))
    by (constructor; [discriminate | exact HM]).
  assert (He : indexOf f 0x3C 0 = len (SOF :: M)).
  { rewrite Hf. apply (indexOf_first [] (SOF :: M) (pad ++ [a; b; c; d]) EOF HM1). }
  rewrite Hs, He in SB.
  pose proof (len_nonneg M) as HM0.
  assert (Hlf : len f = len (SOF :: M) + 1 + len pad + 4).
  { rewrite Hf. change (SOF :: M ++ EOF :: pad ++ [a; b; c; d])
      with ((SOF :: M) ++ EOF :: pad ++ [a; b; c; d]).
    rewrite len_app, !len_cons, len_app. change (len [a; b; c; d]) with 4. lia. }
  assert (Hce : (if get_is f (len (SOF :: M) + 1) 0x3C
                 then len (SOF :: M) + 6 else len (SOF :: M) + 5) = len f).
  { unfold get_is. rewrite Hf at 1.
    change (SOF :: M ++ EOF :: pad ++ [a; b; c; d])
      with ((SOF :: M) ++ EOF :: pad ++ [a; b; c; d]).
    rewrite get_app_r by lia.
    destruct Hpad as [[Ep Ha] | Ep]; rewrite Ep in *.
    - cbn [hd] in Ha. unfold get. cbn [app Z.ltb Z.compare].
      change (Z.to_nat 1) with 1%nat. cbn [nth_error].
      apply Z.eqb_neq in Ha. unfold EOF in Ha. rewrite Ha.
      change (len []) with 0 in Hlf. lia.
    - unfold get. cbn [app Z.ltb Z.compare].
      change (Z.to_nat 1) with 1%nat. cbn [nth_error].
      change (EOF =? 60) with true. cbn iota.
      change (len [EOF]) with 1 in Hlf. lia. }
  rewrite Hce in SB. rewrite len_cons in SB.
  change (0 =? -1) with false in SB.
  destruct (1 + len M =? -1) eqn:E1; [apply Z.eqb_eq in E1; lia|].
  rewrite Z.ltb_irrefl in SB. cbn [orb] in SB.
  assert (Hw : slice f 0 (len f) = f).
  { pose proof (slice_prefix f []) as S. now rewrite app_nil_r in S. }
  assert (Hr : slice_from f (len f) = []).
  { pose proof (len_nonneg f).
    rewrite slice_from_skipn by lia. unfold len. rewrite Nat2Z.id.
    apply skipn_all. }
  rewrite Hw, Hr in SB. exact SB.
Qed.

Lemma receive_cut throws dec (d : device) (conn : connection) (f M pad cs : list Z) :
  buffer conn = [] -> cutFrame f M pad cs ->
  receive throws dec d conn f =
    (fst (handleFrame throws dec d f), conn, [snd (handleFrame throws dec d f)]).
Proof.
  intros Hb HC. unfold receive.
  rewrite handleIncomingData_reassemble, Hb. cbn [app].
  rewrite (reassemble_cut_whole _ _ _ _ HC). cbn [fst snd fold_left deliver app].
  destruct conn as [w ww buf]. cbn [buffer] in Hb. rewrite Hb. reflexivity.
Qed.

Lemma receive_coap_frame throws dec (d : device) (conn : connection) (p : list Z) :
  buffer conn = [] ->
  Forall isByte p -> Forall (fun b => b <> EOF) p -> p <> [] ->
  receive throws dec d conn (createCoapFrame p) =
    ({| bus := bus d;
        coap := fst (handleResponse dec (coap d) (map decodedByte p)) |},
     conn,
     [CoapHandled (snd (handleResponse dec (coap d) (map decodedByte p)))]).
Proof.
  intros Hb Hp HnoE Hne.
  assert (Ht : isByte COMMANDS_COAP) by (unfold isByte, COMMANDS_COAP; lia).
  assert (HtE : COMMANDS_COAP <> EOF) by discriminate.
  destruct (encodeFrame_cut COMMANDS_COAP p Ht HtE Hp HnoE) as (pad & cs & HC).
  unfold createCoapFrame.
  rewrite (receive_cut throws dec d conn _ _ _ _ Hb HC).
  destruct (decode_encode_data COMMANDS_COAP p Ht HtE Hp HnoE Hne)
    as (dd & Hd & Hty & Hda).
  unfold handleFrame. rewrite Hd, Hty, Hda.
  change (COMMANDS_COAP =? 80) with false.
  change (COMMANDS_COAP =? 65) with false.
  change (COMMANDS_COAP =? 67) with true. cbn iota.
  now destruct (handleResponse dec (coap d) (map decodedByte p)).
Qed.

(** X21.  From the wire to the client: when the buffer is empty, the
    bytes of [createCoapFrame p], for a message [p] of bytes that is not
    empty and has no 0x3C, make [handleIncomingData] hand on exactly one
    frame and leave the buffer empty; [handleFrame] routes that frame to
    [handleResponse] and to no subscriber, and [handleResponse] is given
    [p] with every 0x00 replaced by 0x30. *)
Theorem coap_frame_reaches_client
    (throws : nat -> bool) (cborDecode : list Z -> option jsval)
    (d : device) (conn : connection) (p : list Z) :
  buffer conn = [] ->
  Forall isByte p -> Forall (fun b => b <> EOF) p -> p <> [] ->
  receive throws cborDecode d conn (createCoapFrame p) =
    ({| bus := bus d;
        coap := fst (handleResponse cborDecode (coap d) (map decodedByte p)) |},
     conn,
     [CoapHandled (snd (handleResponse cborDecode (coap d) (map decodedByte p)))]).
Proof. apply receive_coap_frame. Qed.

Lemma coap_frame_reaches_client_witness :
  buffer link_up = [] /\
  Forall isByte [0x60; 0x45; 0x01; 0x07; 0xFF; 0x01] /\
  Forall (fun b => b <> EOF) [0x60; 0x45; 0x01; 0x07; 0xFF; 0x01] /\
  [0x60; 0x45; 0x01; 0x07; 0xFF; 0x01] <> [] /\
  receive (fun _ => false) cbor_none_decode
    {| bus := new_controller; coap := new_client |} link_up
    (createCoapFrame [0x60; 0x45; 0x01; 0x07; 0xFF; 0x01]) =
    ({| bus := new_controller;
        coap := fst (handleResponse cbor_none_decode new_client
                       (map decodedByte [0x60; 0x45; 0x01; 0x07; 0xFF; 0x01])) |},
     link_up,
     [CoapHandled (snd (handleResponse cbor_none_decode new_client
                          (map decodedByte [0x60; 0x45; 0x01; 0x07; 0xFF; 0x01])))]).
Proof.
  assert (H1 : buffer link_up = []) by reflexivity.
  assert (H2 : Forall isByte [0x60; 0x45; 0x01; 0x07; 0xFF; 0x01])
    by (repeat (constructor; [unfold isByte; lia|]); constructor).
  assert (H3 : Forall (fun b => b <> EOF) [0x60; 0x45; 0x01; 0x07; 0xFF; 0x01])
    by (repeat (constructor; [discriminate|]); constructor).
  assert (H4 : [0x60; 0x45; 0x01; 0x07; 0xFF; 0x01] <> @nil Z) by discriminate.
  split; [exact H1|]. split; [exact H2|]. split; [exact H3|]. split; [exact H4|].
  exact (coap_frame_reaches_client (fun _ => false) cbor_none_decode
           {| bus := new_controller; coap := new_client |} link_up
           [0x60; 0x45; 0x01; 0x07; 0xFF; 0x01] H1 H2 H3 H4).
Defined.

Lemma decodedByte_id (b : Z) : b <> 0x00 -> decodedByte b = b.
Proof. intros H. unfold decodedByte. apply Z.eqb_neq in H. now rewrite H. Qed.

(** X22.  A response to the request just made, framed by
    [createCoapFrame] and received on an empty buffer, is matched to the
    request through the two bytes of its message id as [decodeFrame]
    returns them.  For an id of 256 or more (with no byte 0x00 or 0x3C in
    the code, the low id byte and the body, and a high id byte other than
    0x3C) the request is settled and leaves the pending map.  For an id
    below 256 the high byte 0x00 comes back as 0x30, the response is read
    as one for id 0x3000 + id, nothing is settled and the request stays
    pending. *)
Theorem response_frame_and_message_id
    (throws : nat -> bool)
    (cborEncode : jsval -> list Z) (cborDecode : list Z -> option jsval)
    (d : device) (conn : connection)
    (method : Z) (uri : list Z) (payload : jsval) (code : Z) (body : list Z) :
  let mid := messageId (coap d) in
  let d1 := {| bus := bus d;
               coap := fst (fst (request cborEncode conn (coap d) method uri payload)) |} in
  let response := [0x60; code; mid / 256; mid mod 256; 0xFF] ++ body in
  below_counter (coap d) -> mid < 65536 -> buffer conn = [] ->
  isByte code -> Forall isByte body ->
  Forall (fun b => b <> 0x00 /\ b <> EOF) (code :: mid mod 256 :: body) ->
  mid / 256 <> EOF ->
  receive throws cborDecode d1 conn (createCoapFrame response) =
    if mid <? 256 then (d1, conn, [CoapHandled []])
    else ({| bus := bus d;
             coap := {| messageId := mid + 1; token := token (coap d);
                        pendingRequests := delete mid (pendingRequests (coap d)) |} |},
          conn,
          [CoapHandled [settlement mid code (bodyPayload cborDecode body)]]).
Proof.
  intros mid d1 response [Hc1 Hbelow] Hlt Hb Hcode Hbody Hnz HhiE.
  fold mid in Hc1.
  assert (Hhi : 0 <= mid / 256 < 256)
    by (split; [apply Z.div_pos | apply Z.div_lt_upper_bound]; lia).
  assert (Hlo : 0 <= mid mod 256 < 256) by (apply Z.mod_pos_bound; lia).
  apply Forall_cons in Hnz as [[Hc0 HcE] Hnz].
  apply Forall_cons in Hnz as [[Hl0 HlE] Hnz].
  assert (HB : Forall isByte response).
  { unfold response. cbn [app].
    constructor; [unfold isByte; lia|]. constructor; [exact Hcode|].
    constructor; [exact Hhi|]. constructor; [exact Hlo|].
    constructor; [unfold isByte; lia | exact Hbody]. }
  assert (HE : Forall (fun b => b <> EOF) response).
  { unfold response. cbn [app].
    constructor; [discriminate|]. constructor; [exact HcE|].
    constructor; [exact HhiE|]. constructor; [exact HlE|].
    constructor; [discriminate|].
    eapply Forall_impl; [exact Hnz | intros x [_ Hx]; exact Hx]. }
  assert (Hne : response <> []) by discriminate.
  rewrite (receive_coap_frame throws cborDecode d1 conn response Hb HB HE Hne).
  assert (Hbody0 : map decodedByte body = body).
  { apply map_decodedByte_id. intros Hin.
    rewrite List.Forall_forall in Hnz. destruct (Hnz _ Hin) as [H0 _]. now apply H0. }
  assert (Hmap : map decodedByte response =
                 [0x60; code; decodedByte (mid / 256); mid mod 256; 0xFF] ++ body).
  { unfold response. rewrite map_app, Hbody0. cbn [map].
    now rewrite (decodedByte_id code), (decodedByte_id (mid mod 256)) by assumption. }
  rewrite Hmap. unfold handleResponse. rewrite parseResponse_body.
  cbn [r_messageId r_code r_payload]. unfold d1. cbn [coap bus].
  rewrite request_state. cbn [pendingRequests messageId token]. fold mid.
  destruct (mid <? 256) eqn:E.
  - apply Z.ltb_lt in E.
    assert (H0 : mid / 256 = 0) by (apply Z.div_small; lia).
    rewrite H0. change (decodedByte 0) with 0x30.
    rewrite bor_shl by (change (2 ^ 8) with 256; lia).
    change (2 ^ 8) with 256.
    rewrite lookup_insert_ne by lia.
    destruct (pendingRequests (coap d) !! (48 * 256 + mid mod 256)) as [x|] eqn:P;
      [|reflexivity].
    exfalso. specialize (Hbelow (48 * 256 + mid mod 256)).
    rewrite P in Hbelow. specialize (Hbelow (mk_is_Some _ _ eq_refl)). lia.
  - apply Z.ltb_ge in E.
    pose proof (Z.div_mod mid 256 ltac:(lia)) as HD.
    rewrite decodedByte_id by lia.
    rewrite bor_shl by (change (2 ^ 8) with 256; lia).
    change (2 ^ 8) with 256.
    replace (mid / 256 * 256 + mid mod 256) with mid by lia.
    rewrite lookup_insert_eq, delete_insert_eq.
    unfold settlement. destruct (code / 32 =? 2); reflexivity.
Qed.

Lemma response_frame_and_message_id_witness :
  let d := {| bus := new_controller; coap := new_client |} in
  let d1 := {| bus := new_controller;
               coap := fst (fst (request cbor_none_encode link_up new_client
                                   METHODS_GET (codes "/a") JNull)) |} in
  below_counter (coap d) /\ messageId (coap d) < 65536 /\ buffer link_up = [] /\
  isByte 0x45 /\ Forall isByte [0x01] /\
  Forall (fun b => b <> 0x00 /\ b <> EOF) [0x45; 1 mod 256; 0x01] /\
  1 / 256 <> EOF /\
  receive (fun _ => false) cbor_none_decode d1 link_up
    (createCoapFrame ([0x60; 0x45; 1 / 256; 1 mod 256; 0xFF] ++ [0x01])) =
    (d1, link_up, [CoapHandled []]).
Proof.
  cbv zeta.
  assert (H1 : below_counter new_client) by exact new_client_below.
  assert (H2 : messageId new_client < 65536) by (cbn; lia).
  assert (H3 : buffer link_up = []) by reflexivity.
  assert (H4 : isByte 0x45) by (unfold isByte; lia).
  assert (H5 : Forall isByte [0x01])
    by (constructor; [unfold isByte; lia | constructor]).
  assert (H6 : Forall (fun b => b <> 0x00 /\ b <> EOF) [0x45; 1 mod 256; 0x01])
    by (repeat (constructor; [split; discriminate|]); constructor).
  assert (H7 : 1 / 256 <> EOF) by discriminate.
  split; [exact H1|]. split; [exact H2|]. split; [exact H3|]. split; [exact H4|].
  split; [exact H5|]. split; [exact H6|]. split; [exact H7|].
  exact (response_frame_and_message_id (fun _ => false) cbor_none_encode
           cbor_none_decode {| bus := new_controller; coap := new_client |} link_up
           METHODS_GET (codes "/a") JNull 0x45 [0x01] H1 H2 H3 H4 H5 H6 H7).
Defined.

Lemma eventOf_byte (t : Z) (event : string) :
  eventOf t = Some event -> isByte t /\ t <> EOF /\ t <> COMMANDS_COAP.
Proof.
  unfold eventOf, isByte.
  destruct (t =? COMMANDS_PING) eqn:E1;
    [apply Z.eqb_eq in E1; rewrite E1; intros _; repeat split; (discriminate || lia)|].
  destruct (t =? COMMANDS_ANNOUNCEMENT) eqn:E2;
    [apply Z.eqb_eq in E2; rewrite E2; intros _; repeat split; (discriminate || lia)|].
  destruct (t =? COMMANDS_SYSTEM) eqn:E3;
    [apply Z.eqb_eq in E3; rewrite E3; intros _; repeat split; (discriminate || lia)|].
  destruct (t =? COMMANDS_TRACE) eqn:E4;
    [apply Z.eqb_eq in E4; rewrite E4; intros _; repeat split; (discriminate || lia)|].
  discriminate.
Qed.

Lemma handleFrame_event throws dec (d : device) (f : list Z) (dd : decoded)
    (event : string) :
  decodeFrame f = Ok dd -> eventOf (type dd) = Some event ->
  handleFrame throws dec d f = emitOn throws d event.
Proof.
  intros Hd He. unfold handleFrame. rewrite Hd.
  unfold eventOf, COMMANDS_PING, COMMANDS_ANNOUNCEMENT, COMMANDS_SYSTEM,
    COMMANDS_TRACE in He.
  destruct (type dd =? 80) eqn:E1; [now injection He as <-|].
  destruct (type dd =? 65) eqn:E2; [now injection He as <-|].
  destruct (type dd =? 83) eqn:E3.
  - apply Z.eqb_eq in E3. rewrite E3. cbn. now injection He as <-.
  - destruct (type dd =? 84) eqn:E4; [|discriminate].
    apply Z.eqb_eq in E4. rewrite E4. cbn. now injection He as <-.
Qed.

(** X23.  From the wire to the subscribers: on an empty buffer, the
    bytes of an encoded frame of type P, A, S or T with a payload that is
    not empty and has no 0x3C make [handleFrame] emit [pong],
    [announcement], [system-response] or [trace] once; the subscribers of
    that event are called as [emit] calls them, an exception of one of
    them does not leave [handleFrame], and the CoAP client is not
    touched.  A frame the encoder writes for an empty payload has seven
    bytes: the reassembler hands it on, [decodeFrame] refuses it and no
    subscriber is called. *)
Theorem event_frame_reaches_subscribers
    (throws : nat -> bool) (cborDecode : list Z -> option jsval)
    (d : device) (conn : connection) (t : Z) (p : list Z) (event : string) :
  buffer conn = [] -> eventOf t = Some event ->
  Forall isByte p -> Forall (fun b => b <> EOF) p -> p <> [] ->
  receive throws cborDecode d conn (encodeFrame t p) =
    ({| bus := fst (fst (emit throws (bus d) event)); coap := coap d |},
     conn,
     [Emitted event (snd (fst (emit throws (bus d) event)))
        (snd (emit throws (bus d) event))]) /\
  receive throws cborDecode d conn (encodeFrame t []) =
    (d, conn, [FrameError "Frame too short"]).
Proof.
  intros Hb Hev Hp HnoE Hne.
  destruct (eventOf_byte t event Hev) as (Ht & HtE & _).
  split.
  - destruct (encodeFrame_cut t p Ht HtE Hp HnoE) as (pad & cs & HC).
    rewrite (receive_cut throws cborDecode d conn _ _ _ _ Hb HC).
    destruct (decode_encode_data t p Ht HtE Hp HnoE Hne) as (dd & Hd & Hty & _).
    rewrite (handleFrame_event throws cborDecode d _ dd event Hd)
      by (now rewrite Hty).
    unfold emitOn. now destruct (emit throws (bus d) event) as [[b called] threw].
  - destruct (encodeFrame_cut t [] Ht HtE (List.Forall_nil _) (List.Forall_nil _))
      as (pad & cs & HC).
    rewrite (receive_cut throws cborDecode d conn _ _ _ _ Hb HC).
    assert (Hlen : len (encodeFrame t []) = 7).
    { rewrite encodeFrame_shape by (assumption || constructor).
      assert (HP : padding (framed t []) = []) by reflexivity.
      rewrite HP, app_nil_r.
      pose proof (calculateChecksum_range (framed t [])) as HR.
      destruct (checksumStr_chars _ HR) as (a & b & c & e & -> & _).
      reflexivity. }
    unfold handleFrame, decodeFrame. rewrite Hlen. reflexivity.
Qed.

Lemma event_frame_reaches_subscribers_witness :
  buffer link_up = [] /\ eventOf COMMANDS_ANNOUNCEMENT = Some "announcement"%string /\
  Forall isByte (codes "hi") /\ Forall (fun b => b <> EOF) (codes "hi") /\
  codes "hi" <> [] /\
  let d := {| bus := on new_controller "announcement" (User 0); coap := new_client |} in
  receive (fun _ => false) cbor_none_decode d link_up
    (encodeFrame COMMANDS_ANNOUNCEMENT (codes "hi")) =
    ({| bus := fst (fst (emit (fun _ => false) (bus d) "announcement"));
        coap := coap d |},
     link_up,
     [Emitted "announcement"
        (snd (fst (emit (fun _ => false) (bus d) "announcement")))
        (snd (emit (fun _ => false) (bus d) "announcement"))]) /\
  receive (fun _ => false) cbor_none_decode d link_up
    (encodeFrame COMMANDS_ANNOUNCEMENT []) =
    (d, link_up, [FrameError "Frame too short"]).
Proof.
  assert (H1 : buffer link_up = []) by reflexivity.
  assert (H2 : eventOf COMMANDS_ANNOUNCEMENT = Some "announcement"%string)
    by reflexivity.
  assert (H3 : Forall isByte (codes "hi"))
    by (cbn [codes];
        repeat (constructor; [vm_compute; split; [discriminate | reflexivity]|]);
        constructor).
  assert (H4 : Forall (fun b => b <> EOF) (codes "hi"))
    by (cbn [codes]; repeat (constructor; [discriminate|]); constructor).
  assert (H5 : codes "hi" <> @nil Z) by discriminate.
  split; [exact H1|]. split; [exact H2|]. split; [exact H3|].
  split; [exact H4|]. split; [exact H5|].
  exact (event_frame_reaches_subscribers (fun _ => false) cbor_none_decode
           {| bus := on new_controller "announcement" (User 0); coap := new_client |}
           link_up COMMANDS_ANNOUNCEMENT (codes "hi") "announcement" H1 H2 H3 H4 H5).
Defined.
